(* ===== verification/_CoqProject ===== *)
-Q . S2P
Prelude.v
Crypto.v
Block.v
Chain.v
ChainIter.v
Heartbeat.v
Delegations.v
Resolve.v
Sync.v
Behaviour.v
Node.v
Client.v
Startup.v
Cli.v
Tests.v
