(* ===== verification/Prelude.v ===== *)
(** * Votechain: a verification development of the votechain node

    This library models, in Rocq, the core of the votechain node: a
    peer-to-peer homomorphic voting system that keeps a per-issue chain
    of signed ballots and tallies them with liquid-democracy delegation.
    The sources live under [src/]; every modelled definition keeps the
    name of the Rust item it translates.

    ** The program and how its parts interact

    - [src/lib/src/lib.rs] (ballot codec): [Ballot::new] encrypts a
      yes/no verdict as two Paillier ciphertexts, [weight] scales both by
      a plaintext weight, [sum] adds them to two accumulators, and
      [Signed<T>] wraps a payload with an ed25519 signature.
    - [src/node/src/votechain/block.rs] (block and proof of work):
      [Block::new], [seal], [genesis], [hash], [is_valid],
      [proof_of_work] and [get_ballots].
    - [src/node/src/votechain/chain.rs] (chain store): the LMDB map from
      [u32] index to block, the in-memory hash index, the height, the
      ballot pool and the node's signing key; [append],
      [try_update_longest] (the reorganisation), [pool_ballot],
      [blocks], [blocks_from], [is_valid_chain] and [Blockchain::new].
    - [src/node/src/trustee/delegations.rs] (delegation graph): the
      inverse adjacency [get_adj_list], the depth-first [resolve_power]
      and [generate_weights].
    - [src/node/src/trustee/resolve.rs] (tally):
      [generate_vote_result], which keeps the latest ballot per signer,
      weights it, sums homomorphically and compares the decryptions.
    - [src/node/src/protocols/chain_sync/protocol.rs] (sync protocol):
      the initiator [send_sync] walks back from its height until the
      peer recognises a block, then collects the streamed blocks and
      calls [try_update_longest]; the responder [recv_sync] answers.
    - [src/node/src/main.rs], [behaviour.rs], [handler.rs], [census.rs]
      (orchestration): gossip ballots are checked (signature, census)
      and pooled; every 20 s a random peer is synced; when the height
      exceeds 4 a tally is computed; a delay tick prints the chain,
      forces a sync and, with [--test-append], appends test blocks.
    - [src/client] (voting client): [cast] builds and signs a ballot
      with a key read from a key file and publishes its bincode
      encoding on the ["ballot-cast"] topic; [init-keys] writes a key.

    Data flow: client [cast] -> gossip -> signature and census check -> [pool_ballot] ->
    a block is mined every [BLOCK_SIZE] = 2 ballots -> [append]; the
    heartbeat triggers [send_sync] against a peer's [recv_sync], which
    ends in [try_update_longest]; [generate_vote_result] reads
    [blocks] and a [DelegationGraph].

    ** Files of the development, in dependency order

    - [Prelude]: the [vc_scope] notations, the result type [res] of
      fallible Rust code (success, error value, or panic), big-endian
      byte encodings ([to_be_bytes] of [u32]/[u128]) with their round
      trips, [msum] (sums over a [gmap]), [choose] (the
      [SliceRandom::choose] of a list with the draw as input),
      [rtc_preserve] (invariants of reachable states), generic list and
      map lemmas, the [votechain] hint database and shared tactics.
    - [Crypto]: the interfaces the code only calls, as type classes:
      [Blake3] (digest), [Ed25519] (signatures), [Paillier] (additively
      homomorphic encryption, with its decryption laws), [Serialize]
      and [Deserialize] (bincode, with the round-trip law
      [SerdeRoundtrip]); toy instances for the concrete scenarios; the
      [Ballot] record and its operations from lib.rs and [Signed].
    - [Block]: [BlockData], [Block], [hash], [is_valid],
      [proof_of_work] over an explicit nonce stream, [Block.new],
      [seal], [genesis], [get_ballots]; the [Error] enum of errors.rs.
    - [Chain] ([Module Chain]): the [Blockchain] state record and every
      operation of chain.rs as explicit state passing, the chain
      invariant [chain_wf] and its preservation, and the functional
      behaviour of [append], [try_update_longest] and [pool_ballot] on
      every branch, errors and atomicity included.
    - [ChainIter] ([Module ChainIter]): [Blockchain::iter] and
      [BlockchainIter::next] with a fuelled [collect] and the proof that
      [height] calls suffice, [seal] ([todo!]), and the [Display] and
      [Debug] impls, which never panic on a well-formed chain.
    - [Delegations] ([Module Delegations]): [DelegationGraph::new],
      [random] (random draws as input), [get_adj_list] and the proof
      that it is the inverse of the delegation map, the DFS of
      [resolve_power] as a fuelled loop refined against the inductive
      set [powered], its termination, and the weight theorems of
      [generate_weights].
    - [Resolve] ([Module Resolve]): [generate_vote_result] as its three
      loops (latest ballot per signer, weighting, homomorphic sums) and
      the refinement theorem: on well-formed ballots and below the
      Paillier modulus it returns the plaintext weighted comparison.
    - [Sync] ([Module Sync]): [send_sync] and [recv_sync] of
      protocol.rs as control states with one handler per received
      frame, composed over two FIFO queues by [net_step] and a fuelled
      [run]; the sequential specification [sync_spec] (walk back, then
      reorganise) and the refinement theorem [sync_refines]; the
      convergence, behind-peer and no-sync-point theorems.
    - [Behaviour] ([Module Handler], [Module SyncBehaviour]): the
      connection [Handler] and the network [Behaviour] of the chain-sync
      protocol as state records with one function per method and a
      step relation; invariants of reachable states ([rtc] from
      [new]): the handler only queues substream requests and the
      behaviour never emits [ResolveReady]; [poll] is last-in
      first-out; the heartbeat reaches a known peer.
    - [Node] ([Module Census], [Module Node]): [DumbCensus] and its
      round trip; the event-loop arms of main.rs that change state (the
      gossip ballot handler on the raw message bytes with its signature
      and census checks, mDNS discovery, the delay arm with its
      [test_append] loop) and [Behaviour::pool_ballot] and
      [try_resolve]; the invariant that the node's own transitions
      only let accepted ballots into its chain, the exact outcome of the
      delay arm, and a scenario showing that sync imports ballots
      without those checks.
    - [Client] ([Module Client]): the client's key-file store, [cast],
      [send_to_swarm], [generate_keys], [generate_population] and the
      subcommand dispatch; composed with [Node], the theorem that a cast
      ballot reaches the gossip handler intact and is pooled exactly
      when its signer is in the census (under the bincode round-trip
      law of [Crypto.SerdeRoundtrip]).
    - [Startup] ([Module Startup]): the start of the node's [main]
      (signing key, [DumbCensus::new] over the key files, and
      [Blockchain::new] on the stored blocks); the spec's invariant that
      stored indices are contiguous [1..=height], kept by every node
      transition and by syncs with contiguous peers, so that a restart
      reopens the same chain (only the pending pool is lost); and a
      reorganisation to a shorter chain that would break it.
    - [Heartbeat] ([Module Heartbeat]): the height exchange of
      protocols/heartbeat.rs and chain_sync/protocol_heartbeats.rs as
      written; neither file is reachable from [main] (dead code), so no
      other file uses it.
    - [Cli] ([Module NodeCli]): the node's [Cli] arguments, the
      [BlockchainConfig] that [main] loads, the issue identifier
      ([--chain-postfix] or a fresh random one), [Path::join] of the
      store directory and the start of [main] on a disk of stores; a
      restart reopens its chain only with a fixed postfix.
    - [Tests] ([Module UnitTests], [Module DelegationTests]): the
      [#[cfg(test)]] functions of block.rs, chain.rs, lib.rs, census.rs
      and delegations.rs as executable definitions, with the theorems
      that they pass (generically, or on sample censuses by
      evaluation).

    ** Bounds and fuel

    - [Delegations.resolve_loop] runs with fuel [size delegation_map +
      2]: every iteration but the last pops a node and the visited set
      only grows within the nodes of the graph, which is proved enough
      ([resolve_loop_terminates]).
    - [Sync.run] runs with fuel [3*height(a) + 2*height(b) + 3]: each
      request of the walk back costs at most three network steps and
      each streamed block two; [sync_refines] proves the run ends
      within it.
    - [Block.proof_of_work] consumes a finite nonce stream and returns
      exactly when the stream holds an accepted nonce
      ([proof_of_work_terminates]); the [test_append] loop of the delay
      arm returns exactly when each of its proofs of work does
      ([on_delay_test_append]).
    - [ChainIter.collect] runs with fuel [height]: [height - 1] blocks
      and the final [None] ([iter_yields]).
    - The delay arm's test range [start_h + test_append] is a [u32]
      sum: the model keeps the overflow check of a debug build, a
      [Panic] when it reaches [2^32] ([on_delay_overflow]).
    - Paillier sums are exact below the modulus: the tally theorem
      assumes voters plus delegators number fewer than it.

    ** Modelling conventions

    - Integers: [u32] indices and heights and [u128] timestamps are [Z];
      heights stay far below [2^32] (one block per two ballots), so the
      model does not wrap them, except in the one [u32] sum that a
      command-line flag can push past it (see above); the byte encodings are written at their
      width.  Bytes are [Z] values in [0, 256); a [blake3::Hash] is its
      byte list.
    - Rust [Vec] used as a stack ([push]/[pop] at the end) is a list
      whose head is the top.  [HashMap]/[HashSet] are stdpp [gmap] /
      [gset]; where the code iterates over one, the model iterates over
      [map_to_list]/[elements], and the theorems are stated so that
      they do not depend on that order.
    - Randomness (nonces, Paillier randomness) and the wall clock are
      explicit arguments.  The proof-of-work loop consumes a finite
      nonce stream: [None] means the loop has not stopped within it.
    - A Rust panic ([unwrap] on [Err], out-of-range indexing) is the
      [Panic] outcome of [res].
    - Storage (LMDB/heed) and I/O errors are not modelled: storage
      calls always succeed, so the [Heed] and [Io] constructors are
      never produced.  Concurrency is not modelled: the chain is
      behind one mutex and each operation is one atomic step; the
      swarm's interleaving of handlers is a step relation.
    - Events of libp2p (connection events, swarm events, poll results
      of futures, the heartbeat ticker) are inputs of the handlers.

    ** Not modelled

    - libp2p swarm construction and gossipsub configuration (node and
      client), the client's waiting loops (they only log), the parsing
      of arguments and configuration files by clap and confique
      (libraries: [Cli] starts from the parsed [Cli] record), the
      client's [Cfg], the decoding of key files (every stored key file
      is taken to decode), the port choice, logging and the stdin debug
      input; the mDNS-expiry, Kad and Identify arms of main.rs, which
      only log or fill the Kademlia routing table.
    - The [request_response] behaviour that heartbeat.rs configures: a
      library the dead code only calls.
    - The wire codecs (CBOR framing, bincode): frames are delivered
      intact.
    - The cryptographic libraries (blake3, ed25519-dalek, the Paillier
      crate): type-class interfaces with stated laws, not
      implementations. *)

From stdpp Require Export base gmap list strings.
From Stdlib Require Export ZArith Lia.

Declare Scope vc_scope.
Delimit Scope vc_scope with vc.
Open Scope Z_scope.

(** ** Results of fallible Rust code *)

(** [Ok] and [Err] are the two variants of [Result]; [Panic] models an
    unwinding panic ([unwrap] on an error, indexing out of range). *)
Inductive res (A E : Type) : Type :=
| Ok (a : A)
| Err (e : E)
| Panic.
Arguments Ok {A E} a.
Arguments Err {A E} e.
Arguments Panic {A E}.

(** The [?] operator. *)
Definition res_bind {A B E} (r : res A E) (k : A -> res B E) : res B E :=
  match r with
  | Ok a => k a
  | Err e => Err e
  | Panic => Panic
  end.

Notation "'let?' x ':=' r 'in' k" := (res_bind r (fun x => k))
  (at level 10, x name, r at level 100, k at level 200) : vc_scope.

Definition is_ok {A E} (r : res A E) : bool :=
  match r with Ok _ => true | _ => false end.

(** [Option::unwrap]: panics on [None]. *)
Definition unwrap {A E} (o : option A) : res A E :=
  match o with Some a => Ok a | None => Panic end.

Open Scope vc_scope.

(** ** Bytes and big-endian encodings *)

Definition is_byte (b : Z) : Prop := 0 <= b < 256.

#[export] Instance is_byte_dec b : Decision (is_byte b).
Proof. unfold is_byte. apply _. Defined.

(** [x.to_be_bytes()] for an unsigned integer of [n] bytes. *)
Fixpoint to_be_bytes (n : nat) (x : Z) : list Z :=
  match n with
  | O => []
  | S n' => to_be_bytes n' (Z.shiftr x 8) ++ [Z.land x 255]
  end.

(** [from_be_bytes]: the inverse reading. *)
Definition from_be_bytes (l : list Z) : Z :=
  fold_left (fun acc b => Z.lor (Z.shiftl acc 8) b) l 0.

(** XOR of two byte strings over their common prefix; the rest of the
    first string is kept. *)
Fixpoint xor_prefix (a b : list Z) : list Z :=
  match a, b with
  | x :: a', y :: b' => Z.lxor x y :: xor_prefix a' b'
  | _, _ => a
  end.

(** ** Hint database and tactics *)

Create HintDb votechain.
Create Rewrite HintDb votechain_rw.

(** Unfold the result-monad plumbing and case on the matches. *)
Ltac res_simpl :=
  repeat match goal with
  | H : res_bind ?r _ = _ |- _ => let E := fresh "E" in destruct r eqn:E; simpl in H
  | H : Ok _ = Ok _ |- _ => injection H as H
  | H : Ok _ = Err _ |- _ => discriminate H
  | H : Err _ = Ok _ |- _ => discriminate H
  | H : Ok _ = Panic |- _ => discriminate H
  | H : Panic = Ok _ |- _ => discriminate H
  | H : Err _ = Panic |- _ => discriminate H
  | H : Panic = Err _ |- _ => discriminate H
  end.

(** ** Generic lemmas *)

Section Bytes.

Lemma length_to_be_bytes n x : length (to_be_bytes n x) = n.
Proof. induction n as [|n IH] in x |- *; simpl; [done|]. rewrite length_app, IH. simpl. lia. Qed.

Lemma land_255_byte x : is_byte (Z.land x 255).
Proof.
  unfold is_byte. change 255 with (Z.ones 8). rewrite Z.land_ones by lia.
  pose proof (Z.mod_pos_bound x (2 ^ 8)). lia.
Qed.

Lemma to_be_bytes_bytes n x : Forall is_byte (to_be_bytes n x).
Proof.
  induction n as [|n IH] in x |- *; simpl; [constructor|].
  apply Forall_app. split; [apply IH|]. constructor; [apply land_255_byte|constructor].
Qed.

Lemma from_be_bytes_app l1 l2 :
  from_be_bytes (l1 ++ l2) = fold_left (fun acc b => Z.lor (Z.shiftl acc 8) b) l2 (from_be_bytes l1).
Proof. unfold from_be_bytes. apply fold_left_app. Qed.

Lemma from_be_bytes_snoc l b :
  from_be_bytes (l ++ [b]) = Z.lor (Z.shiftl (from_be_bytes l) 8) b.
Proof. rewrite from_be_bytes_app. reflexivity. Qed.

(** Appending one byte: [x * 256 + b] for a byte [b]. *)
Lemma shiftl_lor_byte y b : is_byte b -> Z.lor (Z.shiftl y 8) b = y * 256 + b.
Proof.
  intros Hb. unfold is_byte in Hb.
  assert (Hlog : b = 0 \/ Z.log2 b < 8).
  { destruct (Z.eq_dec b 0) as [->|]; [by left|right]. apply Z.log2_lt_pow2; lia. }
  assert (Hdis : Z.land (y * 2 ^ 8) b = 0).
  { apply Z.bits_inj'. intros i Hi. rewrite Z.land_spec, Z.bits_0.
    destruct (Z.lt_ge_cases i 8).
    - rewrite Z.mul_pow2_bits_low by lia. done.
    - destruct Hlog as [->|Hlog]; [rewrite Z.bits_0; apply andb_false_r|].
      rewrite (Z.bits_above_log2 b i); [apply andb_false_r|lia|lia]. }
  rewrite Z.shiftl_mul_pow2 by lia.
  rewrite <- Z.lxor_lor, <- Z.add_nocarry_lxor by exact Hdis. reflexivity.
Qed.

(** Round trip: reading back [n] big-endian bytes gives [x mod 2^(8n)]. *)
Lemma from_to_be_bytes n x :
  from_be_bytes (to_be_bytes n x) = x mod 2 ^ (8 * Z.of_nat n).
Proof.
  induction n as [|n IH] in x |- *; [simpl; symmetry; apply Z.mod_1_r|].
  cbn [to_be_bytes]. rewrite from_be_bytes_snoc, IH, shiftl_lor_byte by apply land_255_byte.
  change 255 with (Z.ones 8). rewrite Z.land_ones by lia.
  rewrite Z.shiftr_div_pow2 by lia.
  replace (8 * Z.of_nat (S n)) with (8 + 8 * Z.of_nat n) by lia.
  rewrite Z.pow_add_r by lia. change (2 ^ 8) with 256.
  rewrite Z.rem_mul_r by (try lia; apply Z.pow_pos_nonneg; lia).
  ring.
Qed.

(** Bound: [n] bytes read back are below [2^(8n)]. *)
Lemma from_be_bytes_bound l :
  Forall is_byte l -> 0 <= from_be_bytes l < 2 ^ (8 * Z.of_nat (length l)).
Proof.
  induction l as [|b l IH] using rev_ind; intros Hl; [cbv; split; congruence|].
  apply Forall_app in Hl as [Hl Hb]. apply Forall_cons in Hb as [Hb _].
  rewrite from_be_bytes_snoc, shiftl_lor_byte by done.
  rewrite length_app. simpl length.
  replace (8 * Z.of_nat (length l + 1)) with (8 * Z.of_nat (length l) + 8) by lia.
  rewrite Z.pow_add_r by lia. specialize (IH Hl). unfold is_byte in Hb. nia.
Qed.

(** The other round trip: a byte string of length [n] is re-encoded
    to itself. *)
Lemma to_from_be_bytes l :
  Forall is_byte l -> to_be_bytes (length l) (from_be_bytes l) = l.
Proof.
  induction l as [|b l IH] using rev_ind; intros Hl; [done|].
  apply Forall_app in Hl as [Hl Hb]. apply Forall_cons in Hb as [Hb _].
  rewrite length_app, Nat.add_comm. simpl length. cbn [Nat.add to_be_bytes].
  rewrite from_be_bytes_snoc, shiftl_lor_byte by done.
  pose proof (from_be_bytes_bound l Hl). unfold is_byte in Hb.
  assert (E1 : Z.shiftr (from_be_bytes l * 256 + b) 8 = from_be_bytes l).
  { rewrite Z.shiftr_div_pow2 by lia. change (2 ^ 8) with 256.
    rewrite Z.div_add_l by lia. rewrite Z.div_small by lia. lia. }
  assert (E2 : Z.land (from_be_bytes l * 256 + b) 255 = b).
  { change 255 with (Z.ones 8). rewrite Z.land_ones by lia.
    change (2 ^ 8) with 256. rewrite Z.add_comm, Z.mod_add by lia. apply Z.mod_small. lia. }
  rewrite E1, E2, IH by done. reflexivity.
Qed.

(** Equal encodings of values in range are equal values. *)
Lemma to_be_bytes_inj n x y :
  0 <= x < 2 ^ (8 * Z.of_nat n) -> 0 <= y < 2 ^ (8 * Z.of_nat n) ->
  to_be_bytes n x = to_be_bytes n y -> x = y.
Proof.
  intros Hx Hy E. apply (f_equal from_be_bytes) in E.
  rewrite !from_to_be_bytes, !Z.mod_small in E; done.
Qed.

Lemma xor_prefix_length a b : length (xor_prefix a b) = length a.
Proof. induction a as [|x a IH] in b |- *; destruct b; simpl; auto. Qed.

(** XOR-ing the same mask twice restores the string. *)
Lemma xor_prefix_involutive a b :
  (length b <= length a)%nat -> xor_prefix (xor_prefix a b) b = a.
Proof.
  induction a as [|x a IH] in b |- *; destruct b as [|y b]; simpl; intros Hl; try done.
  - rewrite Z.lxor_assoc, Z.lxor_nilpotent, Z.lxor_0_r, IH; [done|lia].
Qed.

End Bytes.

#[export] Hint Resolve length_to_be_bytes to_be_bytes_bytes land_255_byte : votechain.
#[export] Hint Rewrite length_to_be_bytes xor_prefix_length from_to_be_bytes : votechain_rw.

Section Results.

Lemma res_bind_ok {A B E} (r : res A E) (k : A -> res B E) b :
  res_bind r k = Ok b <-> exists a, r = Ok a /\ k a = Ok b.
Proof.
  destruct r as [a|e|]; simpl; split; try done.
  - eauto.
  - intros (?&[= ->]&?). done.
  - intros (?&?&?). done.
  - intros (?&?&?). done.
Qed.

End Results.

Section Lists.
Context {A : Type}.

(** [Vec::split_off(at)]: the prefix stays, the suffix is returned. *)
Definition split_off (l : list A) (at_ : nat) : list A * list A :=
  (take at_ l, drop at_ l).

Lemma split_off_app (l : list A) at_ :
  (split_off l at_).1 ++ (split_off l at_).2 = l.
Proof. apply take_drop. Qed.

(** [slice.windows(2)]: the list of adjacent pairs. *)
Fixpoint windows2 (l : list A) : list (A * A) :=
  match l with
  | x :: (y :: _) as l' => (x, y) :: windows2 l'
  | _ => []
  end.

Lemma windows2_lookup (l : list A) i x y :
  windows2 l !! i = Some (x, y) <-> l !! i = Some x /\ l !! S i = Some y.
Proof.
  induction l as [|a l IH] in i |- *; [simpl; split; [done|intros []; done]|].
  destruct l as [|b l]; destruct i; simpl; try (split; [done|intros []; done]).
  - split; [intros [= -> ->]|intros [[= ->] [= ->]]]; done.
  - apply IH.
Qed.

End Lists.

Section Choose.
Context {A : Type}.

(** [SliceRandom::choose]: [None] on an empty slice, otherwise the
    element at the random draw [r] taken modulo the length. *)
Definition choose (l : list A) (r : nat) : option A :=
  match l with [] => None | _ => l !! (r mod length l)%nat end.

Lemma choose_Some (l : list A) r x : choose l r = Some x -> x ∈ l.
Proof. destruct l as [|y l]; [done|]. intros Hx. by eapply list_elem_of_lookup_2. Qed.

Lemma choose_None (l : list A) r : choose l r = None <-> l = [].
Proof.
  destruct l as [|y l]; [done|]. unfold choose. split; [|done]. intros Hn.
  apply lookup_ge_None_1 in Hn. pose proof (Nat.mod_upper_bound r (length (y :: l))). simpl in *. lia.
Qed.

End Choose.

Section Reachability.
Context {A : Type} (R : relation A) (I : A -> Prop).

(** An invariant of every step holds in every state reachable by
    steps: the rule induction the state machines of the development
    share. *)
Lemma rtc_preserve x y :
  (forall s s', I s -> R s s' -> I s') -> I x -> rtc R x y -> I y.
Proof. intros Hstep Hx Hr. induction Hr as [|s s' s'' Hs _ IH]; [done|]. apply IH, (Hstep s); done. Qed.

End Reachability.

Section Maps.
Context {K V : Type} `{Countable K}.

Lemma insert_same (m : gmap K V) k v : m !! k = Some v -> <[k:=v]> m = m.
Proof. apply insert_id. Qed.

(** The sum over the entries of a map of an integer per entry. *)
Definition msum {A} (f : K -> A -> Z) (m : gmap K A) : Z :=
  map_fold (fun k a acc => f k a + acc) 0 m.

Lemma msum_empty {A} (f : K -> A -> Z) : msum f ∅ = 0.
Proof. apply map_fold_empty. Qed.

Lemma msum_insert {A} (f : K -> A -> Z) m i x :
  m !! i = None -> msum f (<[i:=x]> m) = f i x + msum f m.
Proof. intros Hi. unfold msum. rewrite map_fold_insert_L; [done|intros; lia|done]. Qed.

Lemma lookup_insert_fresh {A} (m : gmap K A) i x k a :
  m !! i = None -> m !! k = Some a -> <[i:=x]> m !! k = Some a.
Proof. intros Hi Hk. rewrite lookup_insert_ne; [done|]. intros ->. congruence. Qed.

Lemma msum_le {A} (f g : K -> A -> Z) m :
  (forall k a, m !! k = Some a -> f k a <= g k a) -> msum f m <= msum g m.
Proof.
  induction m as [|i x m Hi IH] using map_ind; intros Hfg; [rewrite !msum_empty; lia|].
  rewrite !msum_insert by done. pose proof (Hfg i x (lookup_insert_eq _ _ _)).
  enough (msum f m <= msum g m) by lia.
  apply IH. intros k a Hk. apply Hfg, lookup_insert_fresh; done.
Qed.

Lemma msum_ext {A} (f g : K -> A -> Z) m :
  (forall k a, m !! k = Some a -> f k a = g k a) -> msum f m = msum g m.
Proof. intros Hfg. apply Z.le_antisymm; apply msum_le; intros k a Hk; rewrite (Hfg k a Hk); lia. Qed.

Lemma msum_nonneg {A} (f : K -> A -> Z) m :
  (forall k a, m !! k = Some a -> 0 <= f k a) -> 0 <= msum f m.
Proof.
  induction m as [|i x m Hi IH] using map_ind; intros Hf; [rewrite msum_empty; lia|].
  rewrite msum_insert by done. pose proof (Hf i x (lookup_insert_eq _ _ _)).
  enough (0 <= msum f m) by lia. apply IH. intros k a Hk. apply Hf, lookup_insert_fresh; done.
Qed.

Lemma msum_mod {A} (f : K -> A -> Z) m n :
  n <> 0 -> msum (fun k a => f k a mod n) m mod n = msum f m mod n.
Proof.
  intros Hn. induction m as [|i x m Hi IH] using map_ind; [rewrite !msum_empty; done|].
  rewrite !msum_insert by done.
  rewrite Zplus_mod_idemp_l, <- Zplus_mod_idemp_r, IH, Zplus_mod_idemp_r. done.
Qed.

Lemma msum_imap {A B} (f : K -> B -> Z) (h : K -> A -> B) (m : gmap K A) :
  msum f (map_imap (fun k a => Some (h k a)) m) = msum (fun k a => f k (h k a)) m.
Proof.
  induction m as [|i x m Hi IH] using map_ind; [rewrite map_imap_empty, !msum_empty; done|].
  rewrite map_imap_insert_Some with (y := h i x) by done.
  rewrite !msum_insert, IH; [done|done|]. rewrite map_lookup_imap, Hi. done.
Qed.

(** A sum that only looks at the keys depends only on the domain. *)
Lemma msum_dom {A B} (g : K -> Z) (m1 : gmap K A) (m2 : gmap K B) :
  dom m1 = dom m2 -> msum (fun k _ => g k) m1 = msum (fun k _ => g k) m2.
Proof.
  revert m2. induction m1 as [|i x m1 Hi IH] using map_ind; intros m2 Hd.
  - rewrite dom_empty_L in Hd. symmetry in Hd. apply dom_empty_inv_L in Hd as ->.
    rewrite !msum_empty. done.
  - assert (is_Some (m2 !! i)) as [y Hy] by (apply elem_of_dom; rewrite <- Hd, dom_insert_L; set_solver).
    rewrite <- (insert_delete_id m2 i y Hy), !msum_insert by (rewrite ?lookup_delete_eq; done).
    rewrite (IH (delete i m2)); [done|]. rewrite dom_delete_L, <- Hd, dom_insert_L.
    apply not_elem_of_dom in Hi. set_solver.
Qed.

Lemma msum_to_list {A} (f : K -> A -> Z) (m : gmap K A) :
  msum f m = foldr Z.add 0 ((fun '(k, a) => f k a) <$> map_to_list m).
Proof.
  unfold msum. rewrite map_fold_foldr. induction (map_to_list m) as [|[k a] l IH]; simpl; [done|].
  rewrite IH. done.
Qed.

End Maps.
