(* ===== verification/Crypto.v ===== *)
(** * Crypto: the primitives the code calls, and the ballot codec

    The node calls blake3, ed25519-dalek, the paillier crate and
    bincode as libraries; they are not part of the repository, so they
    are interfaces here (type classes), with the laws the code relies
    on.  The ballot codec of [src/lib/src/lib.rs] ([Ballot],
    [encode_verdict], [Ballot::new], [validate_proofs], [weight],
    [sum], [Signed]) is modelled from the source on top of them.

    [Module Toy] gives small concrete instances satisfying the laws;
    they are only used to evaluate the witnesses of the theorems. *)

From S2P Require Import Prelude.

(** ** Interfaces *)

(** [blake3::Hasher]: [update] several times then [finalize] digests
    the concatenation of the updates. *)
Class Blake3 := { blake3 : list Z -> list Z }.

(** ed25519-dalek: a signing key (its seed, as a number), the verifying
    key derived from it, deterministic signing of a byte string, and
    verification.  The one law is that honest signatures verify. *)
Class Ed25519 := {
  verifying_key : Z -> Z;
  sign : Z -> list Z -> list Z;
  verify : Z -> list Z -> list Z -> bool;
  verify_sign : forall sk m, verify (verifying_key sk) m (sign sk m) = true
}.

(** The paillier crate, for the trustee key pair [(ek, dk)] of the
    issue (fixed for the process, spec section 5): ciphertexts,
    encryption with chosen randomness, homomorphic addition and
    multiplication by a plaintext, decryption modulo [n]; and the
    zk-paillier range proof [RangeProofNi::prove]. *)
Class Paillier := {
  ciphertext : Type;
  range_proof : Type;
  modulus : Z;
  modulus_gt_1 : 1 < modulus;
  encrypt_with_chosen_randomness : Z -> Z -> ciphertext;
  add : ciphertext -> ciphertext -> ciphertext;
  mul : ciphertext -> Z -> ciphertext;
  decrypt : ciphertext -> Z;
  range_prove : Z -> ciphertext -> Z -> Z -> range_proof;
  decrypt_encrypt : forall m r, decrypt (encrypt_with_chosen_randomness m r) = m mod modulus;
  decrypt_add : forall c1 c2, decrypt (add c1 c2) = (decrypt c1 + decrypt c2) mod modulus;
  decrypt_mul : forall c k, decrypt (mul c k) = (decrypt c * k) mod modulus
}.

(** [bincode::serialize]: a deterministic encoding of a value. *)
Class Serialize (T : Type) := serialize : T -> list Z.

(** [bincode::deserialize]: [None] is its [Err]. *)
Class Deserialize (T : Type) := deserialize : list Z -> option T.

(** The one law the code relies on: decoding an encoding gives the value
    back. *)
Class SerdeRoundtrip (T : Type) `{Serialize T} `{Deserialize T} :=
  deserialize_serialize : forall x, deserialize (serialize x) = Some x.

(** ** The ballot codec (lib.rs) *)

Section BallotCodec.
Context `{Paillier}.

(** [struct Ballot]; [timestamp] is the [OffsetDateTime] as a number. *)
Record Ballot := mkBallot {
  timestamp : Z;
  issue_id : string;
  vote_for : ciphertext;
  vote_against : ciphertext;
  proof_for : range_proof;
  proof_against : range_proof
}.

(** [Ballot::encode_verdict]: [r] is the [OsRng.next_u64()] draw. *)
Definition encode_verdict (verdict : Z) (r : Z) : ciphertext * range_proof :=
  let s := verdict in
  let c := encrypt_with_chosen_randomness s r in
  (c, range_prove 3 c s r).

(** [Ballot::new]: [now] is [OffsetDateTime::now_utc()], [r_for] and
    [r_against] the two randomness draws, in call order. *)
Definition Ballot_new (verdict : bool) (issue : string) (now r_for r_against : Z) : Ballot :=
  let (vf, pf) := encode_verdict (if verdict then 1 else 0) r_for in
  let (va, pa) := encode_verdict (if verdict then 0 else 1) r_against in
  {| timestamp := now; issue_id := issue; vote_for := vf; proof_for := pf;
     vote_against := va; proof_against := pa |}.

(** [validate_proofs]: the verification calls are commented out in the
    source; the function returns [true]. *)
Definition validate_proofs (b : Ballot) : bool := true.

(** [weight]: both ciphertexts are multiplied by the plaintext weight. *)
Definition weight (b : Ballot) (w : Z) : Ballot :=
  {| timestamp := timestamp b; issue_id := issue_id b;
     vote_for := mul (vote_for b) w; vote_against := mul (vote_against b) w;
     proof_for := proof_for b; proof_against := proof_against b |}.

(** [sum]: add this ballot to the two accumulators. *)
Definition sum (b : Ballot) (agg_for agg_against : ciphertext) : ciphertext * ciphertext :=
  (add agg_for (vote_for b), add agg_against (vote_against b)).

(** A ballot is well formed when its two plaintexts are [0]/[1] and add
    up to one (spec section 3). *)
Definition ballot_wf (b : Ballot) : Prop :=
  (decrypt (vote_for b) = 0 \/ decrypt (vote_for b) = 1) /\
  decrypt (vote_for b) + decrypt (vote_against b) = 1.

(** The plaintext a ballot adds to the "for" total and to the
    "against" total. *)
Definition plain_for (b : Ballot) : Z := decrypt (vote_for b).
Definition plain_against (b : Ballot) : Z := decrypt (vote_against b).

End BallotCodec.

Arguments Ballot {_}.

(** ** Signed envelopes (lib.rs [Signed<T>]) *)

Section SignedEnvelope.
Context `{Ed25519}.

Record Signed (T : Type) := mkSigned {
  signature : list Z;
  signer : Z;
  data : T
}.
Arguments signature {T}.
Arguments signer {T}.
Arguments data {T}.

(** [Signed::new]: sign the bincode encoding of the payload. *)
Definition Signed_new {T} `{Serialize T} (sk : Z) (x : T) : Signed T :=
  {| signature := sign sk (serialize x); signer := verifying_key sk; data := x |}.

(** [Signed::signature_valid]: verify with the embedded key. *)
Definition signature_valid {T} `{Serialize T} (s : Signed T) : bool :=
  verify (signer s) (serialize (data s)) (signature s).

End SignedEnvelope.

Arguments signature {T}.
Arguments signer {T}.
Arguments data {T}.

(** ** Laws of the codec *)

Section CodecLaws.
Context `{Paillier}.

Lemma mod_small_1 : 1 mod modulus = 1.
Proof. pose proof modulus_gt_1. apply Z.mod_small. lia. Qed.

Lemma mod_small_0 : 0 mod modulus = 0.
Proof. apply Z.mod_0_l. pose proof modulus_gt_1. lia. Qed.

Lemma decrypt_encode_verdict v r : decrypt (encode_verdict v r).1 = v mod modulus.
Proof. apply decrypt_encrypt. Qed.

Lemma plain_for_weight b w : plain_for (weight b w) = (plain_for b * w) mod modulus.
Proof. apply decrypt_mul. Qed.

Lemma plain_against_weight b w : plain_against (weight b w) = (plain_against b * w) mod modulus.
Proof. apply decrypt_mul. Qed.

Lemma decrypt_sum_for b a1 a2 :
  decrypt (sum b a1 a2).1 = (decrypt a1 + plain_for b) mod modulus.
Proof. apply decrypt_add. Qed.

Lemma decrypt_sum_against b a1 a2 :
  decrypt (sum b a1 a2).2 = (decrypt a2 + plain_against b) mod modulus.
Proof. apply decrypt_add. Qed.

(** [Ballot::new] builds a well-formed ballot whose "for"
    plaintext is one exactly when the verdict is yes. *)
Lemma Ballot_new_plaintexts verdict issue now r1 r2 :
  plain_for (Ballot_new verdict issue now r1 r2) = (if verdict then 1 else 0) /\
  plain_against (Ballot_new verdict issue now r1 r2) = (if verdict then 0 else 1).
Proof.
  unfold Ballot_new, plain_for, plain_against. simpl.
  rewrite !decrypt_encrypt. destruct verdict; rewrite ?mod_small_0, ?mod_small_1; done.
Qed.

End CodecLaws.

#[export] Hint Rewrite @plain_for_weight @plain_against_weight
  @decrypt_sum_for @decrypt_sum_against : votechain_rw.

(** ** Concrete instances for evaluating witnesses *)

Module Toy.

(** The identity digest: injective, so hash equality is content equality. *)
#[export] Instance toy_blake3 : Blake3 := {| blake3 := fun l => l |}.

(** A toy signature scheme: the signature is the key-dependent checksum
    byte followed by the message; it verifies by recomputation. *)
Definition toy_sig (sk : Z) (m : list Z) : list Z :=
  Z.land (sk + fold_left Z.add m 0) 255 :: 0 :: m.

Lemma toy_verify_sign sk m : bool_decide (toy_sig sk m = toy_sig sk m) = true.
Proof. apply bool_decide_eq_true_2. reflexivity. Qed.

#[export] Instance toy_ed25519 : Ed25519 := {|
  verifying_key := fun sk => sk;
  sign := toy_sig;
  verify := fun vk m s => bool_decide (s = toy_sig vk m);
  verify_sign := toy_verify_sign
|}.

(** Plaintexts modulo [2^64] as their own ciphertexts. *)
Definition toy_n : Z := 18446744073709551616.

Lemma toy_n_gt_1 : 1 < toy_n.
Proof. unfold toy_n. lia. Qed.

Lemma toy_decrypt_encrypt (m r : Z) : (m mod toy_n) mod toy_n = m mod toy_n.
Proof. apply Z.mod_mod. unfold toy_n. lia. Qed.

Lemma toy_decrypt_add (c1 c2 : Z) :
  ((c1 + c2) mod toy_n) mod toy_n = (c1 mod toy_n + c2 mod toy_n) mod toy_n.
Proof. rewrite Z.mod_mod by (unfold toy_n; lia). apply Z.add_mod. unfold toy_n. lia. Qed.

Lemma toy_decrypt_mul (c k : Z) : ((c * k) mod toy_n) mod toy_n = (c mod toy_n * k) mod toy_n.
Proof. rewrite Z.mod_mod by (unfold toy_n; lia). symmetry. apply Z.mul_mod_idemp_l. unfold toy_n. lia. Qed.

#[export] Instance toy_paillier : Paillier := {|
  ciphertext := Z;
  range_proof := unit;
  modulus := toy_n;
  modulus_gt_1 := toy_n_gt_1;
  encrypt_with_chosen_randomness := fun m _ => m mod toy_n;
  add := fun a b => (a + b) mod toy_n;
  mul := fun c k => (c * k) mod toy_n;
  decrypt := fun c => c mod toy_n;
  range_prove := fun _ _ _ _ => tt;
  decrypt_encrypt := toy_decrypt_encrypt;
  decrypt_add := toy_decrypt_add;
  decrypt_mul := toy_decrypt_mul
|}.

(** Strings as their character codes. *)
Definition toy_string_bytes (str : string) : list Z :=
  map (fun a => Z.of_nat (Ascii.nat_of_ascii a)) (String.list_ascii_of_string str).

Definition toy_string_of_bytes (l : list Z) : string :=
  String.string_of_list_ascii (map (fun z => Ascii.ascii_of_nat (Z.to_nat z)) l).

Lemma toy_string_roundtrip str : toy_string_of_bytes (toy_string_bytes str) = str.
Proof.
  unfold toy_string_of_bytes, toy_string_bytes. rewrite map_map.
  erewrite map_ext; [|intros a; rewrite Nat2Z.id, Ascii.ascii_nat_embedding; reflexivity].
  rewrite map_id. apply String.string_of_list_ascii_of_string.
Qed.

(** A ballot as its timestamp, its two ciphertexts and its issue. *)
#[export] Instance toy_serialize_ballot : Serialize (@Ballot toy_paillier) :=
  fun b => timestamp b :: vote_for b :: vote_against b :: toy_string_bytes (issue_id b).

#[export] Instance toy_deserialize_ballot : Deserialize (@Ballot toy_paillier) :=
  fun l => match l with
           | t :: vf :: va :: str => Some (mkBallot t (toy_string_of_bytes str) vf va tt tt)
           | _ => None
           end.

(** A signed ballot as the length-prefixed signature, the signer and
    the payload, as bincode lays out a struct with a [Vec] field. *)
#[export] Instance toy_serialize_signed : Serialize (Signed (@Ballot toy_paillier)) :=
  fun s => Z.of_nat (length (signature s)) :: signature s ++ signer s :: serialize (data s).

#[export] Instance toy_deserialize_signed : Deserialize (Signed (@Ballot toy_paillier)) :=
  fun l => match l with
           | n :: rest =>
               match drop (Z.to_nat n) rest with
               | k :: payload => b ← deserialize payload; Some (mkSigned _ (take (Z.to_nat n) rest) k b)
               | [] => None
               end
           | [] => None
           end.

#[export] Instance toy_serde_signed : SerdeRoundtrip (Signed (@Ballot toy_paillier)).
Proof.
  intros [sig k [t issue vf va [] []]]. unfold deserialize, toy_deserialize_signed, serialize, toy_serialize_signed.
  simpl. rewrite Nat2Z.id, drop_app_length, take_app_length. simpl. by rewrite toy_string_roundtrip.
Qed.

End Toy.
