(* ===== verification/Block.v ===== *)
(** * Block: blocks, their hash and the proof of work (block.rs, errors.rs)

    [Module Block] models [src/node/src/votechain/block.rs]: the block
    record, its content hash, the validity check against a predecessor,
    the signature-based proof of work, and the three constructors.  The
    error enum of [errors.rs] is [Error].  The proof-of-work loop draws
    random nonces forever; here it consumes an explicit nonce stream and
    returns [None] when no nonce of the stream is accepted. *)

From S2P Require Import Prelude Crypto.

(** [enum Error] of errors.rs; the wrapped heed and io errors are not
    modelled (storage never fails in this model). *)
Inductive Error :=
| Heed
| Io
| BlockNotFound (index : Z)
| InvalidNewBlock.

#[export] Instance Error_eq_dec : EqDecision Error.
Proof. solve_decision. Defined.

Module Block.

Section BlockModel.
Context `{Blake3} `{Ed25519} `{Paillier} `{Serialize (Signed Ballot)}.

(** [enum BlockData]. *)
Inductive BlockData :=
| Genesis (s : string)
| Ballots (bs : list (Signed Ballot))
| Seal (s : string).

(** [struct Block]: [timestamp] is the [u128] of milliseconds,
    [previous_hash] the 32 digest bytes, [signatory] the verifying key,
    [signature] the signature bytes, [nonce] the 8 nonce bytes. *)
Record Block := mkBlock {
  timestamp : Z;
  previous_hash : list Z;
  signatory : Z;
  signature : list Z;
  data : BlockData;
  nonce : list Z
}.

(** The bytes given to the hasher: the big-endian [u128] timestamp,
    the previous hash and, for a ballots block, the bincode encoding of
    each ballot.  Signatory, signature and nonce are not hashed. *)
Definition hash_input (b : Block) : list Z :=
  to_be_bytes 16 (timestamp b) ++ previous_hash b ++
  match data b with
  | Ballots ballots => concat (map serialize ballots)
  | _ => []
  end.

(** [Block::hash]. *)
Definition hash (b : Block) : list Z := blake3 (hash_input b).

(** [Block::is_valid]: only the hash link is checked. *)
Definition is_valid (self prev : Block) : bool :=
  if decide (previous_hash self <> hash prev) then false else true.

(** The acceptance test of the loop: [bytes[0] == 0 && bytes[1] & 240 == 0]. *)
Definition pow_accepts (sig : list Z) : bool :=
  match sig with
  | b0 :: b1 :: _ => (b0 =? 0) && (Z.land b1 240 =? 0)
  | _ => false
  end.

(** [Block::proof_of_work]: for each drawn nonce, XOR it into the first
    eight bytes of the hash, sign, and stop at the first accepted
    signature. *)
Fixpoint proof_of_work (sk : Z) (h : list Z) (nonces : list (list Z)) : option (list Z * list Z) :=
  match nonces with
  | [] => None
  | n :: rest =>
      let adjusted_hash := xor_prefix h n in
      let sig := sign sk adjusted_hash in
      if pow_accepts sig then Some (n, sig) else proof_of_work sk h rest
  end.

(** [Block::new]: [now] is the wall clock in milliseconds.  The
    [timestamp < prev.timestamp] branch of the source is empty, so the
    result is always [Ok] once the proof of work stops. *)
Definition new (sk : Z) (prev : Block) (ballots : list (Signed Ballot))
    (now : Z) (nonces : list (list Z)) : option (res Block Error) :=
  let previous_hash := hash prev in
  match proof_of_work sk previous_hash nonces with
  | None => None
  | Some (n, sig) =>
      Some (Ok {| timestamp := now; previous_hash := previous_hash;
                  signatory := verifying_key sk; signature := sig;
                  data := Ballots ballots; nonce := n |})
  end.

(** [Block::seal]. *)
Definition seal (sk : Z) (prev : Block) (now : Z) (nonces : list (list Z)) : option Block :=
  let previous_hash := hash prev in
  match proof_of_work sk previous_hash nonces with
  | None => None
  | Some (n, sig) =>
      Some {| timestamp := now; previous_hash := previous_hash;
              signatory := verifying_key sk; signature := sig;
              data := Seal ""; nonce := n |}
  end.

(** [Block::genesis]: [sk] is the key read from
    [./temp/identities/default.der]. *)
Definition genesis (sk : Z) (nonces : list (list Z)) : option Block :=
  let previous_hash := repeat 0 32 in
  match proof_of_work sk previous_hash nonces with
  | None => None
  | Some (n, sig) =>
      Some {| timestamp := 0; previous_hash := previous_hash;
              signatory := verifying_key sk; signature := sig;
              data := Genesis ""; nonce := n |}
  end.

(** [Block::get_ballots]. *)
Definition get_ballots (b : Block) : option (list (Signed Ballot)) :=
  match data b with
  | Ballots ballots => Some ballots
  | _ => None
  end.

(** The ballots of a block, empty for genesis and seal blocks. *)
Definition ballots_of (b : Block) : list (Signed Ballot) :=
  match get_ballots b with Some bs => bs | None => [] end.

(** ** Laws of blocks *)

Lemma is_valid_true (self prev : Block) :
  is_valid self prev = true <-> previous_hash self = hash prev.
Proof. unfold is_valid. case_decide; split; intros; try done; tauto. Qed.

(** The second signature byte passes the mask [240] exactly when it is
    below [16], checked over all 256 byte values. *)
Lemma land_240_table :
  forallb (fun b => Bool.eqb (Z.land b 240 =? 0) (b <? 16)) (seqZ 0 256) = true.
Proof. vm_compute. reflexivity. Qed.

Lemma land_240_byte b : is_byte b -> (Z.land b 240 =? 0) = (b <? 16).
Proof.
  intros Hb. pose proof land_240_table as T. rewrite forallb_forall in T.
  apply Bool.eqb_prop, T. apply list_elem_of_In, elem_of_seqZ. unfold is_byte in Hb. lia.
Qed.

(** C40: the acceptance test of the proof of work asks the first twelve
    bits of the signature to be zero: with [b0], [b1] the first two
    signature bytes, it holds iff [b0 * 256 + b1 < 16] (not "the first
    4 bits", as the source comment says). *)
Theorem pow_accepts_12_bits b0 b1 rest :
  is_byte b0 -> is_byte b1 ->
  pow_accepts (b0 :: b1 :: rest) = true <-> b0 * 256 + b1 < 16.
Proof.
  intros Hb0 Hb1. simpl. rewrite land_240_byte by done.
  unfold is_byte in *. rewrite andb_true_iff, Z.eqb_eq, Z.ltb_lt. lia.
Qed.

(** The proof-of-work loop returns a nonce of the stream together
    with the node's signature of the hash masked by that nonce, and the
    signature passes the acceptance test. *)
Theorem proof_of_work_sound sk h nonces n sig :
  proof_of_work sk h nonces = Some (n, sig) ->
  n ∈ nonces /\ sig = sign sk (xor_prefix h n) /\ pow_accepts sig = true.
Proof.
  induction nonces as [|m ns IH]; simpl; [done|].
  destruct (pow_accepts (sign sk (xor_prefix h m))) eqn:E.
  - intros [= <- <-]. split; [left|]; done.
  - intros Hp. destruct (IH Hp) as (?&?&?). split; [right|]; done.
Qed.

(** When the proof-of-work loop stops within a nonce stream. *)
Lemma proof_of_work_stops sk h nonces :
  is_Some (proof_of_work sk h nonces) <->
  Exists (fun n => pow_accepts (sign sk (xor_prefix h n)) = true) nonces.
Proof.
  induction nonces as [|m ns IH]; simpl.
  - split; [intros []; done|intros Hx; inversion Hx].
  - rewrite Exists_cons, <- IH.
    destruct (pow_accepts (sign sk (xor_prefix h m))); split; intros Hx; try done; auto.
    destruct Hx; done.
Qed.

(** C39: the proof-of-work loop stops within a nonce stream exactly
    when some nonce of the stream gives an accepted signature. *)
Theorem proof_of_work_terminates sk h nonces :
  is_Some (proof_of_work sk h nonces) <->
  Exists (fun n => pow_accepts (sign sk (xor_prefix h n)) = true) nonces.
Proof. apply proof_of_work_stops. Qed.

(** The outcomes of [Block::new]: the proof-of-work loop did not stop
    within the stream, or a block linked to [prev] (the [Err] arm of
    its [Result] is never built). *)
Lemma new_cases sk prev ballots now nonces :
  match new sk prev ballots now nonces with
  | Some (Ok b) => is_valid b prev = true /\ data b = Ballots ballots /\ timestamp b = now
  | Some _ => False
  | None => proof_of_work sk (hash prev) nonces = None
  end.
Proof.
  unfold new. destruct (proof_of_work _ _ _) as [[n sig]|] eqn:E; [|done].
  rewrite is_valid_true. done.
Qed.

(** Every block built by [Block::new] links to the block it was
    built on, carries the given ballots and the given timestamp. *)
Theorem new_is_valid sk prev ballots now nonces b :
  new sk prev ballots now nonces = Some (Ok b) ->
  is_valid b prev = true /\ data b = Ballots ballots /\ timestamp b = now.
Proof.
  unfold new. destruct (proof_of_work _ _ _) as [[n sig]|]; [|done].
  intros [= <-]. rewrite is_valid_true. done.
Qed.

(** The genesis hash does not depend on the genesis key nor on the
    nonce: every node computes the same genesis hash (the digest of a
    zero timestamp and a zero previous hash). *)
Theorem genesis_hash_deterministic sk nonces g :
  genesis sk nonces = Some g -> hash g = blake3 (to_be_bytes 16 0 ++ repeat 0 32).
Proof.
  unfold genesis. destruct (proof_of_work _ _ _) as [[n sig]|]; [|done].
  intros [= <-]. unfold hash, hash_input. simpl. rewrite ?app_nil_r. reflexivity.
Qed.

End BlockModel.

End Block.

(** ** Witnesses on concrete blocks *)

Module BlockExamples.
Import Toy Block.

Definition z8 : list Z := [0; 0; 0; 0; 0; 0; 0; 0].

(** A genesis-shaped block with an arbitrary signature. *)
Definition blk_G : Block :=
  mkBlock 0 (repeat 0 32) 0 [0; 0] (Genesis "") z8.

(** The block [Block::new] mines on [blk_G] with key [0] and nonce [z8]. *)
Definition blk_mined : Block :=
  mkBlock 5 (hash blk_G) 0 (toy_sig 0 (hash blk_G)) (Ballots []) z8.

Lemma pow_accepts_12_bits_witness :
  is_byte 0 /\ is_byte 15 /\ (pow_accepts [0; 15] = true <-> 0 * 256 + 15 < 16).
Proof.
  split; [unfold is_byte; lia|]. split; [unfold is_byte; lia|].
  apply (pow_accepts_12_bits 0 15 []); unfold is_byte; lia.
Defined.

Lemma proof_of_work_sound_witness :
  proof_of_work 0 (hash blk_G) [z8] = Some (z8, toy_sig 0 (hash blk_G)) /\
  z8 ∈ [z8] /\ toy_sig 0 (hash blk_G) = sign 0 (xor_prefix (hash blk_G) z8) /\
  pow_accepts (toy_sig 0 (hash blk_G)) = true.
Proof.
  split; [reflexivity|].
  apply (proof_of_work_sound 0 (hash blk_G) [z8] z8 (toy_sig 0 (hash blk_G))).
  reflexivity.
Defined.

Lemma new_is_valid_witness :
  new 0 blk_G [] 5 [z8] = Some (Ok blk_mined) /\
  is_valid blk_mined blk_G = true /\ data blk_mined = Ballots [] /\ timestamp blk_mined = 5.
Proof.
  split; [reflexivity|].
  apply (new_is_valid 0 blk_G [] 5 [z8] blk_mined). reflexivity.
Defined.

Lemma genesis_hash_deterministic_witness :
  genesis 0 [z8] = Some (mkBlock 0 (repeat 0 32) 0 (toy_sig 0 (repeat 0 32)) (Genesis "") z8) /\
  hash (mkBlock 0 (repeat 0 32) 0 (toy_sig 0 (repeat 0 32)) (Genesis "") z8) =
    blake3 (to_be_bytes 16 0 ++ repeat 0 32).
Proof.
  split; [reflexivity|].
  apply (genesis_hash_deterministic 0 [z8]). reflexivity.
Defined.

End BlockExamples.
