(* ===== verification/Chain.v ===== *)
(** * Chain: the chain store of chain.rs

    [Module Chain] models [src/node/src/votechain/chain.rs].  The
    [Blockchain] record holds the persisted LMDB map from index to block
    ([chain_db]), the in-memory map from block hash to index
    ([hash_indexes]), the height, the ballot pool and the node's signing
    key.  Each method is a function from the state to its result and the
    next state; a [Panic] result leaves the state as the panic found it.

    The invariant [chain_wf] says that blocks [1..height] are all stored
    and each links to its predecessor by hash.  The theorems give the
    behaviour of [append], [try_update_longest] (reorganisation) and
    [pool_ballot] on every branch, their preservation of [chain_wf], and
    the facts the modelling exposed: the pool loses the ballots of the
    old head on a reorganisation, [blocks] omits the head, and [append]
    does not update the hash index. *)

From S2P Require Import Prelude Crypto Block.

Module Chain.

Section ChainModel.
Context `{Blake3} `{Ed25519} `{Paillier} `{Serialize (Signed Ballot)}.

Abbreviation Block := Block.Block.

(** [const BLOCK_SIZE: usize = 2]. *)
Definition BLOCK_SIZE : nat := 2.

(** [struct Blockchain]; [chain_config] and [db_env] (the path and the
    LMDB handle) are not modelled, [metadata.height] is [height]. *)
Record Blockchain := mkChain {
  chain_db : gmap Z Block;
  hash_indexes : gmap (list Z) Z;
  height : Z;
  ballot_pool : list (Signed Ballot);
  signing_key : Z
}.

(** [get_block]. *)
Definition get_block (c : Blockchain) (index : Z) : res Block Error :=
  match chain_db c !! index with
  | Some block => Ok block
  | None => Err (BlockNotFound index)
  end.

(** [get_block_from_hash]. *)
Definition get_block_from_hash (c : Blockchain) (h : list Z) : res Block Error :=
  match hash_indexes c !! h with
  | Some index => get_block c index
  | None => Err (BlockNotFound 0)
  end.

(** [try_get_block]. *)
Definition try_get_block (c : Blockchain) (index : Z) : option Block :=
  match get_block c index with Ok b => Some b | _ => None end.

(** [get_height]. *)
Definition get_height (c : Blockchain) : Z := height c.

(** [get_hash_at]. *)
Definition get_hash_at (c : Blockchain) (index : Z) : res (list Z) Error :=
  let? b := get_block c index in Ok (Block.hash b).

(** The loop of [blocks_from] over a range of indices. *)
Fixpoint collect_blocks (c : Blockchain) (indices : list Z) : res (list Block) Error :=
  match indices with
  | [] => Ok []
  | index :: rest =>
      match chain_db c !! index with
      | Some block => let? bs := collect_blocks c rest in Ok (block :: bs)
      | None => Err (BlockNotFound index)
      end
  end.

(** [blocks_from]: the blocks [start_index..=height]. *)
Definition blocks_from (c : Blockchain) (start_index : Z) : res (list Block) Error :=
  collect_blocks c (seqZ start_index (height c + 1 - start_index)).

(** The state after writing [block] at index [height + 1]. *)
Definition with_appended (c : Blockchain) (block : Block) : Blockchain :=
  {| chain_db := <[height c + 1 := block]> (chain_db c);
     hash_indexes := hash_indexes c;
     height := height c + 1;
     ballot_pool := ballot_pool c;
     signing_key := signing_key c |}.

(** [append]: the hash index is left as it was. *)
Definition append (c : Blockchain) (block : Block) : res unit Error * Blockchain :=
  match get_block c (height c) with
  | Err e => (Err e, c)
  | Panic => (Panic, c)
  | Ok head_block =>
      if negb (Block.is_valid block head_block) then (Err InvalidNewBlock, c)
      else (Ok tt, with_appended c block)
  end.

(** [is_valid_chain]: every adjacent pair links by hash. *)
Definition is_valid_chain (blocks : list Block) : bool :=
  if decide (length blocks <= 1)%nat then true
  else forallb (fun pair => if decide (Block.hash pair.1 <> Block.previous_hash pair.2)
                            then false else true) (windows2 blocks).

(** One iteration of the stripping loop of [try_update_longest]: a
    stored block is deleted and its ballots pushed back to the pool. *)
Definition strip_step (st : gmap Z Block * list (Signed Ballot)) (index : Z)
    : gmap Z Block * list (Signed Ballot) :=
  match st.1 !! index with
  | Some block => (delete index st.1, st.2 ++ Block.ballots_of block)
  | None => st
  end.

(** The re-append loop of [try_update_longest]: returns the map and the
    index after the last written block. *)
Fixpoint write_blocks (db : gmap Z Block) (index : Z) (blocks : list Block) : gmap Z Block * Z :=
  match blocks with
  | [] => (db, index)
  | block :: rest => write_blocks (<[index := block]> db) (index + 1) rest
  end.

(** [try_update_longest]: [blocks[0]] panics on an empty vector; the
    first block must have the hash of the local block at [fork_index]
    and the blocks must form a valid chain.  The blocks
    [fork_index..height] (the head excluded) are stripped, the new ones
    written from [fork_index], and [index] (one past the new head)
    returned. *)
Definition try_update_longest (c : Blockchain) (fork_index : Z) (blocks : list Block)
    : res Z Error * Blockchain :=
  match blocks with
  | [] => (Panic, c)
  | first :: _ =>
      match get_block c fork_index with
      | Err e => (Err e, c)
      | Panic => (Panic, c)
      | Ok fork_block =>
          if bool_decide (Block.hash first <> Block.hash fork_block) || negb (is_valid_chain blocks)
          then (Err InvalidNewBlock, c)
          else
            let (db1, pool1) := fold_left strip_step (seqZ fork_index (height c - fork_index))
                                  (chain_db c, ballot_pool c) in
            let (db2, index) := write_blocks db1 fork_index blocks in
            (Ok index, {| chain_db := db2; hash_indexes := hash_indexes c;
                          height := index - 1; ballot_pool := pool1;
                          signing_key := signing_key c |})
      end
  end.

(** The state with its ballot pool replaced. *)
Definition with_pool (c : Blockchain) (pool : list (Signed Ballot)) : Blockchain :=
  {| chain_db := chain_db c; hash_indexes := hash_indexes c; height := height c;
     ballot_pool := pool; signing_key := signing_key c |}.

(** [pool_ballot]: [now] and [nonces] are the clock and the nonce stream
    of the [Block::new] call; [None] means the proof of work does not
    stop within [nonces].  The result of [append] is discarded. *)
Definition pool_ballot (c : Blockchain) (ballot : Signed Ballot) (now : Z)
    (nonces : list (list Z)) : option (res unit Error * Blockchain) :=
  let pool := ballot_pool c ++ [ballot] in
  let pool_size := length pool in
  if decide (BLOCK_SIZE <= pool_size)%nat then
    let (rest, block_ballots) := split_off pool (pool_size - BLOCK_SIZE) in
    let c1 := with_pool c rest in
    match get_block c1 (get_height c1) with
    | Err e => Some (Err e, c1)
    | Panic => Some (Panic, c1)
    | Ok prev =>
        match Block.new (signing_key c1) prev block_ballots now nonces with
        | None => None
        | Some (Err e) => Some (Err e, c1)
        | Some Panic => Some (Panic, c1)
        | Some (Ok block) => Some (Ok tt, (append c1 block).2)
        end
    end
  else
    Some (Ok tt, with_pool c pool).

(** The loop of [blocks]: [get_block(&index).unwrap()]. *)
Fixpoint unwrap_blocks (c : Blockchain) (indices : list Z) : res (list Block) Error :=
  match indices with
  | [] => Ok []
  | index :: rest =>
      match chain_db c !! index with
      | Some block => let? bs := unwrap_blocks c rest in Ok (block :: bs)
      | None => Panic
      end
  end.

(** [blocks]: the indices [1..height], the upper bound excluded. *)
Definition blocks (c : Blockchain) : res (list Block) Error :=
  unwrap_blocks c (seqZ 1 (height c - 1)).

(** [Blockchain::new] on the persisted map [db]: an empty store gets the
    genesis block of [genesis_key] at index 1; otherwise the hash index
    is rebuilt from every stored block and the height is the number of
    stored blocks. *)
Definition new (db : gmap Z Block) (sk genesis_key : Z) (nonces : list (list Z))
    : option Blockchain :=
  if decide (db = ∅) then
    match Block.genesis genesis_key nonces with
    | None => None
    | Some genesis =>
        Some {| chain_db := {[1 := genesis]}; hash_indexes := {[Block.hash genesis := 1]};
                height := 1; ballot_pool := []; signing_key := sk |}
    end
  else
    Some {| chain_db := db;
            hash_indexes := map_fold (fun index block m => <[Block.hash block := index]> m) ∅ db;
            height := Z.of_nat (size db); ballot_pool := []; signing_key := sk |}.

(** ** The chain invariant *)

(** Blocks [1..height] are stored and each links to its predecessor. *)
Record chain_wf (c : Blockchain) : Prop := {
  wf_height : 1 <= height c;
  wf_present : forall i, 1 <= i <= height c -> is_Some (chain_db c !! i);
  wf_linked : forall i b b', 2 <= i <= height c ->
    chain_db c !! (i - 1) = Some b -> chain_db c !! i = Some b' ->
    Block.previous_hash b' = Block.hash b
}.

(** ** Helper lemmas *)

Lemma get_block_some c i b : chain_db c !! i = Some b -> get_block c i = Ok b.
Proof. unfold get_block. intros ->. done. Qed.

Lemma get_block_none c i : chain_db c !! i = None -> get_block c i = Err (BlockNotFound i).
Proof. unfold get_block. intros ->. done. Qed.

Lemma wf_head c : chain_wf c -> exists head, chain_db c !! height c = Some head.
Proof. intros Hwf. destruct (wf_present c Hwf (height c)) as [head ?]; [pose proof (wf_height c Hwf); lia|eauto]. Qed.

(** [is_valid_chain] checks every adjacent pair. *)
Lemma is_valid_chain_spec (bs : list Block) :
  is_valid_chain bs = true <->
  forall k x y, bs !! k = Some x -> bs !! S k = Some y -> Block.previous_hash y = Block.hash x.
Proof.
  unfold is_valid_chain. case_decide as Hlen.
  - split; [|done]. intros _ k x y _ Hy. apply lookup_lt_Some in Hy. lia.
  - rewrite forallb_forall. split.
    + intros Hall k x y Hx Hy.
      assert (Hw : windows2 bs !! k = Some (x, y)) by (apply windows2_lookup; done).
      specialize (Hall (x, y) (proj1 (list_elem_of_In _ _) (list_elem_of_lookup_2 _ _ _ Hw))).
      simpl in Hall. destruct (decide (Block.hash x <> Block.previous_hash y)) as [|Hne]; [done|].
      destruct (decide (Block.previous_hash y = Block.hash x)) as [|Hn]; [done|].
      exfalso. apply Hne. intros E. apply Hn. symmetry. exact E.
    + intros Hall [x y] Hin. apply list_elem_of_In, list_elem_of_lookup in Hin as [k Hk].
      apply windows2_lookup in Hk as [Hx Hy]. simpl. case_decide as Hne; [|done].
      exfalso. apply Hne. symmetry. eauto.
Qed.

#[local] Hint Resolve get_block_some get_block_none : votechain.

(** ** Append *)

(** The two outcomes of [append] on a well-formed chain. *)
Lemma append_cases c block :
  chain_wf c ->
  exists head, chain_db c !! height c = Some head /\
    append c block = if Block.is_valid block head then (Ok tt, with_appended c block)
                     else (Err InvalidNewBlock, c).
Proof.
  intros Hwf. destruct (wf_head c Hwf) as [head Hh]. exists head. split; [done|].
  unfold append. rewrite (get_block_some _ _ _ Hh). by destruct (Block.is_valid block head).
Qed.


Lemma with_appended_wf c head block :
  chain_wf c -> chain_db c !! height c = Some head -> Block.is_valid block head = true ->
  chain_wf (with_appended c block).
Proof.
  intros Hwf Hh Hv. apply Block.is_valid_true in Hv. pose proof (wf_height c Hwf).
  constructor; simpl.
  - lia.
  - intros i Hi. destruct (decide (i = height c + 1)) as [->|Hne].
    + rewrite lookup_insert_eq. done.
    + rewrite lookup_insert_ne by lia. apply (wf_present c Hwf). lia.
  - intros i b b' Hi Hb Hb'. destruct (decide (i = height c + 1)) as [->|Hne].
    + rewrite lookup_insert_eq in Hb'. rewrite lookup_insert_ne in Hb by lia.
      replace (height c + 1 - 1) with (height c) in Hb by lia. congruence.
    + rewrite lookup_insert_ne in Hb, Hb' by lia. apply (wf_linked c Hwf i); [lia|done|done].
Qed.

(** [append] keeps the chain invariant. *)
Lemma append_wf c block :
  chain_wf c -> chain_wf (append c block).2.
Proof.
  intros Hwf. destruct (append_cases c block Hwf) as (head & Hh & ->).
  destruct (Block.is_valid block head) eqn:Hv; [|done]. by eapply with_appended_wf.
Qed.

(** [append] preserves the chain invariant, whatever its outcome. *)
Theorem append_preserves_wf c block :
  chain_wf c -> chain_wf (append c block).2.
Proof. apply append_wf. Qed.

(** C38: [append] does not record the new block in the hash index: after
    a successful append of a block whose hash was not indexed,
    [get_block_from_hash] on that hash still fails with
    [BlockNotFound 0]. *)
Theorem append_hash_index_stale c block c' :
  append c block = (Ok tt, c') ->
  hash_indexes c !! Block.hash block = None ->
  get_block_from_hash c' (Block.hash block) = Err (BlockNotFound 0).
Proof.
  unfold append. destruct (get_block c (height c)) as [head|e|]; try (intros [=]; fail).
  destruct (Block.is_valid block head); simpl; [|intros [=]].
  intros [= <-] Hn. unfold get_block_from_hash. simpl. rewrite Hn. done.
Qed.

(** ** Reorganisation *)

(** The ballots the stripping loop pushes back for index [i]. *)
Definition ballots_at (db : gmap Z Block) (i : Z) : list (Signed Ballot) :=
  match db !! i with Some b => Block.ballots_of b | None => [] end.

Lemma strip_step_eq st i : strip_step st i = (delete i st.1, st.2 ++ ballots_at st.1 i).
Proof.
  destruct st as [db pool]. unfold strip_step, ballots_at. simpl.
  destruct (db !! i) eqn:E; [done|]. rewrite delete_id, app_nil_r by done. done.
Qed.

Lemma ballots_at_delete_ne db i j : i <> j -> ballots_at (delete i db) j = ballots_at db j.
Proof. intros Hne. unfold ballots_at. rewrite lookup_delete_ne by done. done. Qed.

(** The stripping loop deletes every index of the range and pushes the
    ballots of the deleted blocks, in index order. *)
Lemma strip_fold idx db pool :
  NoDup idx ->
  let r := fold_left strip_step idx (db, pool) in
  (forall j, r.1 !! j = if decide (j ∈ idx) then None else db !! j) /\
  r.2 = pool ++ concat (map (ballots_at db) idx).
Proof.
  induction idx as [|i rest IH] in db, pool |- *; intros Hnd; simpl.
  - rewrite app_nil_r. split; [|done]. intros j. destruct (decide (j ∈ [])); [set_solver|done].
  - apply NoDup_cons in Hnd as [Hi Hnd]. rewrite strip_step_eq. simpl.
    destruct (IH (delete i db) (pool ++ ballots_at db i) Hnd) as [Hl Hp]. split.
    + intros j. rewrite Hl. destruct (decide (j = i)) as [->|Hne].
      * rewrite lookup_delete_eq. repeat case_decide; set_solver.
      * rewrite lookup_delete_ne by done. repeat case_decide; set_solver.
    + rewrite Hp, <- app_assoc. f_equal. f_equal. f_equal.
      apply map_ext_in. intros j Hj. apply ballots_at_delete_ne.
      intros ->. apply Hi, list_elem_of_In. done.
Qed.

(** The re-append loop writes [bs] at [idx], [idx + 1], ... *)
Lemma write_blocks_spec db idx (bs : list Block) :
  (write_blocks db idx bs).2 = idx + Z.of_nat (length bs) /\
  forall j, (write_blocks db idx bs).1 !! j =
    if decide (idx <= j < idx + Z.of_nat (length bs)) then bs !! Z.to_nat (j - idx) else db !! j.
Proof.
  induction bs as [|b rest IH] in db, idx |- *; simpl.
  - split; [lia|]. intros j. case_decide; [lia|done].
  - destruct (IH (<[idx := b]> db) (idx + 1)) as [Hl Hw]. split; [lia|].
    intros j. rewrite Hw. destruct (decide (j = idx)) as [->|Hne].
    + case_decide; [lia|]. rewrite lookup_insert_eq. case_decide; [|lia].
      replace (idx - idx) with 0 by lia. done.
    + rewrite lookup_insert_ne by done.
      case_decide; case_decide; try lia; [|done].
      replace (Z.to_nat (j - idx)) with (S (Z.to_nat (j - (idx + 1)))) by lia. done.
Qed.

(** The preconditions [try_update_longest] checks. *)
Definition reorg_pre (c : Blockchain) (fork_index : Z) (bs : list Block) : Prop :=
  exists first rest fork_block, bs = first :: rest /\
    chain_db c !! fork_index = Some fork_block /\
    Block.hash first = Block.hash fork_block /\ is_valid_chain bs = true.

(** The map after a successful reorganisation at [f] with [bs]. *)
Definition reorged_db (c : Blockchain) (f : Z) (bs : list Block) (j : Z) : option Block :=
  if decide (f <= j < f + Z.of_nat (length bs)) then bs !! Z.to_nat (j - f)
  else if decide (f <= j < height c) then None else chain_db c !! j.

(** When [try_update_longest] succeeds. *)
Lemma reorg_ok_iff c f bs :
  is_ok (try_update_longest c f bs).1 = true <-> reorg_pre c f bs.
Proof.
  unfold try_update_longest, reorg_pre. split.
  - destruct bs as [|first rest]; [done|]. unfold get_block.
    destruct (chain_db c !! f) as [fb|] eqn:Hf; [|done].
    destruct (bool_decide _ || _) eqn:Hc; [done|].
    apply orb_false_iff in Hc as [Hh Hv]. apply bool_decide_eq_false in Hh. apply negb_false_iff in Hv.
    intros _. exists first, rest, fb. repeat split; try done. destruct (decide (Block.hash first = Block.hash fb)); tauto.
  - intros (first & rest & fb & -> & Hf & Hh & Hv). rewrite (get_block_some _ _ _ Hf).
    rewrite bool_decide_eq_false_2 by tauto. rewrite Hv. simpl.
    destruct (fold_left _ _ _). destruct (write_blocks _ _ _). done.
Qed.

(** C11: [try_update_longest] succeeds exactly when the vector is not
    empty, the block at [fork_index] exists and has the hash of the
    first new block, and the new blocks form a valid chain. *)
Theorem try_update_longest_ok_iff c f bs :
  is_ok (try_update_longest c f bs).1 = true <-> reorg_pre c f bs.
Proof. apply reorg_ok_iff. Qed.

Lemma reorg_atomic c f bs :
  is_ok (try_update_longest c f bs).1 = false -> (try_update_longest c f bs).2 = c.
Proof.
  unfold try_update_longest. destruct bs as [|first rest]; [done|].
  destruct (get_block c f) as [fb|e|]; [|done|done].
  destruct (bool_decide _ || _); [done|].
  destruct (fold_left _ _ _). destruct (write_blocks _ _ _). done.
Qed.

(** C12: a failing or panicking [try_update_longest] leaves the whole
    state (blocks, height, pool) unchanged. *)
Theorem try_update_longest_atomic c f bs :
  is_ok (try_update_longest c f bs).1 = false -> (try_update_longest c f bs).2 = c.
Proof. apply reorg_atomic. Qed.

(** The state after a successful [try_update_longest]. *)
Lemma reorg_effect c f bs r c' :
  try_update_longest c f bs = (Ok r, c') ->
  r = f + Z.of_nat (length bs) /\ height c' = f + Z.of_nat (length bs) - 1 /\
  (forall j, chain_db c' !! j = reorged_db c f bs j) /\
  ballot_pool c' = ballot_pool c ++ concat (map (ballots_at (chain_db c)) (seqZ f (height c - f))) /\
  hash_indexes c' = hash_indexes c.
Proof.
  unfold try_update_longest. destruct bs as [|first rest]; [done|].
  destruct (get_block c f) as [fb|e|]; [|done|done].
  destruct (bool_decide _ || _); [done|].
  destruct (strip_fold (seqZ f (height c - f)) (chain_db c) (ballot_pool c) (NoDup_seqZ _ _)) as [S1 S2].
  destruct (fold_left _ _ _) as [db1 pool1] eqn:Ef. simpl in S1, S2.
  destruct (write_blocks_spec db1 f (first :: rest)) as [W1 W2].
  destruct (write_blocks _ _ _) as [db2 index]. cbn [fst snd] in W1, W2.
  intros [= <- <-]. cbn [chain_db height ballot_pool hash_indexes].
  split; [lia|]. split; [lia|]. split; [|split; [exact S2|done]].
  intros j. unfold reorged_db. rewrite W2, S1.
  destruct (decide (f <= j < f + Z.of_nat (length (first :: rest)))); [done|].
  destruct (decide (j ∈ seqZ f (height c - f))) as [Hin|Hin]; rewrite elem_of_seqZ in Hin;
    case_decide; try lia; done.
Qed.

(** C2: a successful [try_update_longest c f bs] returns [f + |bs|],
    sets the height to [f + |bs| - 1], stores [bs] from index [f],
    deletes the old blocks of [f..height-1] above the new head (the old
    head at [height] stays), and pushes back into the pool the ballots
    of the old blocks [f..height-1] only: the ballots of the old head
    block are not returned to the pool. *)
Theorem try_update_longest_effect c f bs r c' :
  try_update_longest c f bs = (Ok r, c') ->
  r = f + Z.of_nat (length bs) /\ height c' = f + Z.of_nat (length bs) - 1 /\
  (forall j, chain_db c' !! j = reorged_db c f bs j) /\
  ballot_pool c' = ballot_pool c ++ concat (map (ballots_at (chain_db c)) (seqZ f (height c - f))) /\
  hash_indexes c' = hash_indexes c.
Proof. apply reorg_effect. Qed.

Lemma reorged_db_new c f bs j :
  f <= j < f + Z.of_nat (length bs) -> reorged_db c f bs j = bs !! Z.to_nat (j - f).
Proof. intros Hj. unfold reorged_db. case_decide; [done|lia]. Qed.

Lemma reorged_db_old c f bs j : j < f -> reorged_db c f bs j = chain_db c !! j.
Proof. intros Hj. unfold reorged_db. do 2 (case_decide; [lia|]). done. Qed.

(** C34: a successful reorganisation at an index [1 <= f <= height]
    keeps the chain invariant, provided the first new block has the same
    previous hash as the block it replaces.  The code only compares the
    hashes of these two blocks; it relies on blake3 being collision
    resistant for this proviso. *)
Theorem try_update_longest_preserves_wf c f bs r c' :
  chain_wf c -> 1 <= f <= height c ->
  try_update_longest c f bs = (Ok r, c') ->
  (1 < f -> exists first fb, bs !! 0%nat = Some first /\ chain_db c !! f = Some fb /\
                             Block.previous_hash first = Block.previous_hash fb) ->
  chain_wf c'.
Proof.
  intros Hwf Hf Hr Hprev.
  assert (Hpre : reorg_pre c f bs) by (apply reorg_ok_iff; rewrite Hr; done).
  destruct Hpre as (first & rest & fb & -> & Hfb & Hh & Hv).
  destruct (reorg_effect _ _ _ _ _ Hr) as (_ & Hh' & Hdb & _).
  rewrite is_valid_chain_spec in Hv. assert (Hlen : (1 <= length (first :: rest))%nat) by (simpl; lia).
  constructor; rewrite ?Hh'.
  - lia.
  - intros i Hi. rewrite Hdb. destruct (decide (f <= i)).
    + rewrite reorged_db_new by lia. apply lookup_lt_is_Some. lia.
    + rewrite reorged_db_old by lia. apply (wf_present c Hwf). lia.
  - intros i b b' Hi Hb Hb'. rewrite Hdb in Hb, Hb'.
    destruct (Z.lt_total i f) as [Hlt|[->|Hgt]].
    + rewrite reorged_db_old in Hb, Hb' by lia. apply (wf_linked c Hwf i); [lia|done|done].
    + rewrite reorged_db_old in Hb by lia. rewrite reorged_db_new in Hb' by lia.
      replace (Z.to_nat (f - f)) with 0%nat in Hb' by lia. simpl in Hb'. injection Hb' as <-.
      destruct (Hprev ltac:(lia)) as (first' & fb' & [= <-] & Hfb' & ->).
      rewrite Hfb in Hfb'. injection Hfb' as <-. apply (wf_linked c Hwf f); [lia|done|done].
    + rewrite reorged_db_new in Hb, Hb' by lia.
      apply (Hv (Z.to_nat (i - 1 - f))); [done|].
      replace (S (Z.to_nat (i - 1 - f))) with (Z.to_nat (i - f)) by lia. done.
Qed.

(** Reorganising at the head with the head block alone is a
    no-op: it returns [height + 1] and the state is unchanged (spec
    property 5). *)
Theorem try_update_longest_idempotent c head :
  chain_db c !! height c = Some head ->
  try_update_longest c (height c) [head] = (Ok (height c + 1), c).
Proof.
  intros Hh. unfold try_update_longest. rewrite (get_block_some _ _ _ Hh).
  rewrite bool_decide_eq_false_2 by tauto. simpl.
  replace (height c - height c) with 0 by lia. simpl.
  rewrite insert_id by done. destruct c. simpl. do 2 f_equal. lia.
Qed.

(** ** Pooling ballots *)

Lemma with_pool_wf c pool : chain_wf c -> chain_wf (with_pool c pool).
Proof. intros []. constructor; done. Qed.

(** Below [BLOCK_SIZE] pending ballots, [pool_ballot] only appends
    the ballot to the pool. *)
Theorem pool_ballot_below c ballot now nonces :
  (S (length (ballot_pool c)) < BLOCK_SIZE)%nat ->
  pool_ballot c ballot now nonces = Some (Ok tt, with_pool c (ballot_pool c ++ [ballot])).
Proof.
  intros Hlt. unfold pool_ballot. rewrite length_app. simpl length.
  rewrite decide_False by lia. done.
Qed.

(** C33: when the pool reaches [BLOCK_SIZE], [pool_ballot] on a
    well-formed chain mines a block with the last [BLOCK_SIZE] pending
    ballots on top of the head and appends it (the discarded result of
    [append] is always [Ok]); the older ballots stay pending.  It
    returns as soon as the nonce stream holds an accepted nonce. *)
Theorem pool_ballot_mints c ballot now nonces head :
  chain_wf c -> chain_db c !! height c = Some head ->
  (BLOCK_SIZE <= S (length (ballot_pool c)))%nat ->
  Exists (fun n => Block.pow_accepts (sign (signing_key c) (xor_prefix (Block.hash head) n)) = true) nonces ->
  let pool := ballot_pool c ++ [ballot] in
  exists block,
    pool_ballot c ballot now nonces =
      Some (Ok tt, with_appended (with_pool c (take (length pool - BLOCK_SIZE) pool)) block) /\
    Block.data block = Block.Ballots (drop (length pool - BLOCK_SIZE) pool) /\
    Block.is_valid block head = true.
Proof.
  intros Hwf Hh Hge Hex pool.
  apply Block.proof_of_work_stops in Hex as [[n sig] Hpow].
  unfold pool_ballot. fold pool. rewrite decide_True by (subst pool; rewrite length_app; simpl; lia).
  unfold split_off, get_height. simpl. rewrite (get_block_some (with_pool _ _) _ _ Hh).
  unfold Block.new. simpl. rewrite Hpow.
  set (block := {| Block.timestamp := now; Block.previous_hash := Block.hash head;
                   Block.signatory := verifying_key (signing_key c); Block.signature := sig;
                   Block.data := Block.Ballots (drop (length pool - BLOCK_SIZE) pool);
                   Block.nonce := n |}).
  assert (Hv : Block.is_valid block head = true) by (apply Block.is_valid_true; done).
  exists block. split; [|done].
  unfold append. simpl. rewrite (get_block_some (with_pool _ _) _ _ Hh), Hv. done.
Qed.

(** [pool_ballot] preserves the chain invariant whenever it
    returns. *)
Theorem pool_ballot_preserves_wf c ballot now nonces r c' :
  chain_wf c -> pool_ballot c ballot now nonces = Some (r, c') -> chain_wf c'.
Proof.
  intros Hwf. unfold pool_ballot.
  destruct (decide _); [|intros [= _ <-]; by apply with_pool_wf].
  destruct (split_off _ _) as [rest bb].
  destruct (get_block _ _) as [prev|e|]; [|intros [= _ <-]; by apply with_pool_wf|intros [= _ <-]; by apply with_pool_wf].
  destruct (Block.new _ _ _ _ _) as [[block|e|]|]; try done; intros [= _ <-]; try by apply with_pool_wf.
  apply append_wf, with_pool_wf, Hwf.
Qed.

(** ** Reading the chain *)

Lemma unwrap_collect c idx :
  (forall i, i ∈ idx -> is_Some (chain_db c !! i)) ->
  unwrap_blocks c idx = collect_blocks c idx.
Proof.
  induction idx as [|i rest IH]; intros Hp; simpl; [done|].
  destruct (Hp i ltac:(set_solver)) as [b ->]. rewrite IH by set_solver. done.
Qed.

(** Reading the indices [m..m+n) of stored blocks gives them in order. *)
Lemma collect_blocks_range c m (n : nat) :
  (forall i, m <= i < m + Z.of_nat n -> is_Some (chain_db c !! i)) ->
  exists l, collect_blocks c (seqZ m (Z.of_nat n)) = Ok l /\ length l = n /\
    forall k, (k < n)%nat -> l !! k = chain_db c !! (m + Z.of_nat k).
Proof.
  induction n as [|n IH] in m |- *; intros Hp.
  - exists []. split; [reflexivity|]. split; [done|]. intros k Hk. lia.
  - rewrite seqZ_cons by lia. simpl.
    destruct (Hp m ltac:(lia)) as [b Hb]. rewrite Hb.
    replace (Z.pred (Z.of_nat (S n))) with (Z.of_nat n) by lia.
    destruct (IH (Z.succ m)) as (l & -> & Hl & Hk); [intros i Hi; apply Hp; lia|].
    exists (b :: l). simpl. split; [done|]. split; [lia|].
    intros [|k] Hk'; simpl; [rewrite Z.add_0_r; done|].
    rewrite Hk by lia. f_equal. lia.
Qed.

Lemma collect_blocks_app c idx1 idx2 l1 l2 :
  collect_blocks c idx1 = Ok l1 -> collect_blocks c idx2 = Ok l2 ->
  collect_blocks c (idx1 ++ idx2) = Ok (l1 ++ l2).
Proof.
  induction idx1 as [|i rest IH] in l1 |- *; simpl; [intros [= <-]; done|].
  destruct (chain_db c !! i); [|done].
  destruct (collect_blocks c rest) eqn:E; simpl; intros E1 E2; try done.
  injection E1 as <-. rewrite (IH _ eq_refl E2). done.
Qed.

(** C37: on a well-formed chain, [blocks] (the input of the tally) is
    the list of stored blocks without the head: [blocks_from 1] is
    [blocks] followed by the head block.  The tally never sees the
    ballots of the most recent block. *)
Theorem blocks_omit_head c :
  chain_wf c ->
  exists l head, blocks c = Ok l /\ chain_db c !! height c = Some head /\
    blocks_from c 1 = Ok (l ++ [head]).
Proof.
  intros Hwf. pose proof (wf_height c Hwf) as Hh1. destruct (wf_head c Hwf) as [head Hh].
  destruct (collect_blocks_range c 1 (Z.to_nat (height c - 1))) as (l & Hl & _).
  { intros i Hi. apply (wf_present c Hwf). lia. }
  rewrite Z2Nat.id in Hl by lia.
  exists l, head. split; [|split; [done|]].
  - unfold blocks. rewrite unwrap_collect; [done|].
    intros i Hi%elem_of_seqZ. apply (wf_present c Hwf). lia.
  - unfold blocks_from. replace (height c + 1 - 1) with ((height c - 1) + 1) by lia.
    rewrite seqZ_app by lia. apply collect_blocks_app; [done|].
    replace (1 + (height c - 1)) with (height c) by lia. rewrite (seqZ_cons _ 1) by lia. simpl. rewrite Hh. done.
Qed.

(** On a well-formed chain, [blocks_from 1] returns all [height]
    blocks and they form a valid chain by [is_valid_chain] (spec
    property 4, with C2 and C17 for chains built by mining and
    appending). *)
Theorem blocks_from_valid c :
  chain_wf c ->
  exists l, blocks_from c 1 = Ok l /\ length l = Z.to_nat (height c) /\ is_valid_chain l = true.
Proof.
  intros Hwf. pose proof (wf_height c Hwf) as Hh1.
  destruct (collect_blocks_range c 1 (Z.to_nat (height c))) as (l & Hl & Hlen & Hk).
  { intros i Hi. apply (wf_present c Hwf). lia. }
  rewrite Z2Nat.id in Hl by lia.
  exists l. unfold blocks_from. replace (height c + 1 - 1) with (height c) by lia.
  split; [done|]. split; [done|]. apply is_valid_chain_spec. intros k x y Hx Hy.
  pose proof (lookup_lt_Some _ _ _ Hy) as Hlt.
  rewrite Hk in Hx by lia. rewrite Hk in Hy by lia.
  apply (wf_linked c Hwf (1 + Z.of_nat (S k))); [lia| |done].
  replace (1 + Z.of_nat (S k) - 1) with (1 + Z.of_nat k) by lia. done.
Qed.

(** ** A decision procedure for the invariant *)

Definition chain_wf_b (c : Blockchain) : bool :=
  bool_decide (1 <= height c) &&
  forallb (fun i => bool_decide (is_Some (chain_db c !! i))) (seqZ 1 (height c)) &&
  forallb (fun i => match chain_db c !! (i - 1), chain_db c !! i with
                    | Some b, Some b' => bool_decide (Block.previous_hash b' = Block.hash b)
                    | _, _ => true
                    end) (seqZ 2 (height c - 1)).

Lemma chain_wf_b_sound c : chain_wf_b c = true -> chain_wf c.
Proof.
  unfold chain_wf_b. rewrite !andb_true_iff, !forallb_forall.
  intros [[Hh Hp] Hl]. apply bool_decide_eq_true in Hh. constructor; [done| |].
  - intros i Hi. apply (bool_decide_eq_true_1 _), Hp, list_elem_of_In, elem_of_seqZ. lia.
  - intros i b b' Hi Hb Hb'.
    assert (Hin : In i (seqZ 2 (height c - 1))) by (apply list_elem_of_In, elem_of_seqZ; lia).
    specialize (Hl i Hin). rewrite Hb, Hb' in Hl. by apply bool_decide_eq_true_1 in Hl.
Qed.

End ChainModel.

(** ** Concrete chains for the witnesses *)

Module Examples.
Import Toy BlockExamples.

Definition sb (voter t : Z) : Signed (@Ballot toy_paillier) :=
  Signed_new voter (Ballot_new true "issue" t 1 2).

(** Scenario S5 of the spec: chain [G, B1] with [B1] holding ballots
    [X], [Y], pool [Z]; a peer sends [G, B1', B2']. *)
Definition ballot_X := sb 11 100.
Definition ballot_Y := sb 12 101.
Definition ballot_Z := sb 13 102.
Definition blk_B1 : Block.Block :=
  Block.mkBlock 1 (Block.hash blk_G) 5 [0; 0] (Block.Ballots [ballot_X; ballot_Y]) z8.
Definition blk_B1' : Block.Block :=
  Block.mkBlock 2 (Block.hash blk_G) 6 [0; 0] (Block.Ballots [ballot_X]) z8.
Definition blk_B2' : Block.Block :=
  Block.mkBlock 3 (Block.hash blk_B1') 6 [0; 0] (Block.Ballots []) z8.

Definition chain_S5 : Blockchain :=
  {| chain_db := <[2 := blk_B1]> {[1 := blk_G]};
     hash_indexes := {[Block.hash blk_G := 1]};
     height := 2; ballot_pool := [ballot_Z]; signing_key := 9 |}.

(** A block extending [chain_S5], with ballot [Z]. *)
Definition blk_C : Block.Block :=
  Block.mkBlock 4 (Block.hash blk_B1) 5 [0; 0] (Block.Ballots [ballot_Z]) z8.

(** Nonces [[i; 0; ...; 0]] for every byte [i]. *)
Definition nonce_stream : list (list Z) := map (fun i => i :: drop 1 z8) (seqZ 0 256).

Definition reorg_S5 := try_update_longest chain_S5 1 [blk_G; blk_B1'; blk_B2'].
Definition pooled_X := default (Ok tt, chain_S5) (pool_ballot chain_S5 ballot_X 200 nonce_stream).

Lemma chain_S5_wf : chain_wf chain_S5.
Proof. apply chain_wf_b_sound. reflexivity. Qed.


Lemma append_preserves_wf_witness :
  chain_wf chain_S5 /\ chain_wf (append chain_S5 blk_C).2.
Proof. split; [exact chain_S5_wf|]. apply append_preserves_wf. exact chain_S5_wf. Defined.

Lemma append_hash_index_stale_witness :
  append chain_S5 blk_C = (Ok tt, with_appended chain_S5 blk_C) /\
  hash_indexes chain_S5 !! Block.hash blk_C = None /\
  get_block_from_hash (with_appended chain_S5 blk_C) (Block.hash blk_C) = Err (BlockNotFound 0).
Proof.
  split; [reflexivity|]. split; [reflexivity|].
  apply (append_hash_index_stale chain_S5 blk_C); reflexivity.
Defined.

Lemma try_update_longest_atomic_witness :
  is_ok (try_update_longest chain_S5 1 [blk_B1']).1 = false /\
  (try_update_longest chain_S5 1 [blk_B1']).2 = chain_S5.
Proof.
  split; [reflexivity|].
  apply try_update_longest_atomic. reflexivity.
Defined.

(** Scenario S5: the reorganisation succeeds, and the pool is [[Z]]:
    [X] and [Y] of the replaced head [B1] are not returned. *)
Lemma try_update_longest_effect_witness :
  reorg_S5 = (Ok 4, reorg_S5.2) /\ ballot_pool reorg_S5.2 = [ballot_Z] /\
  4 = 1 + Z.of_nat (length [blk_G; blk_B1'; blk_B2']) /\
  height reorg_S5.2 = 1 + Z.of_nat (length [blk_G; blk_B1'; blk_B2']) - 1 /\
  (forall j, chain_db reorg_S5.2 !! j = reorged_db chain_S5 1 [blk_G; blk_B1'; blk_B2'] j) /\
  ballot_pool reorg_S5.2 = ballot_pool chain_S5 ++
    concat (map (ballots_at (chain_db chain_S5)) (seqZ 1 (height chain_S5 - 1))) /\
  hash_indexes reorg_S5.2 = hash_indexes chain_S5.
Proof.
  split; [reflexivity|]. split; [reflexivity|].
  apply (try_update_longest_effect chain_S5 1 [blk_G; blk_B1'; blk_B2'] 4 reorg_S5.2).
  reflexivity.
Defined.

Lemma try_update_longest_preserves_wf_witness :
  chain_wf chain_S5 /\ 1 <= 1 <= height chain_S5 /\ reorg_S5 = (Ok 4, reorg_S5.2) /\
  chain_wf reorg_S5.2.
Proof.
  split; [exact chain_S5_wf|]. split; [simpl; lia|].
  split; [reflexivity|].
  apply (try_update_longest_preserves_wf chain_S5 1 [blk_G; blk_B1'; blk_B2'] 4).
  - exact chain_S5_wf.
  - simpl. lia.
  - reflexivity.
  - intros Hlt. lia.
Defined.

Lemma try_update_longest_idempotent_witness :
  chain_db chain_S5 !! height chain_S5 = Some blk_B1 /\
  try_update_longest chain_S5 (height chain_S5) [blk_B1] = (Ok (height chain_S5 + 1), chain_S5).
Proof.
  split; [reflexivity|].
  apply try_update_longest_idempotent. reflexivity.
Defined.

Lemma pool_ballot_below_witness :
  (S (length (ballot_pool (with_pool chain_S5 []))) < BLOCK_SIZE)%nat /\
  pool_ballot (with_pool chain_S5 []) ballot_X 200 nonce_stream =
    Some (Ok tt, with_pool (with_pool chain_S5 []) ([] ++ [ballot_X])).
Proof.
  split; [unfold BLOCK_SIZE; simpl; lia|]. apply pool_ballot_below. unfold BLOCK_SIZE; simpl; lia.
Defined.

Lemma pool_ballot_mints_witness :
  chain_wf chain_S5 /\ chain_db chain_S5 !! height chain_S5 = Some blk_B1 /\
  let pool := ballot_pool chain_S5 ++ [ballot_X] in
  exists block,
    pool_ballot chain_S5 ballot_X 200 nonce_stream =
      Some (Ok tt, with_appended (with_pool chain_S5 (take (length pool - BLOCK_SIZE) pool)) block) /\
    Block.data block = Block.Ballots (drop (length pool - BLOCK_SIZE) pool) /\
    Block.is_valid block blk_B1 = true.
Proof.
  split; [exact chain_S5_wf|]. split; [reflexivity|].
  apply pool_ballot_mints.
  - exact chain_S5_wf.
  - reflexivity.
  - unfold BLOCK_SIZE; simpl; lia.
  - apply (bool_decide_eq_true_1 _). reflexivity.
Defined.

Lemma pool_ballot_preserves_wf_witness :
  chain_wf chain_S5 /\
  pool_ballot chain_S5 ballot_X 200 nonce_stream = Some (pooled_X.1, pooled_X.2) /\
  chain_wf pooled_X.2.
Proof.
  split; [exact chain_S5_wf|]. split; [reflexivity|].
  apply (pool_ballot_preserves_wf chain_S5 ballot_X 200 nonce_stream pooled_X.1).
  - exact chain_S5_wf.
  - reflexivity.
Defined.

Lemma blocks_omit_head_witness :
  chain_wf chain_S5 /\ blocks chain_S5 = Ok [blk_G] /\
  exists l head, blocks chain_S5 = Ok l /\ chain_db chain_S5 !! height chain_S5 = Some head /\
    blocks_from chain_S5 1 = Ok (l ++ [head]).
Proof.
  split; [exact chain_S5_wf|]. split; [reflexivity|].
  apply blocks_omit_head. exact chain_S5_wf.
Defined.

Lemma blocks_from_valid_witness :
  chain_wf chain_S5 /\
  exists l, blocks_from chain_S5 1 = Ok l /\ length l = Z.to_nat (height chain_S5) /\
    is_valid_chain l = true.
Proof. split; [exact chain_S5_wf|]. apply blocks_from_valid. exact chain_S5_wf. Defined.

End Examples.

End Chain.
