(* ===== verification/ChainIter.v ===== *)
(** * ChainIter: walking and printing a chain (chain.rs)

    [Module ChainIter] models the parts of [chain.rs] that read a chain
    without changing it: [Blockchain::iter] with [BlockchainIter::next],
    the unimplemented [Blockchain::seal], and the [Display] and [Debug]
    impls, which look up the head block and [unwrap] it.  [collect] drives the iterator until it returns
    [None], as [Iterator::collect] does, with explicit fuel; the theorem
    [iter_yields] shows that [height] calls of [next] are enough on a
    well-formed chain and says which blocks come out. *)

From S2P Require Import Prelude Crypto Block Chain.

Module ChainIter.
Import Chain.

Section IterModel.
Context `{Blake3} `{Ed25519} `{Paillier} `{Serialize (Signed Ballot)}.

(** [struct BlockchainIter]; the [u32] index is a [Z] that stays below
    [2^32] (see the conventions of the root file). *)
Record BlockchainIter := mkIter {
  curr_index : Z;
  iter_chain : Blockchain
}.

(** [Blockchain::iter]. *)
Definition iter (c : Blockchain) : BlockchainIter := mkIter 1 c.

(** [BlockchainIter::next]: the index is incremented before the read. *)
Definition next (it : BlockchainIter) : option Block.Block * BlockchainIter :=
  let curr_index := curr_index it + 1 in
  (try_get_block (iter_chain it) curr_index, mkIter curr_index (iter_chain it)).

(** [Iterator::collect] over [next], with at most [fuel] calls. *)
Fixpoint collect (fuel : nat) (it : BlockchainIter) : option (list Block.Block) :=
  match fuel with
  | O => None
  | S fuel' =>
      match next it with
      | (Some b, it') => b' ← collect fuel' it'; Some (b :: b')
      | (None, _) => Some []
      end
  end.

(** [Blockchain::seal]: [todo!()], a panic whatever the state. *)
Definition seal (c : Blockchain) : res unit Error := Panic.

(** [impl Display for Blockchain]: the height and the hash of the head
    block, [unwrap]ped. *)
Definition fmt (c : Blockchain) : res (Z * list Z) Error :=
  match get_block c (height c) with
  | Ok block => Ok (height c, Block.hash block)
  | _ => Panic
  end.

(** [impl Debug for Blockchain]: the same fields as [Display]; the
    [db_path] field is configuration, not modelled. *)
Definition debug_fmt (c : Blockchain) : res (Z * list Z) Error := fmt c.

(** ** Laws *)

(** On a well-formed chain the head is present: printing never panics. *)
Lemma fmt_wf c :
  chain_wf c -> exists head, chain_db c !! height c = Some head /\ fmt c = Ok (height c, Block.hash head).
Proof.
  intros Hwf. destruct (wf_head c Hwf) as [head Hh]. exists head.
  unfold fmt. by rewrite (get_block_some _ _ _ Hh).
Qed.

Lemma debug_fmt_wf c :
  chain_wf c -> exists head, chain_db c !! height c = Some head /\ debug_fmt c = Ok (height c, Block.hash head).
Proof. apply fmt_wf. Qed.

Lemma collect_S fuel it :
  collect (S fuel) it =
    match next it with
    | (Some b, it') => b' ← collect fuel it'; Some (b :: b')
    | (None, _) => Some []
    end.
Proof. reflexivity. Qed.

(** From index [i], [k + 1] calls return the blocks [i+1 .. i+k] and
    stop at the first missing index [i + k + 1]. *)
Lemma collect_from c (k : nat) : forall i,
  chain_wf c -> chain_db c !! (height c + 1) = None -> 1 <= i -> i + Z.of_nat k = height c ->
  exists l, collect_blocks c (seqZ (i + 1) (Z.of_nat k)) = Ok l /\ collect (S k) (mkIter i c) = Some l.
Proof.
  induction k as [|k IH]; intros i Hwf Hnone Hi Hk.
  - exists []. split; [done|]. simpl. unfold try_get_block.
    replace (i + 1) with (height c + 1) by lia. by rewrite (get_block_none _ _ Hnone).
  - destruct (wf_present c Hwf (i + 1)) as [b Hb]; [lia|].
    destruct (IH (i + 1) Hwf Hnone ltac:(lia) ltac:(lia)) as (l & Hl & Hc).
    exists (b :: l). split.
    + rewrite Nat2Z.inj_succ, seqZ_cons by lia. simpl. rewrite Hb.
      replace (Z.succ (i + 1)) with (i + 1 + 1) by lia.
      replace (Z.pred (Z.succ (Z.of_nat k))) with (Z.of_nat k) by lia. by rewrite Hl.
    + rewrite collect_S. unfold next, try_get_block. cbn [curr_index iter_chain].
      rewrite (get_block_some _ _ _ Hb), Hc. done.
Qed.

(** C31: on a well-formed chain with nothing stored past the head,
    collecting [Blockchain::iter] stops after [height] calls of [next]
    and yields the blocks [2..=height] in order: the genesis block at
    index 1 is skipped, because [next] increments the index before
    reading. *)
Theorem iter_yields c :
  chain_wf c -> chain_db c !! (height c + 1) = None ->
  exists l, blocks_from c 2 = Ok l /\ collect (Z.to_nat (height c)) (iter c) = Some l.
Proof.
  intros Hwf Hnone. pose proof (wf_height c Hwf) as Hh.
  assert (Hk : 1 + Z.of_nat (Z.to_nat (height c - 1)) = height c) by lia.
  destruct (collect_from c (Z.to_nat (height c - 1)) 1 Hwf Hnone (Z.le_refl 1) Hk) as (l & Hl & Hc).
  exists l. split.
  - unfold blocks_from. rewrite <- Hl. by replace (height c + 1 - 2) with (Z.of_nat (Z.to_nat (height c - 1))) by lia.
  - replace (Z.to_nat (height c)) with (S (Z.to_nat (height c - 1))) by lia. exact Hc.
Qed.

End IterModel.

End ChainIter.

(** ** Scenarios and witnesses *)

Module ChainIterExamples.
Import Toy BlockExamples Chain Chain.Examples ChainIter.

Lemma chain_S5_no_stale : chain_db chain_S5 !! (height chain_S5 + 1) = None.
Proof. reflexivity. Qed.

Lemma iter_yields_witness :
  chain_wf chain_S5 /\ chain_db chain_S5 !! (height chain_S5 + 1) = None /\
  exists l, blocks_from chain_S5 2 = Ok l /\ collect (Z.to_nat (height chain_S5)) (iter chain_S5) = Some l.
Proof.
  split; [exact chain_S5_wf|]. split; [exact chain_S5_no_stale|].
  apply (iter_yields chain_S5 chain_S5_wf chain_S5_no_stale).
Defined.

End ChainIterExamples.
