(* ===== verification/Heartbeat.v ===== *)
(** * Heartbeat: the height-exchange protocol
      (protocols/chain_sync/protocol_heartbeats.rs, protocols/heartbeat.rs)

    Neither file is reachable from the node: [protocol_heartbeats.rs]
    imports a [crate::chain] module that does not exist and is declared
    by no module, and [heartbeat.rs] only defines the message and a
    [request_response] behaviour that [main] never adds to the swarm.
    [Module Heartbeat] models them as written: the message, the two
    halves of the exchange as handlers of the frames they receive (as in
    [Sync]), the stubs [send_sync] and [recv_sync] of that file, and the
    exchange over a connection whose frames arrive intact. *)

From S2P Require Import Prelude Crypto Block Chain.

Module Heartbeat.

Section HeartbeatModel.
Context `{Blake3} `{Ed25519} `{Paillier} `{Serialize (Signed Ballot)}.

(** [struct HeartbeatMessage] (the same in both files). *)
Record HeartbeatMessage := mkHeartbeat { hb_height : Z }.

(** The error both halves build when the stream ends:
    [CborCodecError::Io] of kind [TimedOut]. *)
Inductive HeartbeatError := TimedOut.

(** [send_heartbeat], first part: the frame sent with the chain's
    height. *)
Definition send_heartbeat_request (c : Chain.Blockchain) : HeartbeatMessage :=
  mkHeartbeat (Chain.get_height c).

(** [send_heartbeat], on the next frame ([None] is the end of the
    stream): the peer's height and the elapsed time [elapsed] of the
    timer. *)
Definition send_heartbeat_on_response (response : option HeartbeatMessage) (elapsed : Z)
    : res (Z * Z) HeartbeatError :=
  match response with
  | Some r => Ok (hb_height r, elapsed)
  | None => Err TimedOut
  end.

(** [recv_heartbeat] on the first frame: the reply it sends and its
    result, the requester's height. *)
Definition recv_heartbeat (c : Chain.Blockchain) (request : option HeartbeatMessage)
    : list HeartbeatMessage * res Z HeartbeatError :=
  match request with
  | Some r => ([mkHeartbeat (Chain.get_height c)], Ok (hb_height r))
  | None => ([], Err TimedOut)
  end.

(** The stubs of that file: [send_sync] returns at once with a zero
    duration, [recv_sync] returns the stream. *)
Definition send_sync : res Z unit := Ok 0.
Definition recv_sync : res unit unit := Ok tt.

(** One exchange between an initiator on chain [a] and a responder on
    chain [b]: [delivered] says whether the request frame arrives (the
    responder otherwise sees the end of the stream and closes it). *)
Definition exchange (a b : Chain.Blockchain) (delivered : bool) (elapsed : Z)
    : res (Z * Z) HeartbeatError * res Z HeartbeatError :=
  let request := if delivered then Some (send_heartbeat_request a) else None in
  let (replies, responder_result) := recv_heartbeat b request in
  (send_heartbeat_on_response (head replies) elapsed, responder_result).

(** Each side learns the other's height when the request arrives; both
    end with [TimedOut] otherwise. *)
Lemma exchange_heights a b delivered elapsed :
  exchange a b delivered elapsed =
    if delivered then (Ok (Chain.height b, elapsed), Ok (Chain.height a))
    else (Err TimedOut, Err TimedOut).
Proof. by destruct delivered. Qed.

End HeartbeatModel.

End Heartbeat.
