(* ===== verification/Delegations.v ===== *)
(** * Delegations: the delegation graph and power resolution

    [Module Delegations] models [src/node/src/trustee/delegations.rs].
    A [DelegationGraph] holds the map from delegator to representative
    and its inverse adjacency ([get_adj_list]).  [resolve_power] is the
    depth-first traversal of the inverse adjacency from a voter, with an
    explicit stack and visited set, that stops at nodes which voted
    themselves; the [while let] loop is [resolve_loop] with fuel, and
    [resolve_fuel] (the number of delegations plus two) is proved to be
    enough.  [generate_weights] maps every voter to its power.

    The abstract specification is [powered]: the voter itself and,
    transitively, every non-voting delegator of a powered node.  The
    refinement theorem says the DFS counts exactly the powered nodes;
    the weight theorems follow from it. *)

From S2P Require Import Prelude.

Module Delegations.

(** [struct DelegationGraph]; verifying keys are numbers. *)
Record DelegationGraph := mkGraph {
  delegation_map : gmap Z Z;
  representation_adj_list : gmap Z (list Z)
}.

(** The closure of [get_adj_list]: [entry(rep).and_modify(push).or_insert(vec![delegate])]. *)
Definition adj_push (adj : gmap Z (list Z)) (delegate representative : Z) : gmap Z (list Z) :=
  match adj !! representative with
  | Some list => <[representative := list ++ [delegate]]> adj
  | None => <[representative := [delegate]]> adj
  end.

(** The [for_each] over the delegation pairs, in iteration order. *)
Definition adj_of_pairs (pairs : list (Z * Z)) : gmap Z (list Z) :=
  fold_left (fun adj p => adj_push adj p.1 p.2) pairs ∅.

(** [get_adj_list]: the map is iterated in [map_to_list] order. *)
Definition get_adj_list (delegation_map : gmap Z Z) : gmap Z (list Z) :=
  adj_of_pairs (map_to_list delegation_map).

(** [DelegationGraph::new]. *)
Definition new (delegation_map : gmap Z Z) : DelegationGraph :=
  {| delegation_map := delegation_map;
     representation_adj_list := get_adj_list delegation_map |}.

(** [DelegationGraph::random]: for the [i]-th census key, [draw i]
    holds the thread RNG's two draws, whether [rng.gen::<f64>() > 0.1]
    and the draw of [census.choose]; a passing key delegates to the
    chosen census member.  [choose(..).unwrap()] is on the non-empty
    census the loop iterates, so it never fails. *)
Definition random_map (census : list Z) (draw : nat -> bool * nat) : gmap Z Z :=
  fold_left (fun delegation_map '(i, public_key) =>
               if (draw i).1 then
                 match choose census (draw i).2 with
                 | Some target => <[public_key := target]> delegation_map
                 | None => delegation_map
                 end
               else delegation_map)
    (zip (seq 0 (length census)) census) ∅.

Definition random (census : list Z) (draw : nat -> bool * nat) : DelegationGraph :=
  new (random_map census draw).

(** The [for_each] of the loop body: push each child that is neither
    visited nor a voter (the head of the list is the top of the stack). *)
Definition push_children (visited voters : gset Z) (children stack : list Z) : list Z :=
  fold_left (fun st child => if decide ((child ∉ visited) /\ (child ∉ voters)) then child :: st else st)
    children stack.

(** The [while let Some(next) = stack.pop()] loop on the state
    (stack, visited, accumulator); [None] when the fuel runs out. *)
Fixpoint resolve_loop (fuel : nat) (adj : gmap Z (list Z)) (voters : gset Z)
    (stack : list Z) (visited : gset Z) (accumulator : nat) : option (gset Z * nat) :=
  match fuel with
  | O => None
  | S fuel' =>
      match stack with
      | [] => Some (visited, accumulator)
      | next :: stack' =>
          let visited := {[next]} ∪ visited in
          let accumulator := S accumulator in
          let stack := match adj !! next with
                       | Some children => push_children visited voters children stack'
                       | None => stack'
                       end in
          resolve_loop fuel' adj voters stack visited accumulator
      end
  end.

(** Enough iterations for a graph: one per key plus the root and the
    final check of the empty stack. *)
Definition resolve_fuel (g : DelegationGraph) : nat := (size (delegation_map g) + 2)%nat.

(** [resolve_power]: the accumulator at the end of the loop. *)
Definition resolve_power (g : DelegationGraph) (public_key : Z) (voters : gset Z) : nat :=
  match resolve_loop (resolve_fuel g) (representation_adj_list g) voters [public_key] ∅ 0 with
  | Some (_, accumulator) => accumulator
  | None => 0
  end.

(** The visited set at the end of the loop. *)
Definition power_set (g : DelegationGraph) (public_key : Z) (voters : gset Z) : gset Z :=
  match resolve_loop (resolve_fuel g) (representation_adj_list g) voters [public_key] ∅ 0 with
  | Some (visited, _) => visited
  | None => ∅
  end.

(** [generate_weights]: the [HashSet] is iterated in [elements] order. *)
Definition generate_weights (g : DelegationGraph) (voters : gset Z) : gmap Z nat :=
  fold_left (fun weights voter => <[voter := resolve_power g voter voters]> weights)
    (elements voters) ∅.

(** The sum of the weight map's values. *)
Definition total_weight (weights : gmap Z nat) : nat :=
  map_fold (fun _ w acc => (w + acc)%nat) 0%nat weights.

(** ** Abstract specification *)

(** [powered m voters v x]: [x] contributes to the power of [v]. *)
Inductive powered (m : gmap Z Z) (voters : gset Z) (v : Z) : Z -> Prop :=
| powered_root : powered m voters v v
| powered_step x y : powered m voters v y -> m !! x = Some y -> x ∉ voters -> powered m voters v x.

(** ** The inverse adjacency *)

Section Adjacency.

(** The delegators of [r] among [pairs], in order. *)
Definition children_in (pairs : list (Z * Z)) (r : Z) : list Z :=
  map fst (filter (fun p => p.2 = r) pairs).

Lemma adj_push_lookup adj d r r' :
  adj_push adj d r !! r' = if decide (r' = r) then Some (default [] (adj !! r) ++ [d]) else adj !! r'.
Proof.
  unfold adj_push. destruct (adj !! r) eqn:E; case_decide; subst;
    rewrite ?lookup_insert_eq, ?lookup_insert_ne by done; done.
Qed.

Lemma adj_of_pairs_lookup pairs r :
  adj_of_pairs pairs !! r = match children_in pairs r with [] => None | l => Some l end.
Proof.
  unfold adj_of_pairs. induction pairs as [|[d r0] pairs IH] using rev_ind; [done|].
  rewrite fold_left_app. simpl. rewrite adj_push_lookup.
  unfold children_in in *. rewrite filter_app, map_app.
  destruct (decide (r = r0)) as [->|Hne].
  - rewrite IH, filter_cons_True by done. simpl. destruct (map fst (filter _ pairs)); done.
  - rewrite IH, filter_cons_False by done. simpl. rewrite app_nil_r. done.
Qed.

Lemma children_in_elem m y x : x ∈ children_in (map_to_list m) y <-> m !! x = Some y.
Proof.
  unfold children_in. rewrite list_elem_of_fmap. split.
  - intros [[x' y'] [-> Hin]]. apply list_elem_of_filter in Hin as [Hy Hin].
    simpl in *. subst. by apply elem_of_map_to_list.
  - intros Hx. exists (x, y). split; [done|]. apply list_elem_of_filter. split; [done|].
    by apply elem_of_map_to_list.
Qed.

Lemma children_in_NoDup m y : NoDup (children_in (map_to_list m) y).
Proof.
  unfold children_in. apply NoDup_fmap_fst.
  - intros x y1 y2 H1 H2. apply list_elem_of_filter in H1 as [_ H1], H2 as [_ H2].
    apply elem_of_map_to_list in H1, H2. congruence.
  - apply NoDup_filter, NoDup_map_to_list.
Qed.

(** The children of [y] in the graph of [m]. *)
Definition children (m : gmap Z Z) (y : Z) : list Z := default [] (get_adj_list m !! y).

Lemma children_eq m y : children m y = children_in (map_to_list m) y.
Proof. unfold children, get_adj_list. rewrite adj_of_pairs_lookup. destruct (children_in _ _); done. Qed.

(** The adjacency lists are exactly the inverse of the delegation map. *)
Lemma children_spec m y x : x ∈ children m y <-> m !! x = Some y.
Proof. rewrite children_eq. apply children_in_elem. Qed.

Lemma children_NoDup m y : NoDup (children m y).
Proof. rewrite children_eq. apply children_in_NoDup. Qed.

End Adjacency.

(** C28: [get_adj_list], the imperative [entry]/[push] fold over
    the delegation map, computes the inverse relation: a representative
    has no entry exactly when nobody delegates to it, and otherwise its
    list holds each of its direct delegators once. *)
Theorem get_adj_list_inverse m y :
  (get_adj_list m !! y = None <-> forall x, m !! x <> Some y) /\
  (forall l, get_adj_list m !! y = Some l -> NoDup l /\ forall x, x ∈ l <-> m !! x = Some y).
Proof.
  unfold get_adj_list. rewrite adj_of_pairs_lookup.
  pose proof (children_in_elem m y) as Hel. pose proof (children_in_NoDup m y) as Hnd.
  destruct (children_in (map_to_list m) y) as [|x0 l0] eqn:E; split.
  - split; [|done]. intros _ x Hx. apply Hel in Hx. set_solver.
  - done.
  - split; [done|]. intros Hn. exfalso. apply (Hn x0), Hel. set_solver.
  - intros l [= <-]. done.
Qed.

Lemma random_map_fold (census : list Z) (draw : nat -> bool * nat) (pairs : list (nat * Z)) (acc : gmap Z Z) (x y : Z) :
  (forall i k, (i, k) ∈ pairs -> k ∈ census) ->
  (forall x y : Z, acc !! x = Some y -> x ∈ census /\ y ∈ census) ->
  fold_left (fun delegation_map '(i, public_key) =>
               if (draw i).1 then
                 match choose census (draw i).2 with
                 | Some target => <[public_key := target]> delegation_map
                 | None => delegation_map
                 end
               else delegation_map) pairs acc !! x = Some y -> x ∈ census /\ y ∈ census.
Proof.
  revert acc. induction pairs as [|[i k] pairs IH]; intros acc Hp Hacc; simpl; [apply Hacc|].
  apply IH; [intros i' k' Hik; apply (Hp i' k'); set_solver|].
  intros x' y'. destruct (draw i).1; [|apply Hacc].
  destruct (choose census (draw i).2) as [t|] eqn:Ht; [|apply Hacc].
  destruct (decide (x' = k)) as [->|Hne].
  - rewrite lookup_insert_eq. intros [= <-]. split; [apply (Hp i k); set_solver|by eapply choose_Some].
  - rewrite lookup_insert_ne by done. apply Hacc.
Qed.


(** ** The depth-first traversal *)

Lemma push_children_eq vis vs cs st :
  push_children vis vs cs st = reverse (filter (fun c => c ∉ vis /\ c ∉ vs) cs) ++ st.
Proof.
  unfold push_children. induction cs as [|c cs IH] in st |- *; [done|]. simpl.
  rewrite IH. case_decide as Hc.
  - rewrite filter_cons_True by done. rewrite reverse_cons, <- app_assoc. done.
  - rewrite filter_cons_False by done. done.
Qed.

(** One iteration reads the children of [next] in the adjacency map. *)
Lemma loop_children m vis vs x rest :
  match get_adj_list m !! x with
  | Some cs => push_children vis vs cs rest
  | None => rest
  end = push_children vis vs (children m x) rest.
Proof. unfold children. destruct (get_adj_list m !! x); done. Qed.

Lemma size_union_le (X Y : gset Z) : (size (X ∪ Y) <= size X + size Y)%nat.
Proof.
  rewrite size_union_alt. pose proof (subseteq_size (Y ∖ X) Y ltac:(set_solver)). lia.
Qed.

Section DFS.
Context (m : gmap Z Z) (voters : gset Z) (v : Z).

Local Notation powered := (powered m voters v).

(** The nodes the traversal may visit. *)
Definition universe : gset Z := {[v]} ∪ dom m.

(** The loop invariant of [resolve_power] on a graph built by [new]. *)
Record dfs_inv (stack : list Z) (vis : gset Z) (acc : nat) : Prop := {
  inv_acc : acc = size vis;
  inv_nodup : NoDup stack;
  inv_fresh : forall s, s ∈ stack -> s ∉ vis;
  inv_sound_vis : forall x, x ∈ vis -> powered x;
  inv_sound_stack : forall x, x ∈ stack -> powered x;
  inv_closed : forall y x, y ∈ vis -> m !! x = Some y -> x ∉ voters -> x ∈ vis \/ x ∈ stack;
  inv_root : v ∈ vis \/ v ∈ stack;
  inv_parent : forall s, s ∈ stack -> (s = v /\ vis = ∅) \/ (exists y, m !! s = Some y /\ y ∈ vis)
}.

Lemma dfs_inv_init : dfs_inv [v] ∅ 0.
Proof.
  constructor; try set_solver; try apply NoDup_singleton;
    intros x ->%list_elem_of_singleton; first [constructor|left; done].
Qed.

(** At the start of the traversal the stack holds only the root. *)
Lemma dfs_inv_root_alone x rest vis acc :
  dfs_inv (x :: rest) vis acc -> vis = ∅ -> rest = [].
Proof.
  intros Hi ->. destruct rest as [|s rest]; [done|].
  destruct (inv_parent _ _ _ Hi x ltac:(set_solver)) as [[-> _]|(y&_&Hy)]; [|set_solver].
  destruct (inv_parent _ _ _ Hi s ltac:(set_solver)) as [[-> _]|(y&_&Hy)]; [|set_solver].
  pose proof (inv_nodup _ _ _ Hi) as Hnd. apply NoDup_cons in Hnd as [Hn _]. set_solver.
Qed.

Lemma dfs_inv_step x rest vis acc :
  dfs_inv (x :: rest) vis acc ->
  dfs_inv (push_children ({[x]} ∪ vis) voters (children m x) rest) ({[x]} ∪ vis) (S acc).
Proof.
  intros Hi. rewrite push_children_eq.
  set (P := fun c => c ∉ {[x]} ∪ vis /\ c ∉ voters).
  assert (Hx : x ∉ vis) by (apply (inv_fresh _ _ _ Hi); set_solver).
  pose proof (inv_nodup _ _ _ Hi) as Hnd. apply NoDup_cons in Hnd as [Hxr Hnd].
  assert (Hnew : forall c, c ∈ reverse (filter P (children m x)) <-> m !! c = Some x /\ P c).
  { intros c. rewrite elem_of_reverse, list_elem_of_filter, children_spec. tauto. }
  (* a child of [x] is never already on the stack *)
  assert (Hdisj : forall c, m !! c = Some x -> c ∉ rest).
  { intros c Hc Hin. destruct (inv_parent _ _ _ Hi c ltac:(set_solver)) as [[-> ->]|(y&Hy&Hyv)].
    - pose proof (dfs_inv_root_alone _ _ _ _ Hi eq_refl). subst. set_solver.
    - rewrite Hc in Hy. injection Hy as <-. done. }
  constructor.
  - rewrite (inv_acc _ _ _ Hi), size_union by set_solver. rewrite size_singleton. done.
  - apply NoDup_app. split; [|split; [|done]].
    + rewrite reverse_Permutation. apply NoDup_filter, children_NoDup.
    + intros c Hc%Hnew. destruct Hc as [Hc _]. by apply Hdisj.
  - intros s [Hs|Hs]%elem_of_app.
    + apply Hnew in Hs as [_ [Hs _]]. done.
    + apply not_elem_of_union. split; [set_solver|]. apply (inv_fresh _ _ _ Hi). set_solver.
  - intros y [->%elem_of_singleton|Hy]%elem_of_union.
    + apply (inv_sound_stack _ _ _ Hi). set_solver.
    + by apply (inv_sound_vis _ _ _ Hi).
  - intros s [Hs|Hs]%elem_of_app.
    + apply Hnew in Hs as [Hs [_ Hv]]. apply (powered_step _ _ _ s x); [|done|done].
      apply (inv_sound_stack _ _ _ Hi). set_solver.
    + apply (inv_sound_stack _ _ _ Hi). set_solver.
  - intros y c [->%elem_of_singleton|Hy]%elem_of_union Hc Hcv.
    + destruct (decide (c ∈ {[x]} ∪ vis)) as [|Hn]; [left; done|].
      right. apply elem_of_app. left. apply Hnew. split; [done|]. split; done.
    + destruct (inv_closed _ _ _ Hi y c Hy Hc Hcv) as [|Hs]; [set_solver|].
      apply elem_of_cons in Hs as [->|Hs]; [set_solver|]. right. set_solver.
  - destruct (inv_root _ _ _ Hi) as [|Hs]; [set_solver|].
    apply elem_of_cons in Hs as [->|Hs]; [set_solver|]. right. set_solver.
  - intros s [Hs|Hs]%elem_of_app.
    + apply Hnew in Hs as [Hs _]. right. exists x. split; [done|set_solver].
    + destruct (inv_parent _ _ _ Hi s ltac:(set_solver)) as [[-> ->]|(y&Hy&Hyv)].
      * pose proof (dfs_inv_root_alone _ _ _ _ Hi eq_refl). subst. set_solver.
      * right. exists y. split; [done|set_solver].
Qed.

(** The popped node is a node of the universe not yet visited. *)
Lemma dfs_inv_pop_in_universe x rest vis acc :
  dfs_inv (x :: rest) vis acc -> x ∈ universe ∖ vis.
Proof.
  intros Hi. apply elem_of_difference. split; [|apply (inv_fresh _ _ _ Hi); set_solver].
  unfold universe. destruct (inv_parent _ _ _ Hi x ltac:(set_solver)) as [[-> _]|(y&Hy&_)].
  - set_solver.
  - apply elem_of_union_r, elem_of_dom. eauto.
Qed.

(** When the stack is empty, the visited set is the powered set. *)
Lemma dfs_inv_exit vis acc :
  dfs_inv [] vis acc -> acc = size vis /\ forall x, x ∈ vis <-> powered x.
Proof.
  intros Hi. split; [apply (inv_acc _ _ _ Hi)|]. intros x. split; [apply (inv_sound_vis _ _ _ Hi)|].
  induction 1 as [|x y Hy IH Hxy Hxv].
  - destruct (inv_root _ _ _ Hi) as [|Hs]; [done|set_solver].
  - destruct (inv_closed _ _ _ Hi y x IH Hxy Hxv) as [|Hs]; [done|set_solver].
Qed.

(** Enough fuel runs the loop to its exit with the powered set. *)
Lemma dfs_run fuel stack vis acc :
  dfs_inv stack vis acc -> (size (universe ∖ vis) < fuel)%nat ->
  exists vis', resolve_loop fuel (get_adj_list m) voters stack vis acc = Some (vis', size vis') /\
    forall x, x ∈ vis' <-> powered x.
Proof.
  induction fuel as [|fuel IH] in stack, vis, acc |- *; intros Hi Hf; [lia|].
  destruct stack as [|x rest]; simpl.
  - destruct (dfs_inv_exit _ _ Hi) as [-> Hx]. eauto.
  - rewrite loop_children. apply IH; [by apply dfs_inv_step|].
    pose proof (dfs_inv_pop_in_universe _ _ _ _ Hi) as Hu.
    replace (universe ∖ ({[x]} ∪ vis)) with ((universe ∖ vis) ∖ {[x]}) by set_solver.
    rewrite size_difference by set_solver. rewrite size_singleton.
    assert (size (universe ∖ vis) ≠ 0%nat); [|lia].
    intros Hz. apply size_empty_inv in Hz. set_solver.
Qed.

Lemma universe_size : (size universe <= size m + 1)%nat.
Proof. unfold universe. pose proof (size_union_le {[v]} (dom m)). rewrite size_singleton, size_dom in *. lia. Qed.

End DFS.

(** [resolve_power] on a graph built by [new] counts exactly the
    powered nodes, and its visited set is that set. *)
Lemma resolve_power_correct m v voters :
  resolve_power (new m) v voters = size (power_set (new m) v voters) /\
  forall x, x ∈ power_set (new m) v voters <-> powered m voters v x.
Proof.
  destruct (dfs_run m voters v (resolve_fuel (new m)) [v] ∅ 0 (dfs_inv_init m voters v)) as (vis & Hrun & Hvis).
  { rewrite difference_empty_L. pose proof (universe_size m v). unfold resolve_fuel. simpl. lia. }
  unfold resolve_power, power_set. simpl in *. rewrite Hrun. done.
Qed.

(** C3: the power [resolve_power] gives a voter on a graph built by
    [new] is the number of nodes it represents: itself and,
    transitively, every delegator who did not vote of a represented
    node (the relation [powered]); the visited set is that set. *)
Theorem resolve_power_spec m v voters :
  resolve_power (new m) v voters = size (power_set (new m) v voters) /\
  forall x, x ∈ power_set (new m) v voters <-> powered m voters v x.
Proof. apply resolve_power_correct. Qed.

(** C36: the traversal stops within [resolve_fuel] iterations on
    every graph built by [new], cyclic delegations included. *)
Theorem resolve_loop_terminates m v voters :
  is_Some (resolve_loop (resolve_fuel (new m)) (get_adj_list m) voters [v] ∅ 0).
Proof.
  destruct (dfs_run m voters v (resolve_fuel (new m)) [v] ∅ 0 (dfs_inv_init m voters v)) as (vis & Hrun & _).
  { rewrite difference_empty_L. pose proof (universe_size m v). unfold resolve_fuel. simpl. lia. }
  rewrite Hrun. eauto.
Qed.

(** ** Weights *)

Lemma fold_insert_lookup (f : Z -> nat) (l : list Z) (w0 : gmap Z nat) x :
  fold_left (fun w k => <[k := f k]> w) l w0 !! x = if decide (x ∈ l) then Some (f x) else w0 !! x.
Proof.
  induction l as [|k l IH] in w0 |- *; simpl; [done|].
  rewrite IH. destruct (decide (x ∈ l)) as [Hl|Hl]; destruct (decide (x ∈ k :: l)) as [Hkl|Hkl];
    try done; try set_solver.
  - assert (x = k) as -> by set_solver. rewrite lookup_insert_eq. done.
  - rewrite lookup_insert_ne by set_solver. done.
Qed.

(** [generate_weights] maps exactly the voters, each
    to its [resolve_power]. *)
Lemma generate_weights_lookup g voters x :
  generate_weights g voters !! x = if decide (x ∈ voters) then Some (resolve_power g x voters) else None.
Proof.
  unfold generate_weights. rewrite fold_insert_lookup.
  destruct (decide (x ∈ elements voters)) as [Hx|Hx]; rewrite elem_of_elements in Hx;
    [rewrite decide_True|rewrite decide_False]; done.
Qed.

Lemma powered_in_dom m voters v x : powered m voters v x -> x = v \/ x ∈ dom m.
Proof. intros [|x' y _ Hxy _]; [by left|right]. apply elem_of_dom. eauto. Qed.

(** Two distinct voters never share a powered node: the delegation
    chain of a node reaches at most one voter first. *)
Lemma powered_disjoint m voters v w x :
  v ∈ voters -> w ∈ voters -> powered m voters v x -> powered m voters w x -> v = w.
Proof.
  intros Hv Hw Hpv. revert w Hw. induction Hpv as [|x y Hy IH Hxy Hxv]; intros w Hw Hpw.
  - inversion Hpw as [|x' y' _ _ Hn]; [done|]. subst. contradiction.
  - inversion Hpw as [Heq|x' y' Hy' Hxy' _]; [subst; contradiction|].
    subst. rewrite Hxy in Hxy'. injection Hxy' as <-. by apply IH.
Qed.

(** The union of the power sets of a list of voters. *)
Definition power_union (g : DelegationGraph) (voters : gset Z) (l : list Z) : gset Z :=
  foldr (fun v acc => power_set g v voters ∪ acc) ∅ l.

Lemma total_weight_fold (f : Z -> nat) (l : list Z) :
  NoDup l -> total_weight (fold_left (fun w k => <[k := f k]> w) l ∅) = sum_list (map f l).
Proof.
  induction l as [|k l IH] using rev_ind; intros Hnd; [done|].
  apply NoDup_app in Hnd as (Hl & Hk & _).
  rewrite fold_left_app, map_app, sum_list_with_app. simpl. unfold total_weight in *.
  rewrite map_fold_insert_L; [|intros; lia|].
  - rewrite IH by done. simpl. lia.
  - rewrite fold_insert_lookup. rewrite decide_False; [done|]. intros Hin. apply (Hk k Hin). set_solver.
Qed.

Lemma sum_power_union m voters l :
  NoDup l -> (forall v, v ∈ l -> v ∈ voters) ->
  sum_list (map (fun v => resolve_power (new m) v voters) l) = size (power_union (new m) voters l).
Proof.
  induction l as [|v l IH]; intros Hnd Hl; [done|]. apply NoDup_cons in Hnd as [Hv Hnd].
  simpl. rewrite IH by set_solver. rewrite size_union.
  - destruct (resolve_power_correct m v voters) as [-> _]. done.
  - intros x Hx1 Hx2. apply (resolve_power_correct m v voters) in Hx1.
    assert (Hex : exists w, w ∈ l /\ x ∈ power_set (new m) w voters).
    { clear -Hx2. induction l as [|w l IH]; simpl in Hx2; [set_solver|].
      apply elem_of_union in Hx2 as [|Hx2]; [exists w; set_solver|].
      destruct (IH Hx2) as (w' & ? & ?). exists w'. set_solver. }
    destruct Hex as (w & Hw & Hxw). apply (resolve_power_correct m w voters) in Hxw.
    assert (v = w) as -> by (apply (powered_disjoint m voters v w x); set_solver).
    contradiction.
Qed.

Lemma power_union_subseteq m voters l :
  (forall v, v ∈ l -> v ∈ voters) -> power_union (new m) voters l ⊆ voters ∪ dom m.
Proof.
  induction l as [|v l IH]; intros Hl; simpl; [set_solver|].
  apply union_least; [|apply IH; set_solver].
  intros x Hx%(resolve_power_correct m v voters). apply powered_in_dom in Hx as [->|]; set_solver.
Qed.

(** The weights sum to at most the number of voters and delegators. *)
Lemma total_weight_le m voters :
  (total_weight (generate_weights (new m) voters) <= size (voters ∪ dom m))%nat.
Proof.
  unfold generate_weights. rewrite total_weight_fold by apply NoDup_elements.
  rewrite sum_power_union by (try apply NoDup_elements; intros v; apply elem_of_elements).
  apply subseteq_size, power_union_subseteq. intros v. apply elem_of_elements.
Qed.

(** C25: the weights sum to the number of distinct nodes powered by
    some voter, which is at most the number of voters and delegators
    (spec property 7). *)
Theorem total_weight_spec m voters :
  total_weight (generate_weights (new m) voters) = size (power_union (new m) voters (elements voters)) /\
  (total_weight (generate_weights (new m) voters) <= size (voters ∪ dom m))%nat.
Proof.
  unfold generate_weights. rewrite total_weight_fold by apply NoDup_elements.
  rewrite sum_power_union by (try apply NoDup_elements; intros v; apply elem_of_elements).
  split; [done|]. apply subseteq_size, power_union_subseteq. intros v. apply elem_of_elements.
Qed.

(** C35: when every delegator voted, every voter has weight one
    (spec section 4.E; the Rust tests [test_all_cast_weight*]). *)
Theorem all_vote_weight_one m voters x w :
  dom m ⊆ voters ->
  generate_weights (new m) voters !! x = Some w -> w = 1%nat.
Proof.
  intros Hall Hx. rewrite generate_weights_lookup in Hx. case_decide as Hxv; [|done].
  injection Hx as <-. destruct (resolve_power_correct m x voters) as [-> Hp].
  replace (power_set (new m) x voters) with ({[x]} : gset Z); [apply size_singleton|].
  apply set_eq. intros y. rewrite Hp. split; [intros ->%elem_of_singleton; constructor|].
  intros Hy. inversion Hy as [|y' z _ Hyz Hyv]; [set_solver|].
  exfalso. apply Hyv, Hall, elem_of_dom. eauto.
Qed.

(** ** Scenarios of the spec, and witnesses *)

Module Examples.

(** Keys: [a = 1], [b = 2], [c = 3], [d = 4]. *)
Definition star : gmap Z Z := list_to_map [(1, 4); (2, 4); (3, 4)].
Definition cycle : gmap Z Z := list_to_map [(1, 2); (2, 3); (3, 4); (4, 1)].

(** S2: only [d] votes, it carries the power of [a], [b], [c]. *)
Example S2_weights : map_to_list (generate_weights (new star) {[4]}) = [(4, 4%nat)].
Proof. vm_compute. reflexivity. Qed.

(** S3: [b] votes too and keeps its own power. *)
Example S3_weights : generate_weights (new star) {[4; 2]} = <[2 := 1%nat]> {[4 := 3%nat]}.
Proof. vm_compute. reflexivity. Qed.

(** S4: a delegation cycle in which everyone votes. *)
Example S4_weights :
  generate_weights (new cycle) {[1; 2; 3; 4]} =
  <[1 := 1%nat]> (<[2 := 1%nat]> (<[3 := 1%nat]> {[4 := 1%nat]})).
Proof. vm_compute. reflexivity. Qed.

Lemma all_vote_weight_one_witness :
  dom cycle ⊆ ({[1; 2; 3; 4]} : gset Z) /\
  generate_weights (new cycle) {[1; 2; 3; 4]} !! 1 = Some 1%nat /\ 1%nat = 1%nat.
Proof.
  assert (Hd : dom cycle ⊆ ({[1; 2; 3; 4]} : gset Z)) by (apply (bool_decide_eq_true_1 _); vm_compute; reflexivity).
  split; [exact Hd|]. split; [vm_compute; reflexivity|].
  apply (all_vote_weight_one cycle {[1; 2; 3; 4]} 1 1%nat Hd). vm_compute. reflexivity.
Defined.

(** A random graph over the census [[1; 2; 3]] where every key passes
    the draw and picks the next key. *)
Definition draw_next (i : nat) : bool * nat := (true, S i).


End Examples.

End Delegations.
