(* ===== verification/Resolve.v ===== *)
(** * Resolve: the tally of a vote chain (trustee/resolve.rs)

    [Module Resolve] models [generate_vote_result]: the walk over
    [Blockchain::blocks] keeping the latest ballot of every signer, the
    weights of [DelegationGraph::generate_weights], the homomorphic
    weighting and summation, and the final decryption and comparison.
    The two encryptions of zero draw their randomness from [OsRng]; here
    the two draws are arguments.  The theorems show latest-writer-wins
    and that the result is the weighted majority of the retained
    ballots, as long as the weighted totals stay below the Paillier
    modulus (which the delegation bound guarantees for any census
    smaller than the modulus). *)

From S2P Require Import Prelude Crypto Block Chain Delegations.

Module Resolve.

Section Tally.
Context `{Blake3} `{Ed25519} `{Paillier} `{Serialize (Signed Ballot)}.

(** The [entry(signer).and_modify(..).or_insert(..)] update of
    [weighted_votes]: a ballot replaces the current one of its signer
    only when its timestamp is strictly greater. *)
Definition retain (weighted_votes : gmap Z Ballot) (ballot : Signed Ballot) : gmap Z Ballot :=
  match weighted_votes !! signer ballot with
  | Some current_ballot =>
      if decide (timestamp current_ballot < timestamp (data ballot))
      then <[signer ballot := data ballot]> weighted_votes
      else weighted_votes
  | None => <[signer ballot := data ballot]> weighted_votes
  end.

(** The body of the inner loop: [voter_set.insert] then the update. *)
Definition collect_step (acc : gmap Z Ballot * gset Z) (ballot : Signed Ballot)
    : gmap Z Ballot * gset Z :=
  (retain acc.1 ballot, {[signer ballot]} ∪ acc.2).

(** The body of the outer loop: blocks without ballots are skipped. *)
Definition collect_block (acc : gmap Z Ballot * gset Z) (block : Block.Block)
    : gmap Z Ballot * gset Z :=
  match Block.get_ballots block with
  | Some ballots => fold_left collect_step ballots acc
  | None => acc
  end.

(** The first loop of [generate_vote_result]. *)
Definition latest_ballots (blocks : list Block.Block) : gmap Z Ballot * gset Z :=
  fold_left collect_block blocks (∅, ∅).

(** [for (voter, weight) in weight_map]: weight the retained ballot of
    every voter of the weight map. *)
Definition weigh_step (weighted_votes : gmap Z Ballot) (entry : Z * nat) : gmap Z Ballot :=
  let '(voter, w) := entry in alter (fun b => weight b (Z.of_nat w)) voter weighted_votes.

Definition apply_weights (weighted_votes : gmap Z Ballot) (weight_map : gmap Z nat) : gmap Z Ballot :=
  fold_left weigh_step (map_to_list weight_map) weighted_votes.

(** [for ballot in all_ballots { (result_for, result_against) = ballot.sum(..) }]. *)
Definition sum_all (all_ballots : list Ballot) (result_for result_against : ciphertext)
    : ciphertext * ciphertext :=
  fold_left (fun acc b => sum b acc.1 acc.2) all_ballots (result_for, result_against).

(** [generate_vote_result]: [r_for] and [r_against] are the randomness
    of the two encryptions of zero.  [chain.blocks()] panics on a
    missing block, which is the only failure. *)
Definition generate_vote_result (r_for r_against : Z) (chain : Chain.Blockchain)
    (delegations : Delegations.DelegationGraph) : res bool Error :=
  let? blocks := Chain.blocks chain in
  let '(weighted_votes, voter_set) := latest_ballots blocks in
  let weight_map := Delegations.generate_weights delegations voter_set in
  let weighted_votes := apply_weights weighted_votes weight_map in
  let all_ballots := (map_to_list weighted_votes).*2 in
  let '(result_for, result_against) :=
    sum_all all_ballots (encrypt_with_chosen_randomness 0 r_for)
                        (encrypt_with_chosen_randomness 0 r_against) in
  Ok (bool_decide (decrypt result_for > decrypt result_against)).

(** The signed ballots of a list of blocks, in chain order. *)
Definition chain_ballots (blocks : list Block.Block) : list (Signed Ballot) :=
  concat (map Block.ballots_of blocks).

(** The weight map as the integer given to [Ballot::weight]. *)
Definition weight_of (ws : gmap Z nat) (v : Z) : Z := Z.of_nat (default 0%nat (ws !! v)).

(** The plaintext total the tally stands for: every retained ballot's
    plaintext ([plain_for] or [plain_against]) times its signer's
    weight. *)
Definition weighted_total (sel : Ballot -> Z) (wv : gmap Z Ballot) (ws : gmap Z nat) : Z :=
  msum (fun v b => weight_of ws v * sel b) wv.

(** The tally in plaintext that [generate_vote_result] computes under
    encryption: the weighted totals of the retained ballots, with the
    weights of the delegation graph [new m] for the signers of [bs]. *)
Definition tally (sel : Ballot -> Z) (bs : list Block.Block) (m : gmap Z Z) : Z :=
  weighted_total sel (latest_ballots bs).1
    (Delegations.generate_weights (Delegations.new m) (latest_ballots bs).2).

(** ** Latest-writer-wins *)

(** What the retained map says after a prefix [l] of the ballots. *)
Record retained_inv (l : list (Signed Ballot)) (wv : gmap Z Ballot) : Prop := {
  ri_dom : forall s, is_Some (wv !! s) <-> exists sb, sb ∈ l /\ signer sb = s;
  ri_from : forall s b, wv !! s = Some b -> exists sb, sb ∈ l /\ signer sb = s /\ data sb = b;
  ri_latest : forall s b, wv !! s = Some b ->
    forall sb, sb ∈ l -> signer sb = s -> timestamp (data sb) <= timestamp b
}.

Lemma retained_inv_nil : retained_inv [] ∅.
Proof. split; intros s; [|intros b|intros b]; rewrite ?lookup_empty; [|done|done]. split; [by intros []|set_solver]. Qed.

Lemma retain_lookup_ne wv x s : s <> signer x -> retain wv x !! s = wv !! s.
Proof.
  intros Hne. unfold retain.
  destruct (wv !! signer x); [case_decide|]; rewrite ?lookup_insert_ne by done; done.
Qed.

Lemma retain_lookup_eq wv x :
  retain wv x !! signer x =
  Some (match wv !! signer x with
        | Some cur => if decide (timestamp cur < timestamp (data x)) then data x else cur
        | None => data x
        end).
Proof.
  unfold retain. destruct (wv !! signer x) eqn:E; [case_decide|]; rewrite ?lookup_insert_eq; done.
Qed.

Lemma retained_inv_snoc l wv x : retained_inv l wv -> retained_inv (l ++ [x]) (retain wv x).
Proof.
  intros [Hd Hf Hl]. split.
  - intros s. destruct (decide (s = signer x)) as [->|Hne].
    + rewrite retain_lookup_eq. split; [intros _; exists x; set_solver|eauto].
    + rewrite retain_lookup_ne, Hd by done.
      split; intros (sb & Hsb & Hs); exists sb; [set_solver|].
      rewrite elem_of_app, list_elem_of_singleton in Hsb. destruct Hsb as [ | ->]; [done|congruence].
  - intros s b. destruct (decide (s = signer x)) as [->|Hne].
    + rewrite retain_lookup_eq. destruct (wv !! signer x) as [cur|] eqn:E; [case_decide|];
        intros [= <-]; try (exists x; set_solver).
      destruct (Hf _ _ E) as (sb & ? & ? & ?). exists sb. set_solver.
    + rewrite retain_lookup_ne by done. intros Hs. destruct (Hf _ _ Hs) as (sb & ? & ? & ?).
      exists sb. set_solver.
  - intros s b. destruct (decide (s = signer x)) as [->|Hne].
    + rewrite retain_lookup_eq. intros Hb sb Hsb Hsig.
      rewrite elem_of_app, list_elem_of_singleton in Hsb.
      destruct (wv !! signer x) as [cur|] eqn:E; [case_decide|]; injection Hb as <-.
      * destruct Hsb as [Hsb| ->]; [|lia]. pose proof (Hl _ _ E sb Hsb Hsig). lia.
      * destruct Hsb as [Hsb| ->]; [exact (Hl _ _ E sb Hsb Hsig)|lia].
      * destruct Hsb as [Hsb| ->]; [|lia].
        destruct (proj2 (Hd (signer x)) (ex_intro _ sb (conj Hsb Hsig))) as [? Hc]. congruence.
    + rewrite retain_lookup_ne by done. intros Hb sb Hsb Hsig.
      rewrite elem_of_app, list_elem_of_singleton in Hsb.
      destruct Hsb as [Hsb| ->]; [exact (Hl _ _ Hb sb Hsb Hsig)|congruence].
Qed.

Lemma collect_steps l acc :
  fold_left collect_step l acc = (fold_left retain l acc.1, list_to_set (signer <$> l) ∪ acc.2).
Proof.
  revert acc. induction l as [|x l IH]; intros [wv vs]; simpl; [f_equal; set_solver|].
  rewrite IH. simpl. f_equal. set_solver.
Qed.

Lemma latest_ballots_eq bs :
  latest_ballots bs =
  (fold_left retain (chain_ballots bs) ∅, list_to_set (signer <$> chain_ballots bs)).
Proof.
  unfold latest_ballots, chain_ballots.
  assert (Hgen : forall acc, fold_left collect_block bs acc =
    (fold_left retain (concat (map Block.ballots_of bs)) acc.1,
     list_to_set (signer <$> concat (map Block.ballots_of bs)) ∪ acc.2)).
  { induction bs as [|b bs IH]; intros [wv vs]; simpl; [f_equal; set_solver|].
    rewrite IH. unfold collect_block, Block.ballots_of.
    destruct (Block.get_ballots b) as [l|]; simpl.
    - rewrite collect_steps, fold_left_app, fmap_app, list_to_set_app_L. simpl. f_equal. set_solver.
    - done. }
  rewrite Hgen. simpl. f_equal. set_solver.
Qed.

Lemma retain_fold_inv l : retained_inv l (fold_left retain l ∅).
Proof.
  induction l as [|x l IH] using rev_ind; [apply retained_inv_nil|].
  rewrite fold_left_app. simpl. by apply retained_inv_snoc.
Qed.

Lemma elem_of_signers (l : list (Signed Ballot)) s :
  s ∈ (list_to_set (signer <$> l) : gset Z) <-> exists sb, sb ∈ l /\ signer sb = s.
Proof. rewrite elem_of_list_to_set, list_elem_of_fmap. naive_solver. Qed.

Lemma latest_dom bs : dom (latest_ballots bs).1 = (latest_ballots bs).2.
Proof.
  rewrite latest_ballots_eq. simpl. destruct (retain_fold_inv (chain_ballots bs)) as [Hd _ _].
  apply set_eq. intros s. rewrite elem_of_dom, Hd, elem_of_signers. done.
Qed.

(** ** Weighting and summation *)

Lemma weigh_fold_lookup (l : list (Z * nat)) wv v :
  NoDup l.*1 ->
  fold_left weigh_step l wv !! v =
  match (list_to_map l : gmap Z nat) !! v with
  | Some w => (fun b => weight b (Z.of_nat w)) <$> wv !! v
  | None => wv !! v
  end.
Proof.
  revert wv. induction l as [|[k w] l IH]; intros wv Hnd; simpl; [done|].
  apply NoDup_cons in Hnd as [Hk Hnd]. rewrite IH by done.
  destruct (decide (v = k)) as [->|Hne].
  - rewrite lookup_insert_eq, (not_elem_of_list_to_map_1 l k Hk), lookup_alter_eq. done.
  - rewrite lookup_insert_ne by done.
    destruct (list_to_map l !! v); rewrite lookup_alter_ne by done; done.
Qed.

(** The ballot of [v] once weighted by the weight map. *)
Definition weigh (ws : gmap Z nat) (v : Z) (b : Ballot) : Ballot :=
  match ws !! v with Some w => weight b (Z.of_nat w) | None => b end.

Lemma apply_weights_imap wv ws :
  apply_weights wv ws = map_imap (fun v b => Some (weigh ws v b)) wv.
Proof.
  apply map_eq. intros v. rewrite map_lookup_imap. unfold apply_weights.
  rewrite weigh_fold_lookup by apply NoDup_fst_map_to_list. rewrite list_to_map_to_list.
  unfold weigh. destruct (ws !! v), (wv !! v); done.
Qed.

Lemma fold_sum_decrypt l (acc : ciphertext * ciphertext) :
  decrypt acc.1 mod modulus = decrypt acc.1 -> decrypt acc.2 mod modulus = decrypt acc.2 ->
  decrypt (fold_left (fun acc b => sum b acc.1 acc.2) l acc).1 =
    (decrypt acc.1 + foldr Z.add 0 (plain_for <$> l)) mod modulus /\
  decrypt (fold_left (fun acc b => sum b acc.1 acc.2) l acc).2 =
    (decrypt acc.2 + foldr Z.add 0 (plain_against <$> l)) mod modulus.
Proof.
  pose proof modulus_gt_1 as Hn. revert acc.
  induction l as [|b l IH]; intros acc Hrf Hra; simpl.
  - rewrite !Z.add_0_r. done.
  - destruct (IH (sum b acc.1 acc.2)) as [IH1 IH2]; simpl;
      [rewrite decrypt_add; apply Z.mod_mod; lia|rewrite decrypt_add; apply Z.mod_mod; lia|].
    rewrite IH1, IH2. simpl. rewrite !decrypt_add, !Zplus_mod_idemp_l.
    change (decrypt (vote_for b)) with (plain_for b). change (decrypt (vote_against b)) with (plain_against b).
    split; f_equal; rewrite Z.add_assoc; reflexivity.
Qed.

Lemma sum_all_decrypt l rf ra :
  decrypt rf mod modulus = decrypt rf -> decrypt ra mod modulus = decrypt ra ->
  decrypt (sum_all l rf ra).1 = (decrypt rf + foldr Z.add 0 (plain_for <$> l)) mod modulus /\
  decrypt (sum_all l rf ra).2 = (decrypt ra + foldr Z.add 0 (plain_against <$> l)) mod modulus.
Proof. apply (fold_sum_decrypt l (rf, ra)). Qed.

Lemma foldr_values (f : Ballot -> Z) (W : gmap Z Ballot) :
  foldr Z.add 0 (f <$> (map_to_list W).*2) = msum (fun _ b => f b) W.
Proof.
  rewrite msum_to_list, <- list_fmap_compose. f_equal. apply list_fmap_ext. intros i [k a] _. done.
Qed.

Lemma generate_weights_dom g voters : dom (Delegations.generate_weights g voters) = voters.
Proof.
  apply set_eq. intros v. rewrite elem_of_dom, Delegations.generate_weights_lookup.
  case_decide; split; intros Hv; [done|by eexists|by destruct Hv|done].
Qed.

Lemma total_weight_msum ws : Z.of_nat (Delegations.total_weight ws) = msum (fun _ w => Z.of_nat w) ws.
Proof.
  unfold Delegations.total_weight.
  induction ws as [|i x m Hi IH] using map_ind; [rewrite map_fold_empty, msum_empty; done|].
  rewrite map_fold_insert_L; [|intros; lia|done]. rewrite msum_insert by done. lia.
Qed.

Lemma wf_plain_bounds b : ballot_wf b -> (0 <= plain_for b <= 1) /\ (0 <= plain_against b <= 1).
Proof. unfold ballot_wf, plain_for, plain_against. lia. Qed.

(** Under encryption, the sum of the weighted ballots decrypts to the
    weighted plaintext total modulo [n]. *)
Lemma msum_weigh (sel : Ballot -> Z) wv ws :
  (forall b w, sel (weight b w) = (sel b * w) mod modulus) -> dom wv ⊆ dom ws ->
  msum (fun v b => sel (weigh ws v b)) wv mod modulus = weighted_total sel wv ws mod modulus.
Proof.
  intros Hsel Hd. pose proof modulus_gt_1. unfold weighted_total.
  rewrite <- (msum_mod (fun v b => weight_of ws v * sel b)) by lia. f_equal.
  apply msum_ext. intros v b Hb.
  assert (is_Some (ws !! v)) as [w Hw] by (apply elem_of_dom, Hd, elem_of_dom; eauto).
  unfold weigh, weight_of. rewrite Hw, Hsel. simpl. f_equal. lia.
Qed.

(** Each weighted total lies between zero and the total weight. *)
Lemma weighted_total_range (sel : Ballot -> Z) wv ws :
  dom wv = dom ws -> (forall v b, wv !! v = Some b -> 0 <= sel b <= 1) ->
  0 <= weighted_total sel wv ws <= Z.of_nat (Delegations.total_weight ws).
Proof.
  intros Hd Hsel. unfold weighted_total. rewrite total_weight_msum. split.
  - apply msum_nonneg. intros v b Hb. specialize (Hsel v b Hb). unfold weight_of. lia.
  - transitivity (msum (fun v _ => weight_of ws v) wv).
    + apply msum_le. intros v b Hb. specialize (Hsel v b Hb). unfold weight_of. nia.
    + rewrite (msum_dom (weight_of ws) wv ws Hd). apply Z.eq_le_incl, msum_ext.
      intros v w Hw. unfold weight_of. rewrite Hw. done.
Qed.

(** C10: latest-writer-wins.  After the walk over the blocks, the
    voter set is the set of signers of the chain's ballots, the retained
    map has exactly those keys, and the ballot retained for a signer is
    one of its ballots with the greatest timestamp (spec property 9). *)
Theorem latest_ballots_spec bs :
  dom (latest_ballots bs).1 = (latest_ballots bs).2 /\
  (forall s, s ∈ (latest_ballots bs).2 <-> exists sb, sb ∈ chain_ballots bs /\ signer sb = s) /\
  (forall s b, (latest_ballots bs).1 !! s = Some b ->
    (exists sb, sb ∈ chain_ballots bs /\ signer sb = s /\ data sb = b) /\
    forall sb, sb ∈ chain_ballots bs -> signer sb = s -> timestamp (data sb) <= timestamp b).
Proof.
  split; [apply latest_dom|]. rewrite latest_ballots_eq. simpl.
  destruct (retain_fold_inv (chain_ballots bs)) as [_ Hf Hl].
  split; [intros s; apply elem_of_signers|]. intros s b Hb. split; [by apply Hf|by apply Hl].
Qed.

(** C1: when every ballot on the chain is well formed and the
    census (voters and delegators) is smaller than the Paillier modulus,
    [generate_vote_result] returns whether the weighted "for" total of
    the latest ballots exceeds the weighted "against" total: the
    homomorphic sum decrypts to the plaintext tally without wrapping. *)
Theorem generate_vote_result_spec r_for r_against c m bs :
  Chain.blocks c = Ok bs ->
  Forall (fun sb => ballot_wf (data sb)) (chain_ballots bs) ->
  Z.of_nat (size ((latest_ballots bs).2 ∪ dom m)) < modulus ->
  generate_vote_result r_for r_against c (Delegations.new m) =
  Ok (bool_decide (tally plain_for bs m > tally plain_against bs m)).
Proof.
  intros Hb Hwf Hsize. rewrite Forall_forall in Hwf. pose proof modulus_gt_1 as Hn.
  unfold generate_vote_result, tally. rewrite Hb. simpl.
  pose proof (latest_dom bs) as Hdom. pose proof (latest_ballots_eq bs) as Heq.
  destruct (latest_ballots bs) as [wv vs]. simpl in *. injection Heq as Hwv _.
  destruct (retain_fold_inv (chain_ballots bs)) as [_ Hf _]. rewrite <- Hwv in Hf.
  assert (Hsel : forall v b, wv !! v = Some b -> (0 <= plain_for b <= 1) /\ (0 <= plain_against b <= 1)).
  { intros v b Hvb. destruct (Hf v b Hvb) as (sb & Hsb & _ & <-). by apply wf_plain_bounds, Hwf. }
  set (ws := Delegations.generate_weights (Delegations.new m) vs).
  assert (Hd : dom wv = dom ws) by (unfold ws; rewrite generate_weights_dom; done).
  assert (Htot : Z.of_nat (Delegations.total_weight ws) < modulus).
  { pose proof (Delegations.total_weight_le m vs) as Hle. fold ws in Hle. lia. }
  rewrite apply_weights_imap.
  destruct (sum_all_decrypt (map_to_list (map_imap (fun v b => Some (weigh ws v b)) wv)).*2
              (encrypt_with_chosen_randomness 0 r_for) (encrypt_with_chosen_randomness 0 r_against))
    as [D1 D2]; [rewrite decrypt_encrypt; apply Z.mod_mod; lia|rewrite decrypt_encrypt; apply Z.mod_mod; lia|].
  destruct (sum_all _ _ _) as [rf ra]. simpl in D1, D2.
  rewrite D1, D2, !decrypt_encrypt, mod_small_0, !Z.add_0_l, !foldr_values, !msum_imap.
  rewrite (msum_weigh plain_for), (msum_weigh plain_against); try apply plain_for_weight;
    try apply plain_against_weight; try (rewrite Hd; done).
  destruct (weighted_total_range plain_for wv ws Hd) as [Hf1 Hf2]; [intros v b Hvb; apply (Hsel v b Hvb)|].
  destruct (weighted_total_range plain_against wv ws Hd) as [Ha1 Ha2]; [intros v b Hvb; apply (Hsel v b Hvb)|].
  rewrite !Z.mod_small by lia. done.
Qed.

End Tally.

(** ** Scenarios of the spec, and witnesses *)

Module Examples.
Import Toy BlockExamples.

Definition vote (voter t : Z) (verdict : bool) : Signed (@Ballot toy_paillier) :=
  Signed_new voter (Ballot_new verdict "issue" t 1 2).

(** Keys: [a = 1], [b = 2], [c = 3], [d = 4]. *)
Definition star : gmap Z Z := list_to_map [(1, 4); (2, 4); (3, 4)].
Definition pairs : gmap Z Z := list_to_map [(1, 2); (3, 4)].

(** A chain [G, V, E]: [V] holds the ballots, [E] is an empty head
    ([Blockchain::blocks] stops below the head). *)
Definition chain_of (ballots : list (Signed (@Ballot toy_paillier))) : Chain.Blockchain :=
  let blk_V := Block.mkBlock 1 (Block.hash blk_G) 4 [0; 0] (Block.Ballots ballots) z8 in
  let blk_E := Block.mkBlock 2 (Block.hash blk_V) 4 [0; 0] (Block.Ballots []) z8 in
  {| Chain.chain_db := <[3 := blk_E]> (<[2 := blk_V]> {[1 := blk_G]});
     Chain.hash_indexes := ∅; Chain.height := 3; Chain.ballot_pool := []; Chain.signing_key := 9 |}.

(** S2: only [d] votes; yes wins, no loses. *)
Example S2_yes : generate_vote_result 0 0 (chain_of [vote 4 10 true]) (Delegations.new star) = Ok true.
Proof. reflexivity. Qed.

Example S2_no : generate_vote_result 0 0 (chain_of [vote 4 10 false]) (Delegations.new star) = Ok false.
Proof. reflexivity. Qed.

(** S3: [d] votes yes with weight 3, [b] votes no with weight 1. *)
Definition ballots_S3 := [vote 4 10 true; vote 2 11 false].

Example S3_tally : generate_vote_result 0 0 (chain_of ballots_S3) (Delegations.new star) = Ok true.
Proof. reflexivity. Qed.

(** Latest-writer-wins: with [a -> b] and [c -> d], [b] votes yes then
    no and [d] votes yes; only [b]'s later "no" counts, the totals tie
    at two and the result is [false]. *)
Definition ballots_revote := [vote 2 10 true; vote 4 11 true; vote 2 12 false].

Example revote_tally :
  generate_vote_result 0 0 (chain_of ballots_revote) (Delegations.new pairs) = Ok false.
Proof. reflexivity. Qed.

Definition blocks_S3 : list Block.Block :=
  [blk_G; Block.mkBlock 1 (Block.hash blk_G) 4 [0; 0] (Block.Ballots ballots_S3) z8].

Lemma generate_vote_result_spec_witness :
  Chain.blocks (chain_of ballots_S3) = Ok blocks_S3 /\
  Forall (fun sb => ballot_wf (data sb)) (chain_ballots blocks_S3) /\
  Z.of_nat (size ((latest_ballots blocks_S3).2 ∪ dom star)) < modulus /\
  generate_vote_result 0 0 (chain_of ballots_S3) (Delegations.new star) =
    Ok (bool_decide (tally plain_for blocks_S3 star > tally plain_against blocks_S3 star)).
Proof.
  assert (Hb : Chain.blocks (chain_of ballots_S3) = Ok blocks_S3) by reflexivity.
  assert (Hwf : Forall (fun sb => ballot_wf (data sb)) (chain_ballots blocks_S3)).
  { change (Forall (fun sb => ballot_wf (data sb)) ballots_S3). unfold ballots_S3.
    rewrite !Forall_cons, Forall_nil. split_and!; try done.
    all: split; [first [left; reflexivity|right; reflexivity]|reflexivity]. }
  assert (Hs : Z.of_nat (size ((latest_ballots blocks_S3).2 ∪ dom star)) < modulus) by reflexivity.
  split; [exact Hb|]. split; [exact Hwf|]. split; [exact Hs|].
  apply (generate_vote_result_spec 0 0 (chain_of ballots_S3) star blocks_S3 Hb Hwf Hs).
Defined.

End Examples.

End Resolve.
