(* ===== verification/Sync.v ===== *)
(** * Sync: the chain-sync protocol (protocols/chain_sync/protocol.rs)

    [Module Sync] models the two roles of the protocol: [send_sync], the
    initiator that walks back from its height until the peer recognises
    a block hash and then collects the streamed blocks and reorganises,
    and [recv_sync], the responder that answers [NotFound] or streams
    its blocks from the fork point.  Each role is a control state and a
    handler per received message, written from the source.  [Net] puts
    the two roles and the two directions of the stream (FIFO queues of
    frames) together; [net_step] lets the initiator run when it can and
    the responder otherwise, which is the only order the blocking reads
    allow.  The responder returning drops its stream, which the
    initiator reads as the end of the stream. *)

From S2P Require Import Prelude Crypto Block Chain.

Module Sync.

Section SyncModel.
Context `{Blake3} `{Ed25519} `{Paillier} `{Serialize (Signed Ballot)}.

Abbreviation Block := Block.Block.
Abbreviation Blockchain := Chain.Blockchain.

(** [struct SyncRequest]. *)
Record SyncRequest := mkRequest { index : Z; hash : list Z }.

(** [struct ChainSyncInfo]. *)
Record ChainSyncInfo := mkInfo { fork_index : Z; block : Block; remaining : Z }.

(** [enum SyncResponse]. *)
Inductive SyncResponse :=
| Found (result : ChainSyncInfo)
| NotFound.

(** The [CborCodecError::Io] errors the two roles return, by message:
    "Failed to find valid sync point with peer", "Other Error
    Happened", and the two time-outs on the end of the stream. *)
Inductive SyncError :=
| NoSyncPoint
| OtherError
| NoResponse.

(** ** The initiator, [send_sync] *)

(** Control states of [send_sync]: the top of the loop (about to send a
    request), waiting for a frame, and returned. *)
Inductive SendState :=
| SendLoop (height : Z) (block_buffer : list Block)
| SendAwait (height : Z) (block_buffer : list Block)
| SendReturned (r : res unit SyncError).

(** The request at the top of the loop, with
    [get_hash_at(height).unwrap()]. *)
Definition send_request (c : Blockchain) (height : Z) : res SyncRequest SyncError :=
  match Chain.get_hash_at c height with
  | Ok h => Ok (mkRequest height h)
  | _ => Panic
  end.

(** The [match framed_stream.try_next()] of the loop; [None] is the end
    of the stream.  On the last [Found] frame the buffer goes to
    [try_update_longest], whose error is [unwrap]ped in the log line. *)
Definition send_on_response (c : Blockchain) (height : Z) (block_buffer : list Block)
    (response : option SyncResponse) : SendState * Blockchain :=
  match response with
  | Some (Found result) =>
      let block_buffer := block_buffer ++ [block result] in
      if decide (remaining result = 0) then
        let (update_result, c') := Chain.try_update_longest c (fork_index result) block_buffer in
        match update_result with
        | Ok _ => (SendReturned (Ok tt), c')
        | _ => (SendReturned Panic, c')
        end
      else (SendLoop height block_buffer, c)
  | Some NotFound =>
      if decide (height = 1) then (SendReturned (Err NoSyncPoint), c)
      else (SendLoop (height - 1) block_buffer, c)
  | None => (SendReturned (Err NoResponse), c)
  end.

(** ** The responder, [recv_sync] *)

Inductive RecvState :=
| RecvLoop
| RecvReturned (r : res unit SyncError).

(** The [for block in blocks] loop: every send succeeds, so [remaining]
    counts down to zero on the last frame. *)
Fixpoint found_frames (fork : Z) (remaining : Z) (blocks : list Block) : list SyncResponse :=
  match blocks with
  | [] => []
  | b :: rest => Found (mkInfo fork b (remaining - 1)) :: found_frames fork (remaining - 1) rest
  end.

(** One iteration of the loop of [recv_sync] on a received request: the
    frames sent and the next control state.  A failed [blocks_from] is
    logged and streams no block; [blocks.len().try_into().unwrap()]
    panics beyond [u32]. *)
Definition recv_on_request (c : Blockchain) (request : SyncRequest) : list SyncResponse * RecvState :=
  match Chain.get_hash_at c (index request) with
  | Err (BlockNotFound _) => ([], RecvReturned (Err NoSyncPoint))
  | Err _ => ([], RecvReturned (Err OtherError))
  | Panic => ([], RecvReturned Panic)
  | Ok h =>
      if decide (h = hash request) then
        match Chain.blocks_from c (index request) with
        | Panic => ([], RecvReturned Panic)
        | r =>
            let blocks := match r with Ok blocks => blocks | _ => [] end in
            if decide (Z.of_nat (length blocks) < 2 ^ 32) then
              (found_frames (index request) (Z.of_nat (length blocks)) blocks, RecvReturned (Ok tt))
            else ([], RecvReturned Panic)
        end
      else ([NotFound], if decide (index request = 0) then RecvReturned (Err NoSyncPoint) else RecvLoop)
  end.

(** ** The two roles on one stream *)

Record Net := mkNet {
  initiator : SendState;
  chain_a : Blockchain;
  responder : RecvState;
  chain_b : Blockchain;
  to_responder : list SyncRequest;
  to_initiator : list SyncResponse
}.

(** Node [a] opens a sync stream to node [b]. *)
Definition start (a b : Blockchain) : Net :=
  mkNet (SendLoop (Chain.get_height a) []) a RecvLoop b [] [].

(** One step of the conversation; [None] once the initiator returned
    (or, unreachably, when both roles wait). *)
Definition net_step (n : Net) : option Net :=
  match initiator n with
  | SendReturned _ => None
  | SendLoop h buf =>
      Some (match send_request (chain_a n) h with
            | Ok req => mkNet (SendAwait h buf) (chain_a n) (responder n) (chain_b n)
                          (to_responder n ++ [req]) (to_initiator n)
            | Err e => mkNet (SendReturned (Err e)) (chain_a n) (responder n) (chain_b n)
                          (to_responder n) (to_initiator n)
            | Panic => mkNet (SendReturned Panic) (chain_a n) (responder n) (chain_b n)
                          (to_responder n) (to_initiator n)
            end)
  | SendAwait h buf =>
      match to_initiator n with
      | resp :: rest =>
          let (st, c') := send_on_response (chain_a n) h buf (Some resp) in
          Some (mkNet st c' (responder n) (chain_b n) (to_responder n) rest)
      | [] =>
          match responder n with
          | RecvReturned _ =>
              let (st, c') := send_on_response (chain_a n) h buf None in
              Some (mkNet st c' (responder n) (chain_b n) (to_responder n) [])
          | RecvLoop =>
              match to_responder n with
              | req :: rest =>
                  let (out, st) := recv_on_request (chain_b n) req in
                  Some (mkNet (initiator n) (chain_a n) st (chain_b n) rest out)
              | [] => None
              end
          end
      end
  end.

(** Run the conversation for at most [fuel] steps; [None] if it has not
    stopped by then. *)
Fixpoint run (fuel : nat) (n : Net) : option Net :=
  match net_step n with
  | None => Some n
  | Some n' => match fuel with O => None | S fuel' => run fuel' n' end
  end.

(** ** The conversation as a sequential walk *)

(** What the initiator learns, computed in one pass down from height
    [h]: the fork index and the streamed blocks, or how the
    conversation ends. *)
Fixpoint walk (fuel : nat) (a b : Blockchain) (h : Z) : res (Z * list Block) SyncError :=
  match fuel with
  | O => Panic
  | S fuel' =>
      match Chain.get_hash_at a h with
      | Ok ha =>
          match Chain.get_hash_at b h with
          | Ok hb =>
              if decide (hb = ha) then
                match Chain.blocks_from b h with
                | Ok (b0 :: bs) =>
                    if decide (Z.of_nat (length (b0 :: bs)) < 2 ^ 32) then Ok (h, b0 :: bs)
                    else Err NoResponse
                | _ => Err NoResponse
                end
              else if decide (h = 1) then Err NoSyncPoint else walk fuel' a b (h - 1)
          | _ => Err NoResponse
          end
      | _ => Panic
      end
  end.

(** The end of [send_sync] on the collected blocks. *)
Definition finish (a : Blockchain) (fork : Z) (blocks : list Block) : res unit SyncError * Blockchain :=
  let (update_result, a') := Chain.try_update_longest a fork blocks in
  (match update_result with Ok _ => Ok tt | _ => Panic end, a').

(** The outcome of a sync of [a] from [b]: the initiator's result and
    its chain afterwards. *)
Definition sync_spec (a b : Blockchain) : res unit SyncError * Blockchain :=
  match walk (Z.to_nat (Chain.height a)) a b (Chain.height a) with
  | Ok (fork, blocks) => finish a fork blocks
  | Err e => (Err e, a)
  | Panic => (Panic, a)
  end.

(** The initiator's result and chain once it returned. *)
Definition outcome (n : Net) : option (res unit SyncError * Blockchain) :=
  match initiator n with SendReturned r => Some (r, chain_a n) | _ => None end.

(** Enough steps for any conversation: three per walked height, two per
    streamed block. *)
Definition sync_fuel (a b : Blockchain) : nat :=
  (3 * Z.to_nat (Chain.height a) + 2 * Z.to_nat (Chain.height b) + 3)%nat.

(** ** Steps of the conversation *)

Lemma run_unfold k n :
  run k n = match net_step n with
            | None => Some n
            | Some n' => match k with O => None | S k' => run k' n' end
            end.
Proof. destruct k; reflexivity. Qed.

Lemma run_mono k j n n' : run k n = Some n' -> run (k + j) n = Some n'.
Proof.
  revert n. induction k as [|k IH]; intros n; rewrite !run_unfold;
    destruct (net_step n) as [n1|]; try done. simpl. apply IH.
Qed.

Lemma run_step k n n' : net_step n = Some n' -> run (S k) n = run k n'.
Proof. intros E. rewrite run_unfold, E. done. Qed.

Lemma step_send a h buf rb b rq ri ha :
  Chain.get_hash_at a h = Ok ha ->
  net_step (mkNet (SendLoop h buf) a rb b rq ri) =
  Some (mkNet (SendAwait h buf) a rb b (rq ++ [mkRequest h ha]) ri).
Proof. intros E. unfold net_step, send_request. simpl. rewrite E. done. Qed.

Lemma step_recv a h buf b req rest :
  net_step (mkNet (SendAwait h buf) a RecvLoop b (req :: rest) []) =
  Some (mkNet (SendAwait h buf) a (recv_on_request b req).2 b rest (recv_on_request b req).1).
Proof. unfold net_step. cbn [initiator to_initiator responder to_responder chain_b]. destruct (recv_on_request b req). done. Qed.

Lemma step_resp a h buf rb b rq resp rest :
  net_step (mkNet (SendAwait h buf) a rb b rq (resp :: rest)) =
  Some (mkNet (send_on_response a h buf (Some resp)).1 (send_on_response a h buf (Some resp)).2
          rb b rq rest).
Proof. unfold net_step. cbn [initiator to_initiator chain_a chain_b responder to_responder]. destruct (send_on_response a h buf (Some resp)). done. Qed.

Lemma step_eos a h buf r b rq :
  net_step (mkNet (SendAwait h buf) a (RecvReturned r) b rq []) =
  Some (mkNet (SendReturned (Err NoResponse)) a (RecvReturned r) b rq []).
Proof. reflexivity. Qed.

Lemma step_returned r a rb b rq ri : net_step (mkNet (SendReturned r) a rb b rq ri) = None.
Proof. reflexivity. Qed.

Lemma send_on_found_more c h buf r :
  remaining r <> 0 ->
  send_on_response c h buf (Some (Found r)) = (SendLoop h (buf ++ [block r]), c).
Proof. intros Hr. unfold send_on_response. rewrite decide_False by done. done. Qed.

Lemma send_on_found_last c h buf r :
  remaining r = 0 ->
  (SendReturned (finish c (fork_index r) (buf ++ [block r])).1, (finish c (fork_index r) (buf ++ [block r])).2)
  = send_on_response c h buf (Some (Found r)).
Proof.
  intros Hr. unfold send_on_response, finish. rewrite decide_True by done.
  destruct (Chain.try_update_longest _ _ _) as [[] ?]; done.
Qed.

Lemma get_hash_at_present c i blk :
  Chain.chain_db c !! i = Some blk -> Chain.get_hash_at c i = Ok (Block.hash blk).
Proof. intros Hi. unfold Chain.get_hash_at, Chain.get_block. rewrite Hi. done. Qed.

Lemma collect_blocks_length c idx l : Chain.collect_blocks c idx = Ok l -> length l = length idx.
Proof.
  revert l. induction idx as [|i idx IH]; intros l; simpl; [intros [= <-]; done|].
  destruct (Chain.chain_db c !! i); [|done].
  destruct (Chain.collect_blocks c idx) as [l'| |] eqn:E; simpl; try done.
  intros [= <-]. simpl. rewrite (IH l') by done. done.
Qed.

Lemma blocks_from_length c i l :
  Chain.blocks_from c i = Ok l -> length l = Z.to_nat (Chain.height c + 1 - i).
Proof. unfold Chain.blocks_from. intros E. rewrite (collect_blocks_length _ _ _ E), length_seqZ. done. Qed.

(** The streaming phase: the initiator consumes the frames of [bs] one
    by one (re-sending a request after each but the last, which nobody
    reads) and reorganises with the whole buffer. *)
Lemma frames_phase a b h ha buf f bs rq :
  Chain.get_hash_at a h = Ok ha -> bs <> [] ->
  exists n, run (2 * length bs - 1) (mkNet (SendAwait h buf) a (RecvReturned (Ok tt)) b rq
                                        (found_frames f (Z.of_nat (length bs)) bs)) = Some n /\
            outcome n = Some (finish a f (buf ++ bs)).
Proof.
  intros Hh. revert buf rq. induction bs as [|x bs IH]; intros buf rq Hne; [done|].
  destruct bs as [|y bs].
  - change (2 * length [x] - 1)%nat with 1%nat. cbn [found_frames].
    rewrite (run_step _ _ _ (step_resp _ _ _ _ _ _ _ _)).
    rewrite <- send_on_found_last by (simpl; lia). eexists. split; [reflexivity|].
    unfold outcome. simpl. destruct (finish a f (buf ++ [x])). done.
  - replace (2 * length (x :: y :: bs) - 1)%nat with (S (S (2 * length (y :: bs) - 1))) by (simpl; lia).
    cbn [found_frames]. rewrite (run_step _ _ _ (step_resp _ _ _ _ _ _ _ _)).
    rewrite send_on_found_more by (simpl; lia). cbn [fst snd block].
    rewrite (run_step _ _ _ (step_send _ _ _ _ _ _ _ _ Hh)).
    replace (Z.of_nat (length (x :: y :: bs)) - 1) with (Z.of_nat (length (y :: bs))) by (simpl; lia).
    destruct (IH (buf ++ [x]) (rq ++ [mkRequest h ha])) as (n & Hrun & Hout); [done|].
    exists n. split; [exact Hrun|]. rewrite Hout, <- app_assoc. done.
Qed.

(** The end of a walk, as [sync_spec] reads it. *)
Definition walk_outcome (a : Blockchain) (w : res (Z * list Block) SyncError) : res unit SyncError * Blockchain :=
  match w with Ok (fork, blocks) => finish a fork blocks | Err e => (Err e, a) | Panic => (Panic, a) end.

(** The walk phase, by induction on the height still to walk: each
    round is a request, the responder's answer and its handling. *)
Lemma walk_phase a b (k : nat) :
  forall h, Z.to_nat h = k -> 1 <= h ->
  (forall i, 1 <= i <= h -> is_Some (Chain.chain_db a !! i)) ->
  exists j n, (j <= 3 * k + 2 * Z.to_nat (Chain.height b))%nat /\
    run j (mkNet (SendLoop h []) a RecvLoop b [] []) = Some n /\
    outcome n = Some (walk_outcome a (walk k a b h)).
Proof.
  induction k as [|k IH]; intros h Hk Hh1 Ha; [lia|].
  destruct (Ha h) as [blk Hblk]; [lia|].
  pose proof (get_hash_at_present a h blk Hblk) as Hha. set (ha := Block.hash blk) in *.
  assert (Hpre : forall j n, run j (mkNet (SendAwait h []) a (recv_on_request b (mkRequest h ha)).2 b []
                                        (recv_on_request b (mkRequest h ha)).1) = Some n ->
                 run (S (S j)) (mkNet (SendLoop h []) a RecvLoop b [] []) = Some n).
  { intros j n Hj. rewrite (run_step _ _ _ (step_send _ _ _ _ _ _ _ _ Hha)). cbn [app].
    rewrite (run_step _ _ _ (step_recv _ _ _ _ _ _)). exact Hj. }
  assert (Hsilent : forall r, recv_on_request b (mkRequest h ha) = ([], RecvReturned r) ->
    exists j n, (j <= 3 * S k + 2 * Z.to_nat (Chain.height b))%nat /\
      run j (mkNet (SendLoop h []) a RecvLoop b [] []) = Some n /\
      outcome n = Some (Err NoResponse, a)).
  { intros r Hr. exists 3%nat. eexists. split; [lia|].
    split; [apply Hpre; rewrite Hr; cbn [fst snd]; rewrite (run_step _ _ _ (step_eos _ _ _ _ _ _)); reflexivity|reflexivity]. }
  cbn [walk]. rewrite Hha. unfold recv_on_request in Hpre, Hsilent. cbn [index hash] in Hpre, Hsilent.
  destruct (Chain.get_hash_at b h) as [hb|e|] eqn:Hb.
  - destruct (decide (hb = ha)) as [Heq|Hne].
    + subst hb.
      destruct (Chain.blocks_from b h) as [[|x xs]|e|] eqn:Hl.
      * apply (Hsilent (Ok tt)). done.
      * destruct (decide (Z.of_nat (length (x :: xs)) < 2 ^ 32)) as [Hlen|Hlen]; [|by apply (Hsilent Panic)].
        destruct (frames_phase a b h ha [] h (x :: xs) [] Hha) as (n & Hrun & Hout); [done|].
        exists (S (S (2 * length (x :: xs) - 1))), n. split; [|split].
        -- pose proof (blocks_from_length b h _ Hl). lia.
        -- apply Hpre. cbn [fst snd]. exact Hrun.
        -- rewrite Hout. done.
      * apply (Hsilent (Ok tt)). done.
      * apply (Hsilent Panic). done.
    + assert (Hh0 : h <> 0) by lia.
      rewrite (decide_False _ _ Hh0) in Hpre.
      cbn [fst snd] in Hpre.
      destruct (decide (h = 1)) as [->|Hh].
      * exists 3%nat. eexists. split; [lia|].
        split; [apply Hpre; rewrite (run_step _ _ _ (step_resp _ _ _ _ _ _ _ _)); reflexivity|reflexivity].
      * destruct (IH (h - 1)) as (j & n & Hj & Hrun & Hout); [lia|lia|intros i Hi; apply Ha; lia|].
        exists (S (S (S j))), n. split; [lia|]. split; [|exact Hout].
        apply Hpre. rewrite (run_step _ _ _ (step_resp _ _ _ _ _ _ _ _)).
        unfold send_on_response. rewrite decide_False by done. exact Hrun.
  - destruct e; [| |apply (Hsilent (Err NoSyncPoint)); done|]; apply (Hsilent (Err OtherError)); done.
  - apply (Hsilent Panic). done.
Qed.

(** C4: the conversation of [send_sync] on a well-formed chain [a]
    with [recv_sync] on any chain [b] stops within [sync_fuel a b]
    steps, and the initiator's result and chain are those of the
    sequential walk [sync_spec]: the message-passing protocol refines
    the walk-back-then-reorganise specification of spec section 4.D. *)
Theorem sync_refines a b :
  Chain.chain_wf a ->
  exists n, run (sync_fuel a b) (start a b) = Some n /\ outcome n = Some (sync_spec a b).
Proof.
  intros Hwf. pose proof (Chain.wf_height a Hwf) as Hh1.
  destruct (walk_phase a b (Z.to_nat (Chain.height a)) (Chain.height a) eq_refl Hh1
              (Chain.wf_present a Hwf)) as (j & n & Hj & Hrun & Hout).
  exists n. split.
  - unfold sync_fuel, start, Chain.get_height.
    replace (3 * Z.to_nat (Chain.height a) + 2 * Z.to_nat (Chain.height b) + 3)%nat
      with (j + (3 * Z.to_nat (Chain.height a) + 2 * Z.to_nat (Chain.height b) + 3 - j))%nat by lia.
    apply run_mono. exact Hrun.
  - rewrite Hout. unfold sync_spec, walk_outcome. done.
Qed.

(** ** What a sync does *)

(** The blocks a well-formed chain streams from [f] are its blocks
    [f..=height], and they form a valid chain. *)
Lemma blocks_from_wf c f :
  Chain.chain_wf c -> 1 <= f <= Chain.height c ->
  exists l, Chain.blocks_from c f = Ok l /\ length l = Z.to_nat (Chain.height c + 1 - f) /\
    (forall k, (k < length l)%nat -> l !! k = Chain.chain_db c !! (f + Z.of_nat k)) /\
    Chain.is_valid_chain l = true.
Proof.
  intros Hwf Hf. unfold Chain.blocks_from.
  destruct (Chain.collect_blocks_range c f (Z.to_nat (Chain.height c + 1 - f))) as (l & Hl & Hlen & Hk).
  { intros i Hi. apply (Chain.wf_present c Hwf). lia. }
  rewrite Z2Nat.id in Hl by lia. exists l. split; [done|]. split; [done|].
  split; [intros k Hlt; apply Hk; lia|].
  apply Chain.is_valid_chain_spec. intros k x y Hx Hy.
  pose proof (lookup_lt_Some _ _ _ Hy) as Hlt.
  rewrite Hk in Hx, Hy by lia.
  apply (Chain.wf_linked c Hwf (f + Z.of_nat (S k))); [lia| |done].
  replace (f + Z.of_nat (S k) - 1) with (f + Z.of_nat k) by lia. done.
Qed.

(** The walk from a height [h] down to the fork [f], the highest index
    at which the two chains have the same hash. *)
Lemma walk_to_fork a b f l :
  Chain.chain_wf a -> Chain.chain_wf b -> 1 <= f -> Chain.height a <= Chain.height b ->
  Chain.get_hash_at b f = Chain.get_hash_at a f ->
  (forall i, f < i <= Chain.height a -> Chain.get_hash_at b i <> Chain.get_hash_at a i) ->
  Chain.blocks_from b f = Ok l -> l <> [] -> Z.of_nat (length l) < 2 ^ 32 ->
  forall d h, Z.to_nat (h - f) = d -> f <= h <= Chain.height a -> walk (Z.to_nat h) a b h = Ok (f, l).
Proof.
  intros Ha Hb Hf Hab Heq Hne Hl Hl0 Hlen d. induction d as [|d IH]; intros h Hd Hh.
  - assert (h = f) as -> by lia.
    destruct (Chain.wf_present a Ha f) as [af Haf]; [lia|].
    rewrite (get_hash_at_present _ _ _ Haf) in Heq.
    replace (Z.to_nat f) with (S (Z.to_nat (f - 1))) by lia. cbn [walk].
    rewrite (get_hash_at_present _ _ _ Haf), Heq, decide_True, Hl by done.
    destruct l as [|x xs]; [done|]. rewrite decide_True by done. done.
  - destruct (Chain.wf_present a Ha h) as [ah Hah]; [lia|].
    destruct (Chain.wf_present b Hb h) as [bh Hbh]; [lia|].
    specialize (Hne h ltac:(lia)).
    rewrite (get_hash_at_present _ _ _ Hah), (get_hash_at_present _ _ _ Hbh) in Hne.
    replace (Z.to_nat h) with (S (Z.to_nat (h - 1))) by lia. cbn [walk].
    rewrite (get_hash_at_present _ _ _ Hah), (get_hash_at_present _ _ _ Hbh).
    rewrite decide_False by congruence. rewrite decide_False by lia.
    apply IH; lia.
Qed.

(** C8: spec property 10.  If [a] and [b] are well formed, [b]
    is at least as high as [a], [f] is the highest index of [a] at which
    both chains have the same block hash, and [b]'s height fits a
    [u32], then syncing [a] from [b] succeeds and leaves [a] with [b]'s
    height, [b]'s blocks from [f] on, and its own blocks below [f].
    [b] need not be strictly higher: an equally high peer chain is
    adopted too. *)
Theorem sync_converges a b f :
  Chain.chain_wf a -> Chain.chain_wf b -> 1 <= f <= Chain.height a ->
  Chain.height a <= Chain.height b -> Chain.height b < 2 ^ 32 ->
  Chain.get_hash_at b f = Chain.get_hash_at a f ->
  (forall i, f < i <= Chain.height a -> Chain.get_hash_at b i <> Chain.get_hash_at a i) ->
  exists a', sync_spec a b = (Ok tt, a') /\ Chain.height a' = Chain.height b /\
    (forall i, f <= i <= Chain.height b -> Chain.chain_db a' !! i = Chain.chain_db b !! i) /\
    (forall i, i < f -> Chain.chain_db a' !! i = Chain.chain_db a !! i).
Proof.
  intros Ha Hb Hf Hab Hmax Heq Hne.
  destruct (blocks_from_wf b f Hb ltac:(lia)) as (l & Hl & Hlen & Hk & Hv).
  assert (Hl0 : l <> []) by (intros ->; simpl in Hlen; lia).
  assert (Hw : walk (Z.to_nat (Chain.height a)) a b (Chain.height a) = Ok (f, l)).
  { apply (walk_to_fork a b f l Ha Hb ltac:(lia) Hab Heq Hne Hl Hl0 ltac:(lia) _ _ eq_refl). lia. }
  unfold sync_spec. rewrite Hw. unfold finish.
  assert (Hpre : Chain.reorg_pre a f l).
  { destruct l as [|first rest]; [done|].
    destruct (Chain.wf_present a Ha f) as [af Haf]; [lia|].
    exists first, rest, af. split; [done|]. split; [done|]. split; [|done].
    pose proof (Hk 0%nat ltac:(simpl; lia)) as Hk0. simpl in Hk0. rewrite Z.add_0_r in Hk0.
    rewrite (get_hash_at_present _ _ _ Haf), (get_hash_at_present b f first) in Heq by done.
    congruence. }
  apply Chain.reorg_ok_iff in Hpre.
  destruct (Chain.try_update_longest a f l) as [[r| |] a'] eqn:E; try done.
  destruct (Chain.reorg_effect _ _ _ _ _ E) as (_ & Hh & Hdb & _).
  exists a'. split; [done|]. split; [lia|]. split.
  - intros i Hi. rewrite Hdb. unfold Chain.reorged_db. rewrite decide_True by lia.
    rewrite Hk by lia. f_equal. lia.
  - intros i Hi. rewrite Hdb. unfold Chain.reorged_db. rewrite !decide_False by lia. done.
Qed.

(** C23: a peer without a block at the initiator's height (a
    shorter peer chain) ends the sync with the end-of-stream error and
    leaves the initiator's chain unchanged: the responder returns
    without answering (spec section 4.D, responder, first case). *)
Theorem sync_behind a b :
  Chain.chain_wf a -> Chain.chain_db b !! Chain.height a = None ->
  sync_spec a b = (Err NoResponse, a).
Proof.
  intros Ha Hb. pose proof (Chain.wf_height a Ha).
  destruct (Chain.wf_present a Ha (Chain.height a)) as [ah Hah]; [lia|].
  unfold sync_spec. replace (Z.to_nat (Chain.height a)) with (S (Z.to_nat (Chain.height a - 1))) by lia.
  cbn [walk]. rewrite (get_hash_at_present _ _ _ Hah).
  unfold Chain.get_hash_at at 1, Chain.get_block. rewrite Hb. done.
Qed.

Lemma walk_mismatch a b :
  Chain.chain_wf a ->
  forall d h, Z.to_nat h = d -> 1 <= h <= Chain.height a ->
  (forall i, 1 <= i <= h -> exists hb, Chain.get_hash_at b i = Ok hb /\ Ok hb <> Chain.get_hash_at a i) ->
  walk d a b h = Err NoSyncPoint.
Proof.
  intros Ha d. induction d as [|d IH]; intros h Hd Hh Hne; [lia|].
  destruct (Chain.wf_present a Ha h) as [ah Hah]; [lia|].
  destruct (Hne h ltac:(lia)) as (hb & Hb & Hdiff). rewrite (get_hash_at_present _ _ _ Hah) in Hdiff.
  cbn [walk]. rewrite (get_hash_at_present _ _ _ Hah), Hb, decide_False by congruence.
  destruct (decide (h = 1)) as [|Hh1]; [done|].
  apply IH; [lia|lia|]. intros i Hi. apply Hne. lia.
Qed.

(** C24: when every block of the initiator's chain has a
    different hash at the peer (no common ancestor, not even the
    genesis block), the walk reaches height 1 and the sync fails with
    "no valid sync point", leaving the chain unchanged (spec S6, second
    outcome). *)
Theorem sync_no_sync_point a b :
  Chain.chain_wf a ->
  (forall i, 1 <= i <= Chain.height a ->
     exists hb, Chain.get_hash_at b i = Ok hb /\ Ok hb <> Chain.get_hash_at a i) ->
  sync_spec a b = (Err NoSyncPoint, a).
Proof.
  intros Ha Hne. pose proof (Chain.wf_height a Ha). unfold sync_spec.
  rewrite (walk_mismatch a b Ha _ (Chain.height a) eq_refl) by (done || lia). done.
Qed.

End SyncModel.

(** ** Scenarios and witnesses *)

Module Examples.
Import Toy BlockExamples.

Definition blk (ts : Z) (prev : Block.Block) : Block.Block :=
  Block.mkBlock ts (Block.hash prev) 1 [0; 0] (Block.Ballots []) z8.

Definition chain_of (blocks : list Block.Block) : Chain.Blockchain :=
  {| Chain.chain_db := list_to_map (zip (seqZ 1 (Z.of_nat (length blocks))) blocks);
     Chain.hash_indexes := ∅; Chain.height := Z.of_nat (length blocks);
     Chain.ballot_pool := []; Chain.signing_key := 1 |}.

Definition A2 := blk 10 blk_G.
Definition A3 := blk 11 A2.
Definition B2 := blk 20 blk_G.
Definition B3 := blk 21 B2.
Definition B4 := blk 22 B3.

(** [A] and [B] share only the genesis block; [B] is one block higher. *)
Definition chain_A := chain_of [blk_G; A2; A3].
Definition chain_B := chain_of [blk_G; B2; B3; B4].
(** A peer as high as [A]. *)
Definition chain_B' := chain_of [blk_G; B2; B3].
(** A peer that only has the genesis block. *)
Definition chain_short := chain_of [blk_G].
(** A peer with another genesis block. *)
Definition X1 := Block.mkBlock 0 (repeat 1 32) 1 [0; 0] (Block.Genesis "") z8.
Definition chain_X := chain_of [X1; blk 10 X1; blk 11 (blk 10 X1)].

Lemma ok_inj {A E} (x y : A) : @Ok A E x = Ok y -> x = y.
Proof. intros H. by injection H. Qed.

Lemma blk_hash ts p : Block.hash (blk ts p) = to_be_bytes 16 ts ++ Block.hash p.
Proof. unfold Block.hash at 1, Block.hash_input. simpl. rewrite app_nil_r. reflexivity. Qed.

(** The hash of a block built by [blk] determines its timestamp and its
    predecessor's hash. *)
Lemma blk_hash_inj ts ts' p p' :
  0 <= ts < 2 ^ 128 -> 0 <= ts' < 2 ^ 128 ->
  Block.hash (blk ts p) = Block.hash (blk ts' p') -> ts = ts' /\ Block.hash p = Block.hash p'.
Proof.
  rewrite !blk_hash. intros Hts Hts' E.
  apply app_inj_1 in E as [E1 E2]; [|rewrite !length_to_be_bytes; done].
  split; [|done]. apply (to_be_bytes_inj 16); [lia|lia|done].
Qed.

Lemma genesis_hashes_differ : Block.hash X1 <> Block.hash blk_G.
Proof.
  change (to_be_bytes 16 0 ++ repeat 1 32 ++ [] <> to_be_bytes 16 0 ++ repeat 0 32 ++ []).
  intros E. apply app_inv_head in E. discriminate.
Qed.

Lemma chain_A_wf : Chain.chain_wf chain_A.
Proof. apply Chain.chain_wf_b_sound. reflexivity. Qed.

Lemma chain_B_wf : Chain.chain_wf chain_B.
Proof. apply Chain.chain_wf_b_sound. reflexivity. Qed.

(** Spec S6 with a higher peer: the walk goes down to the genesis block
    and [A] ends with [B]'s chain. *)
Example S6_sync :
  option_map (fun n => (outcome n, Chain.chain_db (chain_a n)))
    (run (sync_fuel chain_A chain_B) (start chain_A chain_B)) =
  Some (Some (Ok tt, (chain_a (default (start chain_A chain_B)
            (run (sync_fuel chain_A chain_B) (start chain_A chain_B))))),
        Chain.chain_db chain_B).
Proof. reflexivity. Qed.

(** An equally high peer chain replaces the local one as well. *)
Example equal_height_adopted :
  option_map (fun n => (Chain.chain_db (chain_a n), Chain.height (chain_a n)))
    (run (sync_fuel chain_A chain_B') (start chain_A chain_B')) =
  Some (Chain.chain_db chain_B', 3).
Proof. reflexivity. Qed.

Lemma sync_refines_witness :
  Chain.chain_wf chain_A /\
  exists n, run (sync_fuel chain_A chain_B) (start chain_A chain_B) = Some n /\
    outcome n = Some (sync_spec chain_A chain_B).
Proof. split; [exact chain_A_wf|]. apply sync_refines. exact chain_A_wf. Defined.

Lemma sync_converges_witness :
  exists a', sync_spec chain_A chain_B = (Ok tt, a') /\ Chain.height a' = Chain.height chain_B /\
    (forall i, 1 <= i <= Chain.height chain_B -> Chain.chain_db a' !! i = Chain.chain_db chain_B !! i) /\
    (forall i, i < 1 -> Chain.chain_db a' !! i = Chain.chain_db chain_A !! i).
Proof.
  apply (sync_converges chain_A chain_B 1 chain_A_wf chain_B_wf); cbn; try lia; [reflexivity|].
  intros i Hi. assert (i = 2 \/ i = 3) as [-> | ->] by lia.
  - change (Ok (Block.hash (blk 20 blk_G)) <> Ok (Block.hash (blk 10 blk_G)) :> res _ Error).
    intros E%ok_inj. apply blk_hash_inj in E as [E _]; lia.
  - change (Ok (Block.hash (blk 21 B2)) <> Ok (Block.hash (blk 11 A2)) :> res _ Error).
    intros E%ok_inj. apply blk_hash_inj in E as [E _]; lia.
Defined.

Lemma sync_behind_witness :
  Chain.chain_wf chain_A /\ Chain.chain_db chain_short !! Chain.height chain_A = None /\
  sync_spec chain_A chain_short = (Err NoResponse, chain_A).
Proof.
  assert (Hn : Chain.chain_db chain_short !! Chain.height chain_A = None) by reflexivity.
  split; [exact chain_A_wf|]. split; [exact Hn|]. apply (sync_behind _ _ chain_A_wf Hn).
Defined.

Lemma sync_no_sync_point_witness :
  sync_spec chain_A chain_X = (Err NoSyncPoint, chain_A).
Proof.
  apply (sync_no_sync_point _ _ chain_A_wf). intros i Hi.
  assert (i = 1 \/ i = 2 \/ i = 3) as [-> | [-> | ->]] by (cbn in Hi; lia);
    eexists; (split; [reflexivity|]).
  - change (Ok (Block.hash X1) <> Ok (Block.hash blk_G) :> res _ Error).
    intros E%ok_inj. by apply genesis_hashes_differ.
  - change (Ok (Block.hash (blk 10 X1)) <> Ok (Block.hash (blk 10 blk_G)) :> res _ Error).
    intros E%ok_inj. apply blk_hash_inj in E as [_ E]; [|lia..]. by apply genesis_hashes_differ.
  - change (Ok (Block.hash (blk 11 (blk 10 X1))) <> Ok (Block.hash (blk 11 (blk 10 blk_G))) :> res _ Error).
    intros E%ok_inj. apply blk_hash_inj in E as [_ E]; [|lia..].
    apply blk_hash_inj in E as [_ E]; [|lia..]. by apply genesis_hashes_differ.
Defined.

End Examples.

End Sync.
