(* ===== verification/Behaviour.v ===== *)
(** * Behaviour: the sync connection handler and network behaviour
      (protocols/chain_sync/handler.rs, behaviour.rs)

    [Module Handler] models the per-connection [Handler]: its queue of
    events for the swarm and its two protocol futures, which the model
    keeps as present or absent (what they compute is [Sync]); a poll of
    a future is an input, [Pending] or [Ready] with its result.
    [Module SyncBehaviour] models the network [Behaviour]: its event
    queue, its set of sync peers, [force_sync], [heartbeat] with the
    random draw of [choose] as an input, [poll] with the ticker's firing
    as an input, and the swarm events.  Each is a state record with one
    function per method, and a step relation whose reachable states
    carry the invariants. *)

From S2P Require Import Prelude Crypto Block Chain Sync.

(** ** The connection handler (handler.rs) *)

Module Handler.

Section HandlerModel.
Context `{Blake3} `{Ed25519} `{Paillier} `{Serialize (Signed Ballot)}.

(** [behaviour::Event], the handler's [ToBehaviour] type. *)
Inductive Event := ResolveReady.

(** [enum InEvent]. *)
Inductive InEvent := ForceSync.

(** [enum OutEvent]: declared for the behaviour, never built. *)
Inductive OutEvent :=
| SyncPointFound (info : Sync.ChainSyncInfo)
| SyncError.

(** The [ConnectionHandlerEvent]s a handler can return. *)
Inductive ConnectionHandlerEvent :=
| OutboundSubstreamRequest
| NotifyBehaviour (e : Event).

(** The two boxed futures: [recv_sync] for inbound, [send_sync] for
    outbound substreams. *)
Inductive SyncFuture := ListenFuture | SendFuture.

(** A poll result. *)
Inductive Poll (A : Type) := Ready (a : A) | Pending.
Arguments Ready {A}.
Arguments Pending {A}.

(** The libp2p connection events the handler distinguishes. *)
Inductive ConnectionEvent :=
| FullyNegotiatedInbound
| FullyNegotiatedOutbound
| DialUpgradeError
| OtherConnectionEvent.

(** [struct Handler]; the shared chain is not part of its own state. *)
Record Handler := mkHandler {
  events : list ConnectionHandlerEvent;
  inbound : option SyncFuture;
  outbound : option SyncFuture
}.

(** [Handler::new]. *)
Definition new : Handler := mkHandler [] None None.

(** [on_connection_event]: a negotiated substream starts the matching
    protocol future, replacing (dropping) a running one. *)
Definition on_connection_event (h : Handler) (event : ConnectionEvent) : Handler :=
  match event with
  | FullyNegotiatedInbound => mkHandler (events h) (Some ListenFuture) (outbound h)
  | FullyNegotiatedOutbound => mkHandler (events h) (inbound h) (Some SendFuture)
  | DialUpgradeError => h
  | OtherConnectionEvent => h
  end.

(** [on_behaviour_event]: [ForceSync] queues a request for an outbound
    substream. *)
Definition on_behaviour_event (h : Handler) (event : InEvent) : Handler :=
  match event with
  | ForceSync => mkHandler (events h ++ [OutboundSubstreamRequest]) (inbound h) (outbound h)
  end.

(** One future polled: a ready future, whatever its result, is dropped. *)
Definition poll_future (fut : option SyncFuture) (p : Poll (res unit Sync.SyncError))
    : option SyncFuture :=
  match fut with
  | Some f => match p with Pending => Some f | Ready _ => None end
  | None => None
  end.

(** [Handler::poll]: a queued event first ([pop_front]); otherwise the
    inbound then the outbound future is polled ([poll_in], [poll_out]
    are their results) and the handler returns [Pending]. *)
Definition poll (h : Handler) (poll_in poll_out : Poll (res unit Sync.SyncError))
    : Poll ConnectionHandlerEvent * Handler :=
  match events h with
  | event :: rest => (Ready event, mkHandler rest (inbound h) (outbound h))
  | [] => (Pending, mkHandler [] (poll_future (inbound h) poll_in) (poll_future (outbound h) poll_out))
  end.

(** The handler's transitions: any method, with any poll results. *)
Inductive step : Handler -> Handler -> Prop :=
| step_connection h ev : step h (on_connection_event h ev)
| step_behaviour h ev : step h (on_behaviour_event h ev)
| step_poll h p_in p_out : step h (poll h p_in p_out).2.

(** Only substream requests are ever queued. *)
Definition only_requests (h : Handler) : Prop :=
  Forall (fun e => e = OutboundSubstreamRequest) (events h).

Lemma only_requests_step h h' : only_requests h -> step h h' -> only_requests h'.
Proof.
  unfold only_requests. intros Hh Hs. destruct Hs as [h0 ev|h0 []|h0 p_in p_out].
  - destruct ev; simpl; done.
  - simpl. apply Forall_app. split; [done|]. by apply Forall_singleton.
  - unfold poll. destruct (events h0) as [|e rest] eqn:E; simpl; [done|].
    by apply Forall_cons in Hh as [_ ?].
Qed.

(** C20: in every state a handler reaches from [Handler::new],
    [poll] returns no event but substream requests: the outcome of a
    sync ([OutEvent], or any [ToBehaviour] event) is never reported to
    the behaviour. *)
Theorem handler_never_notifies h p_in p_out e :
  rtc step new h -> (poll h p_in p_out).1 <> Ready (NotifyBehaviour e).
Proof.
  intros Hr. assert (Hinv : only_requests h).
  { apply (rtc_preserve step only_requests new); [apply only_requests_step|constructor|done]. }
  unfold poll. unfold only_requests in Hinv.
  destruct (events h) as [|e' rest]; simpl; [done|].
  apply Forall_cons in Hinv as [-> _]. done.
Qed.

End HandlerModel.

Arguments Ready {A}.
Arguments Pending {A}.

End Handler.

(** ** The network behaviour (behaviour.rs) *)

Module SyncBehaviour.
Import Handler.

Section BehaviourModel.
Context `{Blake3} `{Ed25519} `{Paillier} `{Serialize (Signed Ballot)}.

(** [NotifyHandler] targets. *)
Inductive NotifyHandler := Any | One (connection : Z).

(** The [ToSwarm] values the behaviour queues. *)
Inductive ToSwarm :=
| GenerateEvent (e : Event)
| NotifyHandlerEv (peer_id : Z) (event : InEvent) (handler : NotifyHandler).

(** The swarm events [on_swarm_event] distinguishes. *)
Inductive FromSwarm :=
| ConnectionEstablished (peer_id : Z)
| ConnectionClosed (peer_id : Z)
| OtherSwarmEvent.

(** [struct Behaviour] without the shared chain (see [Node]) and the
    ticker (its firing is an input of [poll]). *)
Record Behaviour := mkBehaviour {
  bevents : list ToSwarm;
  sync_peers : gset Z
}.

(** [Behaviour::new]. *)
Definition new : Behaviour := mkBehaviour [] ∅.

(** [force_sync]: [push_back] of a [ForceSync] notification. *)
Definition force_sync (b : Behaviour) (peer_id : Z) : Behaviour :=
  mkBehaviour (bevents b ++ [NotifyHandlerEv peer_id ForceSync Any]) (sync_peers b).

(** [heartbeat]: a random known peer is sent a sync request; [peers_vec]
    is the set in iteration order. *)
Definition heartbeat (b : Behaviour) (r : nat) : Behaviour :=
  let peers_vec := elements (sync_peers b) in
  match choose peers_vec r with
  | Some peer_id => force_sync b peer_id
  | None => b
  end.

(** [add_explicit_peer]. *)
Definition add_explicit_peer (b : Behaviour) (peer_id : Z) : Behaviour :=
  mkBehaviour (bevents b) ({[peer_id]} ∪ sync_peers b).

(** [on_swarm_event]. *)
Definition on_swarm_event (b : Behaviour) (event : FromSwarm) : Behaviour :=
  match event with
  | ConnectionEstablished peer_id => mkBehaviour (bevents b) ({[peer_id]} ∪ sync_peers b)
  | ConnectionClosed peer_id => mkBehaviour (bevents b) (sync_peers b ∖ {[peer_id]})
  | OtherSwarmEvent => b
  end.

(** [on_connection_handler_event]: the handler's events are dropped. *)
Definition on_connection_handler_event (b : Behaviour) (peer_id : Z) (event : Event) : Behaviour := b.

(** [NetworkBehaviour::poll]: [pop_back] of the queue; otherwise, when
    the ticker fired ([tick]), a heartbeat with draw [r], and
    [Pending]. *)
Definition poll (b : Behaviour) (tick : bool) (r : nat) : Poll ToSwarm * Behaviour :=
  match last (bevents b) with
  | Some event => (Ready event, mkBehaviour (removelast (bevents b)) (sync_peers b))
  | None => (Pending, if tick then heartbeat b r else b)
  end.

(** The behaviour's transitions: any method with any input. *)
Inductive step : Behaviour -> Behaviour -> Prop :=
| step_force_sync b p : step b (force_sync b p)
| step_heartbeat b r : step b (heartbeat b r)
| step_add_peer b p : step b (add_explicit_peer b p)
| step_swarm b ev : step b (on_swarm_event b ev)
| step_handler_event b p e : step b (on_connection_handler_event b p e)
| step_poll b tick r : step b (poll b tick r).2.

(** ** Laws *)

(** Every queued notification is a [ForceSync] for some peer. *)
Definition only_force_sync (b : Behaviour) : Prop :=
  Forall (fun e => exists p, e = NotifyHandlerEv p ForceSync Any) (bevents b).

Lemma only_force_sync_push b p : only_force_sync b -> only_force_sync (force_sync b p).
Proof. intros Hb. apply Forall_app. split; [done|]. apply Forall_singleton. eauto. Qed.

Lemma only_force_sync_step b b' : only_force_sync b -> step b b' -> only_force_sync b'.
Proof.
  intros Hb Hs. destruct Hs as [b0 p|b0 r|b0 p|b0 []|b0 p e|b0 tick r]; try done.
  - by apply only_force_sync_push.
  - unfold heartbeat. destruct (choose _ _); [by apply only_force_sync_push|done].
  - unfold poll. destruct (last (bevents b0)) as [e|] eqn:E.
    + unfold only_force_sync in *. simpl. apply last_Some in E as [l' El].
      rewrite El in Hb |- *. rewrite removelast_last. by apply Forall_app in Hb as [? _].
    + destruct tick; [unfold heartbeat; destruct (choose _ _); [by apply only_force_sync_push|done]|done].
Qed.

Lemma poll_force_sync b p tick r :
  poll (force_sync b p) tick r = (Ready (NotifyHandlerEv p ForceSync Any), b).
Proof. unfold poll, force_sync. simpl. rewrite last_snoc, removelast_last. by destruct b. Qed.

(** C14: [poll] delivers the most recently queued event first: the
    queue is filled with [push_back] and drained with [pop_back], so a
    [force_sync] is delivered before every request queued before it. *)
Theorem poll_lifo b p tick r :
  poll (force_sync b p) tick r = (Ready (NotifyHandlerEv p ForceSync Any), b).
Proof. apply poll_force_sync. Qed.

(** C21: in every state the behaviour reaches from
    [Behaviour::new], [poll] never returns a [GenerateEvent]: the
    [ResolveReady] event of the spec is never emitted. *)
Theorem behaviour_never_generates b tick r e :
  rtc step new b -> (poll b tick r).1 <> Ready (GenerateEvent e).
Proof.
  intros Hr. assert (Hinv : only_force_sync b).
  { apply (rtc_preserve step only_force_sync new); [apply only_force_sync_step|constructor|done]. }
  unfold poll. destruct (last (bevents b)) as [e'|] eqn:E; simpl; [|done].
  apply last_Some_elem_of in E. unfold only_force_sync in Hinv. rewrite Forall_forall in Hinv.
  destruct (Hinv e' E) as [p ->]. done.
Qed.

(** C22: with an empty queue and at least one known peer, a
    tick of the heartbeat makes the next [poll] deliver a [ForceSync]
    to one of the known peers; with no known peer nothing is queued. *)
Theorem heartbeat_liveness b r tick' r' :
  bevents b = [] ->
  (sync_peers b <> ∅ ->
   exists p, p ∈ sync_peers b /\ (poll b true r).1 = Pending /\
     (poll (poll b true r).2 tick' r').1 = Ready (NotifyHandlerEv p ForceSync Any)) /\
  (sync_peers b = ∅ -> poll b true r = (Pending, b)).
Proof.
  intros He. split.
  - intros Hne.
    assert (Hb : poll b true r = (Pending, heartbeat b r)) by (unfold poll; rewrite He; done).
    rewrite Hb. unfold heartbeat. simpl.
    destruct (choose (elements (sync_peers b)) r) as [p|] eqn:Hc.
    + exists p. split; [apply elem_of_elements; by eapply choose_Some|]. split; [done|].
      rewrite poll_force_sync. done.
    + apply choose_None, elements_empty_inv in Hc. apply leibniz_equiv in Hc. done.
  - intros Hemp. unfold poll, heartbeat. rewrite He, Hemp, elements_empty. done.
Qed.

End BehaviourModel.

End SyncBehaviour.

(** ** Witnesses *)

Module BehaviourExamples.
Import Toy Handler SyncBehaviour.

Definition handler_1 : Handler.Handler := Handler.on_behaviour_event Handler.new ForceSync.

Lemma handler_never_notifies_witness :
  rtc Handler.step Handler.new handler_1 /\
  (Handler.poll handler_1 Pending Pending).1 <> Ready (NotifyBehaviour ResolveReady).
Proof.
  assert (Hr : rtc Handler.step Handler.new handler_1) by (apply rtc_once; constructor).
  split; [exact Hr|]. apply (handler_never_notifies _ _ _ _ Hr).
Defined.

Definition behaviour_1 : Behaviour := force_sync (add_explicit_peer SyncBehaviour.new 5) 5.

Lemma behaviour_never_generates_witness :
  rtc SyncBehaviour.step SyncBehaviour.new behaviour_1 /\
  (SyncBehaviour.poll behaviour_1 false 0).1 <> Ready (GenerateEvent ResolveReady).
Proof.
  assert (Hr : rtc SyncBehaviour.step SyncBehaviour.new behaviour_1).
  { eapply rtc_l; [apply step_add_peer|]. apply rtc_once. constructor. }
  split; [exact Hr|]. apply (behaviour_never_generates _ _ _ _ Hr).
Defined.

Lemma heartbeat_liveness_witness :
  bevents (add_explicit_peer SyncBehaviour.new 5) = [] /\
  (sync_peers (add_explicit_peer SyncBehaviour.new 5) <> ∅ ->
   exists p, p ∈ sync_peers (add_explicit_peer SyncBehaviour.new 5) /\
     (SyncBehaviour.poll (add_explicit_peer SyncBehaviour.new 5) true 3).1 = Pending /\
     (SyncBehaviour.poll (SyncBehaviour.poll (add_explicit_peer SyncBehaviour.new 5) true 3).2 false 0).1 =
       Ready (NotifyHandlerEv p ForceSync Any)) /\
  (sync_peers (add_explicit_peer SyncBehaviour.new 5) = ∅ ->
   SyncBehaviour.poll (add_explicit_peer SyncBehaviour.new 5) true 3 = (Pending, add_explicit_peer SyncBehaviour.new 5)).
Proof.
  assert (He : bevents (add_explicit_peer SyncBehaviour.new 5) = []) by reflexivity.
  split; [exact He|]. apply (heartbeat_liveness _ 3 false 0 He).
Defined.

End BehaviourExamples.
