(* ===== verification/Node.v ===== *)
(** * Node: the census and the orchestrator (census.rs, main.rs)

    [Module Census] models [DumbCensus]: a set of verifying keys built
    from a list, listed back, and queried.  [Module Node] models the
    parts of the event loop of [main.rs] that act on the node's state:
    the gossip ballot handler (deserialise, check the signature and the
    census, [Behaviour::pool_ballot], [Behaviour::try_resolve]), the
    mDNS discovery and the delay arm (print, forced sync, and the
    [test_append] loop that mines test blocks).  The node's state is
    its chain and its sync behaviour; a step relation collects the
    local transitions, and a sync with a peer is the reorganisation of
    [Sync.sync_spec]. *)

From S2P Require Import Prelude Crypto Block Chain ChainIter Delegations Resolve Sync Behaviour.

(** ** The census (census.rs) *)

Module Census.

(** [struct DumbCensus]. *)
Record DumbCensus := mkCensus { census_keys : gset Z }.

(** [DumbCensus::from_vec]. *)
Definition from_vec (input : list Z) : DumbCensus :=
  mkCensus (fold_left (fun census_keys key => {[key]} ∪ census_keys) input ∅).

(** [DumbCensus::as_vec]: the set in iteration order. *)
Definition as_vec (c : DumbCensus) : list Z := elements (census_keys c).

(** [DumbCensus::contains_voter]. *)
Definition contains_voter (c : DumbCensus) (key : Z) : bool := bool_decide (key ∈ census_keys c).

Lemma fold_insert_keys (l : list Z) (X : gset Z) :
  fold_left (fun census_keys key => {[key]} ∪ census_keys) l X = list_to_set l ∪ X.
Proof. revert X. induction l as [|k l IH]; intros X; simpl; [set_solver|]. rewrite IH. set_solver. Qed.

(** C29: listing a census and building one from the list gives the
    census back, and a census built from a list contains exactly the
    keys of the list. *)
Theorem census_roundtrip :
  (forall c, from_vec (as_vec c) = c) /\
  (forall l k, contains_voter (from_vec l) k = bool_decide (k ∈ l)).
Proof.
  split.
  - intros [X]. unfold from_vec, as_vec. rewrite fold_insert_keys, list_to_set_elements_L. f_equal. set_solver.
  - intros l k. unfold contains_voter, from_vec. simpl. rewrite fold_insert_keys.
    apply bool_decide_ext. set_solver.
Qed.

End Census.

(** ** The node (main.rs) *)

Module Node.
Import Census.

Section NodeModel.
Context `{Blake3} `{Ed25519} `{Paillier} `{Serialize (Signed Ballot)} `{Serialize Ballot}
  `{Deserialize (Signed Ballot)}.

(** The state the event loop acts on: the chain behind its mutex and
    the chain-sync behaviour of the swarm. *)
Record Node := mkNode {
  chain : Chain.Blockchain;
  sync : SyncBehaviour.Behaviour
}.

(** [Behaviour::pool_ballot]: the result of [Blockchain::pool_ballot] is
    discarded; [None] when the proof of work does not stop. *)
Definition pool_ballot (n : Node) (ballot : Signed Ballot) (now : Z) (nonces : list (list Z))
    : option Node :=
  match Chain.pool_ballot (chain n) ballot now nonces with
  | Some (_, c') => Some (mkNode c' (sync n))
  | None => None
  end.

(** [Behaviour::try_resolve]: above height 4, the tally with a random
    delegation graph over the census ([draw] are its random draws,
    [r_for], [r_against] those of the tally). *)
Definition try_resolve (n : Node) (census : DumbCensus) (draw : nat -> bool * nat)
    (r_for r_against : Z) : option (res bool Error) :=
  if decide (Chain.get_height (chain n) > 4) then
    Some (Resolve.generate_vote_result r_for r_against (chain n)
            (Delegations.random (as_vec census) draw))
  else None.

(** What the log of the ballot handler reports. *)
Inductive MessageOutcome :=
| InvalidBallot
| InvalidSignature
| Evaluated (result : option (res bool Error)).

(** The [gossipsub::Event::Message] arm on the message data. *)
Definition on_ballot_message (census : DumbCensus) (n : Node) (message_data : list Z)
    (now : Z) (nonces : list (list Z)) (draw : nat -> bool * nat) (r_for r_against : Z)
    : option (MessageOutcome * Node) :=
  match deserialize message_data with
  | None => Some (InvalidBallot, n)
  | Some ballot =>
      if negb (signature_valid ballot) || negb (contains_voter census (signer ballot)) then
        Some (InvalidSignature, n)
      else
        match pool_ballot n ballot now nonces with
        | None => None
        | Some n' => Some (Evaluated (try_resolve n' census draw r_for r_against), n')
        end
  end.

(** The [mdns::Event::Discovered] arm: every discovered peer becomes a
    sync peer (the dial is not modelled). *)
Definition on_mdns_discovered (n : Node) (peers : list Z) : Node :=
  mkNode (chain n) (fold_left SyncBehaviour.add_explicit_peer peers (sync n)).

(** The clock readings and random draws of one test block: the
    ballot's timestamp and its two encryption randomnesses, the block's
    timestamp and its nonce stream. *)
Record TestDraw := mkTestDraw {
  ballot_time : Z;
  ballot_r_for : Z;
  ballot_r_against : Z;
  block_time : Z;
  block_nonces : list (list Z)
}.

(** The ballot of a test block: a yes vote on issue ["test"] signed by
    the node's key. *)
Definition test_ballot (signing_key : Z) (d : TestDraw) : Signed Ballot :=
  Signed_new signing_key (Ballot_new true "test" (ballot_time d) (ballot_r_for d) (ballot_r_against d)).

(** One iteration of the [test_append] loop at [height]: [get_block]
    with [?] (an error ends [main]), [Block::new(..).unwrap()], and
    [append], whose error is only printed.  [None]: the proof of work
    did not stop. *)
Definition test_append_step (signing_key : Z) (c : Chain.Blockchain) (height : Z) (d : TestDraw)
    : option (res Chain.Blockchain Error) :=
  match Chain.get_block c height with
  | Err e => Some (Err e)
  | Panic => Some Panic
  | Ok genesis =>
      match Block.new signing_key genesis [test_ballot signing_key d] (block_time d) (block_nonces d) with
      | None => None
      | Some (Ok block) => Some (Ok (Chain.append c block).2)
      | Some _ => Some Panic
      end
  end.

(** [for height in start_h..(start_h + test_append)]. *)
Fixpoint test_append_loop (signing_key : Z) (c : Chain.Blockchain) (heights : list Z)
    (draw : Z -> TestDraw) : option (res Chain.Blockchain Error) :=
  match heights with
  | [] => Some (Ok c)
  | height :: rest =>
      match test_append_step signing_key c height (draw height) with
      | Some (Ok c') => test_append_loop signing_key c' rest draw
      | r => r
      end
  end.

(** The [delay] arm: the chain is printed with [Debug] (which panics on
    a missing head), a sync is forced with the first connected peer,
    and with [test_append > 0] that many test blocks are appended on
    top of the head; the end of the range, [start_h + test_append], is
    a [u32] sum.  An [Err] is the [?] that ends [main]. *)
Definition on_delay (signing_key test_append : Z) (n : Node) (connected_peers : list Z)
    (draw : Z -> TestDraw) : option (res Node Error) :=
  match ChainIter.debug_fmt (chain n) with
  | Ok _ =>
      let sync' := match connected_peers with
                   | peer_id :: _ => SyncBehaviour.force_sync (sync n) peer_id
                   | [] => sync n
                   end in
      let start_h := Chain.get_height (chain n) in
      if decide (test_append = 0) then Some (Ok (mkNode (chain n) sync'))
      (* [start_h + args.test_append] on [u32]: the overflow check of a
         debug build panics *)
      else if decide (2 ^ 32 <= start_h + test_append) then Some Panic
      else
        match test_append_loop signing_key (chain n) (seqZ start_h test_append) draw with
        | Some (Ok c') => Some (Ok (mkNode c' sync'))
        | Some (Err e) => Some (Err e)
        | Some Panic => Some Panic
        | None => None
        end
  | _ => Some Panic
  end.

(** The node's own transitions, for its signing key and its
    [test_append] flag: gossip ballots, discovery, the delay and the
    behaviour's methods. *)
Inductive local_step (census : DumbCensus) (signing_key test_append : Z) : Node -> Node -> Prop :=
| step_message n msg now nonces draw r_for r_against o n' :
    on_ballot_message census n msg now nonces draw r_for r_against = Some (o, n') ->
    local_step census signing_key test_append n n'
| step_discovered n peers : local_step census signing_key test_append n (on_mdns_discovered n peers)
| step_delay n connected draw n' :
    on_delay signing_key test_append n connected draw = Some (Ok n') ->
    local_step census signing_key test_append n n'
| step_behaviour n b' : SyncBehaviour.step (sync n) b' ->
    local_step census signing_key test_append n (mkNode (chain n) b').

(** A completed [send_sync] with a peer holding chain [b]. *)
Definition on_sync (n : Node) (b : Chain.Blockchain) : Node :=
  mkNode (Sync.sync_spec (chain n) b).2 (sync n).

(** ** What the node lets into its chain *)

(** A ballot the gossip handler accepts: a valid signature by a census
    member. *)
Definition accepted (census : DumbCensus) (sb : Signed Ballot) : Prop :=
  signature_valid sb = true /\ contains_voter census (signer sb) = true.

(** Every pending ballot and every ballot of a stored block satisfies [P]. *)
Definition ballots_ok (P : Signed Ballot -> Prop) (c : Chain.Blockchain) : Prop :=
  Forall P (Chain.ballot_pool c) /\
  forall i blk, Chain.chain_db c !! i = Some blk -> Forall P (Block.ballots_of blk).

Lemma with_pool_ok P c pool :
  ballots_ok P c -> Forall P pool -> ballots_ok P (Chain.with_pool c pool).
Proof. intros [_ Hdb] Hp. split; [done|apply Hdb]. Qed.

Lemma append_ok P c block :
  ballots_ok P c -> Forall P (Block.ballots_of block) -> ballots_ok P (Chain.append c block).2.
Proof.
  intros [Hp Hdb] Hb. unfold Chain.append.
  destruct (Chain.get_block c (Chain.height c)) as [head| |]; [|done|done].
  destruct (negb _); simpl; [done|]. split; [done|]. intros i blk. simpl.
  destruct (decide (i = Chain.height c + 1)) as [->|Hne].
  - rewrite lookup_insert_eq. intros [= <-]. done.
  - rewrite lookup_insert_ne by done. apply Hdb.
Qed.

Lemma block_new_ballots sk prev bs now nonces blk :
  Block.new sk prev bs now nonces = Some (Ok blk) -> Block.ballots_of blk = bs.
Proof. unfold Block.new. destruct (Block.proof_of_work _ _ _) as [[n sig]|]; [intros [= <-]|]; done. Qed.

(** [Blockchain::pool_ballot] only adds the given ballot: the pool and
    the minted block draw from the old pool and that ballot. *)
Lemma pool_ballot_ok P c ballot now nonces r c' :
  P ballot -> ballots_ok P c -> Chain.pool_ballot c ballot now nonces = Some (r, c') -> ballots_ok P c'.
Proof.
  intros Hb Hc. unfold Chain.pool_ballot.
  assert (Hp : Forall P (Chain.ballot_pool c ++ [ballot])).
  { apply Forall_app. split; [apply Hc|by apply Forall_singleton]. }
  destruct (decide _) as [Hge|Hlt]; [|intros [= _ <-]; by apply with_pool_ok].
  unfold split_off. cbn zeta.
  assert (Hc1 : ballots_ok P (Chain.with_pool c (take (length (Chain.ballot_pool c ++ [ballot]) - Chain.BLOCK_SIZE)
                                                   (Chain.ballot_pool c ++ [ballot])))).
  { apply with_pool_ok; [done|by apply Forall_take]. }
  destruct (Chain.get_block _ _) as [prev| |]; [|intros [= _ <-]; done|intros [= _ <-]; done].
  destruct (Block.new _ _ _ _ _) as [[blk| |]|] eqn:En; try done; intros [= _ <-]; try done.
  apply append_ok; [done|]. rewrite (block_new_ballots _ _ _ _ _ _ En). by apply Forall_drop.
Qed.

Lemma on_ballot_message_cases census n msg now nonces draw r_for r_against o n' :
  on_ballot_message census n msg now nonces draw r_for r_against = Some (o, n') ->
  match o with
  | Evaluated result =>
      exists ballot, deserialize msg = Some ballot /\ accepted census ballot /\
        pool_ballot n ballot now nonces = Some n' /\
        result = try_resolve n' census draw r_for r_against
  | InvalidBallot => deserialize msg = None /\ n' = n
  | InvalidSignature => (exists ballot, deserialize msg = Some ballot /\ ~ accepted census ballot) /\ n' = n
  end.
Proof.
  unfold on_ballot_message, accepted. destruct (deserialize msg) as [ballot|]; [|intros [= <- <-]; done].
  destruct (signature_valid ballot) eqn:Hs, (contains_voter census (signer ballot)) eqn:Hc; simpl;
    try (intros [= <- <-]; split; [exists ballot; split; [done|intros [? ?]; congruence]|done]).
  destruct (pool_ballot n ballot now nonces) as [n1|] eqn:Hp; [|done]. intros [= <- <-].
  exists ballot. done.
Qed.

(** C5: the ballot handler pools a message exactly when it
    deserialises to a ballot whose signature is valid and whose signer
    is in the census; otherwise the node is left as it was. *)
Theorem on_ballot_message_spec census n msg now nonces draw r_for r_against o n' :
  on_ballot_message census n msg now nonces draw r_for r_against = Some (o, n') ->
  match o with
  | Evaluated result =>
      exists ballot, deserialize msg = Some ballot /\ accepted census ballot /\
        pool_ballot n ballot now nonces = Some n' /\
        result = try_resolve n' census draw r_for r_against
  | InvalidBallot => deserialize msg = None /\ n' = n
  | InvalidSignature => (exists ballot, deserialize msg = Some ballot /\ ~ accepted census ballot) /\ n' = n
  end.
Proof. apply on_ballot_message_cases. Qed.

(** ** The test blocks of the delay arm *)

(** What [k] iterations of the loop do to a chain [c]: [k] blocks on top
    of the head, each holding the one test ballot of its iteration, the
    rest of the chain and the pool untouched. *)
Definition test_blocks_appended (signing_key : Z) (draw : Z -> TestDraw) (c : Chain.Blockchain)
    (k : nat) (c' : Chain.Blockchain) : Prop :=
  Chain.chain_wf c' /\ Chain.height c' = Chain.height c + Z.of_nat k /\
  Chain.ballot_pool c' = Chain.ballot_pool c /\
  (forall i, i <= Chain.height c -> Chain.chain_db c' !! i = Chain.chain_db c !! i) /\
  (forall i, Chain.height c < i <= Chain.height c' -> exists blk,
     Chain.chain_db c' !! i = Some blk /\ Block.ballots_of blk = [test_ballot signing_key (draw (i - 1))]).

(** The loop does not return exactly when the proof of work of some
    iteration [j < k] does not stop on the head it builds on. *)
Definition pow_stalls (signing_key : Z) (draw : Z -> TestDraw) (c : Chain.Blockchain) (k : nat) : Prop :=
  exists (j : nat) cj head, (j < k)%nat /\
    test_append_loop signing_key c (seqZ (Chain.height c) (Z.of_nat j)) draw = Some (Ok cj) /\
    Chain.chain_db cj !! (Chain.height c + Z.of_nat j) = Some head /\
    Block.proof_of_work signing_key (Block.hash head) (block_nonces (draw (Chain.height c + Z.of_nat j))) = None.

Lemma seqZ_S h (k : nat) : seqZ h (Z.of_nat (S k)) = h :: seqZ (h + 1) (Z.of_nat k).
Proof. rewrite Nat2Z.inj_succ, seqZ_cons by lia. f_equal; f_equal; lia. Qed.

(** One iteration on a well-formed chain: the proof of work stalls, or
    a test block is appended on the head. *)
Lemma test_append_step_wf sk c d :
  Chain.chain_wf c ->
  exists head, Chain.chain_db c !! Chain.height c = Some head /\
  match test_append_step sk c (Chain.height c) d with
  | Some (Ok c1) => exists b, c1 = Chain.with_appended c b /\ Block.is_valid b head = true /\
                      Block.ballots_of b = [test_ballot sk d]
  | Some _ => False
  | None => Block.proof_of_work sk (Block.hash head) (block_nonces d) = None
  end.
Proof.
  intros Hwf. destruct (Chain.wf_head c Hwf) as [head Hh]. exists head. split; [done|].
  unfold test_append_step. rewrite (Chain.get_block_some _ _ _ Hh).
  pose proof (Block.new_cases sk head [test_ballot sk d] (block_time d) (block_nonces d)) as Hn.
  destruct (Block.new _ _ _ _ _) as [[b| |]|]; [|done|done|done].
  destruct Hn as (Hv & Hd & _). exists b. split; [|split; [done|unfold Block.ballots_of, Block.get_ballots; by rewrite Hd]].
  destruct (Chain.append_cases c b Hwf) as (head' & Hh' & ->). rewrite Hh in Hh'. injection Hh' as <-.
  by rewrite Hv.
Qed.

Lemma test_append_loop_spec sk draw (k : nat) : forall c,
  Chain.chain_wf c ->
  match test_append_loop sk c (seqZ (Chain.height c) (Z.of_nat k)) draw with
  | Some (Ok c') => test_blocks_appended sk draw c k c'
  | Some _ => False
  | None => pow_stalls sk draw c k
  end.
Proof.
  induction k as [|k IH]; intros c Hwf.
  - simpl. split; [done|]. split; [lia|]. split; [done|]. split; [done|]. intros i Hi. lia.
  - rewrite seqZ_S. simpl.
    destruct (test_append_step_wf sk c (draw (Chain.height c)) Hwf) as (head & Hh & Hs).
    destruct (test_append_step _ _ _ _) as [[c1| |]|] eqn:Estep; [|done|done|].
    + destruct Hs as (b & -> & Hv & Hb). pose proof (Chain.with_appended_wf c head b Hwf Hh Hv) as Hwf1.
      specialize (IH _ Hwf1). simpl in IH.
      destruct (test_append_loop _ _ _ _) as [[c'| |]|] eqn:Eloop; [|done|done|].
      * destruct IH as (Hwf' & Hh' & Hp' & Hold & Hnew).
        split; [done|]. split; [simpl in Hh'; lia|]. split; [done|]. split.
        -- intros i Hi. rewrite Hold by (simpl; lia). simpl. rewrite lookup_insert_ne by lia. done.
        -- intros i Hi. destruct (decide (i = Chain.height c + 1)) as [->|Hne].
           ++ exists b. rewrite Hold by (simpl; lia). simpl. rewrite lookup_insert_eq.
              replace (Chain.height c + 1 - 1) with (Chain.height c) by lia. done.
           ++ apply Hnew. simpl. lia.
      * destruct IH as (j & cj & hd & Hj & Hl & Hd & Hp). exists (S j), cj, hd. simpl in *.
        split; [lia|]. rewrite seqZ_S. simpl. rewrite Estep.
        replace (Chain.height c + Z.of_nat (S j)) with (Chain.height c + 1 + Z.of_nat j) by lia. done.
    + exists 0%nat, c, head. simpl. split; [lia|]. rewrite Z.add_0_r. done.
Qed.

(** The ballots of the test blocks satisfy [P] when test ballots do. *)
Lemma test_append_loop_ok P sk c hs draw c' :
  (forall d, P (test_ballot sk d)) -> ballots_ok P c ->
  test_append_loop sk c hs draw = Some (Ok c') -> ballots_ok P c'.
Proof.
  intros HP. revert c. induction hs as [|h hs IH]; intros c Hc; simpl; [intros [= <-]; done|].
  destruct (test_append_step sk c h (draw h)) as [[c1| |]|] eqn:E; try done.
  apply IH. unfold test_append_step in E.
  destruct (Chain.get_block c h) as [g| |]; [|done|done].
  destruct (Block.new _ _ _ _ _) as [[blk| |]|] eqn:En; try done. injection E as <-.
  apply append_ok; [done|]. rewrite (block_new_ballots _ _ _ _ _ _ En). by apply Forall_singleton.
Qed.

Lemma test_ballot_signed sk d : signature_valid (test_ballot sk d) = true.
Proof. apply verify_sign. Qed.

(** The sync behaviour after the delay arm. *)
Definition forced_sync (n : Node) (connected_peers : list Z) : SyncBehaviour.Behaviour :=
  match connected_peers with
  | peer_id :: _ => SyncBehaviour.force_sync (sync n) peer_id
  | [] => sync n
  end.

Lemma on_delay_cases sk k n peers draw :
  Chain.chain_wf (chain n) -> Chain.height (chain n) + Z.of_nat k < 2 ^ 32 ->
  match on_delay sk (Z.of_nat k) n peers draw with
  | Some (Ok n') => sync n' = forced_sync n peers /\ test_blocks_appended sk draw (chain n) k (chain n')
  | Some _ => False
  | None => pow_stalls sk draw (chain n) k
  end.
Proof.
  intros Hwf Hb. pose proof (test_append_loop_spec sk draw k (chain n) Hwf) as Hl.
  unfold on_delay. destruct (ChainIter.debug_fmt_wf (chain n) Hwf) as (head & _ & ->).
  unfold Chain.get_height. case_decide as Hk.
  - assert (k = 0%nat) as -> by lia. split; [done|exact Hl].
  - rewrite decide_False by lia. destruct (test_append_loop _ _ _ _) as [[c'| |]|]; done.
Qed.

(** C15: on a well-formed chain, the delay arm with [test_append = k]
    never ends [main] with an error nor panics; it forces a sync with
    the first connected peer and, when it returns, has appended [k]
    blocks on the head, each holding that iteration's test ballot
    signed by the node, leaving older blocks and the pool as they were;
    it does not return exactly when the proof of work of one iteration
    does not stop. *)
Theorem on_delay_test_append sk k n peers draw :
  Chain.chain_wf (chain n) -> Chain.height (chain n) + Z.of_nat k < 2 ^ 32 ->
  match on_delay sk (Z.of_nat k) n peers draw with
  | Some (Ok n') => sync n' = forced_sync n peers /\ test_blocks_appended sk draw (chain n) k (chain n')
  | Some _ => False
  | None => pow_stalls sk draw (chain n) k
  end.
Proof. apply on_delay_cases. Qed.

(** C16: when the end of the test range [start_h + test_append]
    does not fit a [u32], the delay arm panics before appending
    anything (debug build), whatever the chain and the draws. *)
Theorem on_delay_overflow sk test_append n peers draw :
  Chain.chain_wf (chain n) -> 0 < test_append -> 2 ^ 32 <= Chain.height (chain n) + test_append ->
  on_delay sk test_append n peers draw = Some Panic.
Proof.
  intros Hwf Hpos Hov. unfold on_delay. destruct (ChainIter.debug_fmt_wf (chain n) Hwf) as (head & _ & ->).
  unfold Chain.get_height. rewrite decide_False, decide_True by lia. done.
Qed.

Lemma local_step_ok census sk test_append n n' :
  (test_append = 0 \/ contains_voter census (verifying_key sk) = true) ->
  ballots_ok (accepted census) (chain n) -> local_step census sk test_append n n' ->
  ballots_ok (accepted census) (chain n').
Proof.
  intros Hkey Hn Hs. destruct Hs as [n msg now nonces draw r1 r2 o n' Hm|n peers|n peers draw n' Hd|n b' _];
    try done.
  - apply on_ballot_message_cases in Hm. destruct o as [| |result].
    + by destruct Hm as [_ ->].
    + by destruct Hm as [_ ->].
    + destruct Hm as (ballot & _ & Hacc & Hp & _). unfold pool_ballot in Hp.
      destruct (Chain.pool_ballot (chain n) ballot now nonces) as [[r c']|] eqn:E; [|done].
      injection Hp as <-. by apply (pool_ballot_ok _ _ _ _ _ _ _ Hacc Hn E).
  - unfold on_delay in Hd. destruct (ChainIter.debug_fmt (chain n)); [|done|done].
    case_decide as Hk; [by injection Hd as <-|]. case_decide; [done|].
    destruct (test_append_loop _ _ _ _) as [[c'| |]|] eqn:El; try done. injection Hd as <-.
    destruct Hkey as [|Hkey]; [done|].
    apply (test_append_loop_ok _ _ _ _ _ _ (fun d => conj (test_ballot_signed sk d) Hkey) Hn El).
Qed.

(** C6: along any sequence of gossip messages, discoveries, delay
    ticks and behaviour steps, a node whose chain held only accepted
    ballots (valid signature, census member) still does, provided its
    own key is in the census or [test_append] is off. *)
Theorem node_ballots_accepted census sk test_append n0 n :
  (test_append = 0 \/ contains_voter census (verifying_key sk) = true) ->
  rtc (local_step census sk test_append) n0 n ->
  ballots_ok (accepted census) (chain n0) -> ballots_ok (accepted census) (chain n).
Proof.
  intros Hkey Hr Hn0.
  apply (rtc_preserve (local_step census sk test_append) (fun n => ballots_ok (accepted census) (chain n)) n0);
    [intros ??; by apply local_step_ok|done|done].
Qed.

End NodeModel.

End Node.

(** ** Scenarios and witnesses *)

Module NodeExamples.
Import Toy BlockExamples Census Node.

Definition chain0 : Chain.Blockchain :=
  {| Chain.chain_db := {[1 := blk_G]}; Chain.hash_indexes := ∅; Chain.height := 1;
     Chain.ballot_pool := []; Chain.signing_key := 9 |}.

Definition node0 : Node := mkNode chain0 SyncBehaviour.new.

Definition census_11 : DumbCensus := from_vec [11].

(** A ballot signed by census member [11]. *)
Definition vote_11 : Signed (@Ballot toy_paillier) := Signed_new 11 (Ballot_new true "issue" 5 1 2).

(** The same ballot under a forged signature. *)
Definition forged : Signed (@Ballot toy_paillier) := mkSigned _ [1; 2] 11 (Ballot_new true "issue" 5 1 2).

(** A peer chain whose second block carries the forged ballot. *)
Definition blk_F : Block.Block :=
  Block.mkBlock 7 (Block.hash blk_G) 3 [0; 0] (Block.Ballots [forged]) z8.

Definition chain_F : Chain.Blockchain :=
  {| Chain.chain_db := <[2 := blk_F]> {[1 := blk_G]}; Chain.hash_indexes := ∅; Chain.height := 2;
     Chain.ballot_pool := []; Chain.signing_key := 3 |}.

Lemma chain0_ok : ballots_ok (accepted census_11) chain0.
Proof.
  split; [constructor|]. intros i blk Hi. cbn in Hi. apply lookup_singleton_Some in Hi as [_ <-]. constructor.
Qed.


Lemma key_11_in_census : contains_voter census_11 (verifying_key 11) = true.
Proof. reflexivity. Qed.

Lemma node_ballots_accepted_witness :
  (1 = 0 \/ contains_voter census_11 (verifying_key 11) = true) /\
  rtc (local_step census_11 11 1) node0 (on_mdns_discovered node0 [3]) /\
  ballots_ok (accepted census_11) (chain node0) /\
  ballots_ok (accepted census_11) (chain (on_mdns_discovered node0 [3])).
Proof.
  assert (Hk : 1 = 0 \/ contains_voter census_11 (verifying_key 11) = true) by (right; exact key_11_in_census).
  assert (Hr : rtc (local_step census_11 11 1) node0 (on_mdns_discovered node0 [3])) by (apply rtc_once; constructor).
  split; [exact Hk|]. split; [exact Hr|]. split; [exact chain0_ok|].
  apply (node_ballots_accepted _ _ _ _ _ Hk Hr chain0_ok).
Defined.

(** The accepted ballot is pooled; the chain is too short to resolve. *)
Definition node1 : Node :=
  mkNode (Chain.with_pool chain0 [vote_11]) SyncBehaviour.new.

Lemma on_ballot_message_spec_witness :
  on_ballot_message census_11 node0 (serialize vote_11) 20 [] (fun _ => (false, 0%nat)) 0 0 =
    Some (Evaluated None, node1) /\
  exists ballot, deserialize (serialize vote_11) = Some ballot /\ accepted census_11 ballot /\
    pool_ballot node0 ballot 20 [] = Some node1 /\
    None = try_resolve node1 census_11 (fun _ => (false, 0%nat)) 0 0.
Proof.
  assert (Hm : on_ballot_message census_11 node0 (serialize vote_11) 20 [] (fun _ => (false, 0%nat)) 0 0 =
                 Some (Evaluated None, node1)) by reflexivity.
  split; [exact Hm|]. apply (on_ballot_message_spec _ _ _ _ _ _ _ _ _ _ Hm).
Defined.

Lemma chain0_wf : Chain.chain_wf chain0.
Proof. apply Chain.chain_wf_b_sound. reflexivity. Qed.

Definition test_draw (h : Z) : TestDraw := mkTestDraw (100 + h) 1 2 (200 + h) Chain.Examples.nonce_stream.

Lemma on_delay_test_append_witness :
  Chain.chain_wf (chain node0) /\ Chain.height (chain node0) + Z.of_nat 2 < 2 ^ 32 /\
  match on_delay 11 (Z.of_nat 2) node0 [3] test_draw with
  | Some (Ok n') => sync n' = forced_sync node0 [3] /\ test_blocks_appended 11 test_draw (chain node0) 2 (chain n')
  | Some _ => False
  | None => pow_stalls 11 test_draw (chain node0) 2
  end.
Proof.
  assert (Hb : Chain.height (chain node0) + Z.of_nat 2 < 2 ^ 32) by (simpl; lia).
  split; [exact chain0_wf|]. split; [exact Hb|]. apply (on_delay_test_append 11 2 node0 [3] test_draw chain0_wf Hb).
Defined.

Lemma on_delay_overflow_witness :
  Chain.chain_wf (chain node0) /\ 0 < 2 ^ 32 - 1 /\ 2 ^ 32 <= Chain.height (chain node0) + (2 ^ 32 - 1) /\
  on_delay 11 (2 ^ 32 - 1) node0 [3] test_draw = Some Panic.
Proof.
  assert (Hov : 2 ^ 32 <= Chain.height (chain node0) + (2 ^ 32 - 1)) by (simpl; lia).
  split; [exact chain0_wf|]. split; [lia|]. split; [exact Hov|].
  apply (on_delay_overflow 11 (2 ^ 32 - 1) node0 [3] test_draw chain0_wf ltac:(lia) Hov).
Defined.

End NodeExamples.
