(* ===== verification/Client.v ===== *)
(** * Client: the voting client (src/client)

    [Module Client] models the client binary: the [cast] subcommand
    builds a ballot with [Ballot::new], signs it with a key read from a
    key file and publishes its bincode encoding on the ["ballot-cast"]
    gossip topic ([send_to_swarm]); [init-keys] writes a fresh signing
    key to the configured key file; [generate_population] (not reachable
    from [main]) writes identity files.  The file system is a map from
    key files to signing keys, and a failed [read_pkcs8_der_file(..)
    .unwrap()] is a panic.  The theorems compose the client with the
    node of [Node]: a published ballot reaches the gossip handler intact
    and is pooled exactly when its signer is in the census. *)

From S2P Require Import Prelude Crypto Block Chain ChainIter Delegations Resolve Sync Behaviour Node.

Module Client.
Import Census Node.

(** The key files: the configured [secret_key_path] and the identity
    files [./temp/identities/<identity>.der].  Under the default
    configuration ([Cfg::secret_key_path] is
    [./temp/identities/default.der]) the parent directory of the secret
    key is the identities directory, so the files
    [generate_population] writes are identity files. *)
Inductive KeyFile := SecretKeyFile | IdentityFile (identity : Z).

#[export] Instance KeyFile_eq_dec : EqDecision KeyFile.
Proof. solve_decision. Defined.

#[export] Instance KeyFile_countable : Countable KeyFile.
Proof.
  apply (inj_countable' (fun f => match f with SecretKeyFile => None | IdentityFile n => Some n end)
                         (fun o => match o with None => SecretKeyFile | Some n => IdentityFile n end)).
  by intros [].
Defined.

Abbreviation KeyStore := (gmap KeyFile Z).

Section ClientModel.
Context `{Blake3} `{Ed25519} `{Paillier} `{Serialize (Signed Ballot)} `{Serialize Ballot}
  `{Deserialize (Signed Ballot)}.

(** [struct CastArgs]. *)
Record CastArgs := mkCastArgs {
  issue : string;
  verdict : bool;
  id : option Z;
  peer_port : option Z
}.

(** The key file [cast] reads. *)
Definition key_file (args : CastArgs) : KeyFile :=
  match id args with
  | Some identity => IdentityFile identity
  | None => SecretKeyFile
  end.

(** [read_pkcs8_der_file(..).unwrap()]: a missing file panics.  The
    client's failures are all panics, so its error type is empty. *)
Definition read_key (fs : KeyStore) (f : KeyFile) : res Z Empty_set :=
  match fs !! f with
  | Some sk => Ok sk
  | None => Panic
  end.

(** What [send_to_swarm] does that outlives it: it dials the peer at
    [peer_port] and publishes the encoded ballot on the topic. *)
Record Publication := mkPublication {
  topic : string;
  payload : list Z;
  dial_port : Z
}.

(** [send_to_swarm]: the swarm is built, the ["ballot-cast"] topic
    subscribed, the peer dialled, and after the waiting loops (which only
    log swarm events) [bincode::serialize(&ballot)] is published. *)
Definition send_to_swarm (ballot : Signed Ballot) (peer_port : Z) : Publication :=
  {| topic := "ballot-cast"; payload := serialize ballot; dial_port := peer_port |}.

(** [cast]: [now], [r_for], [r_against] are the clock and the
    randomness of [Ballot::new]. *)
Definition cast (fs : KeyStore) (args : CastArgs) (now r_for r_against : Z) : res Publication Empty_set :=
  let ballot := Ballot_new (verdict args) (issue args) now r_for r_against in
  let? sk := read_key fs (key_file args) in
  let ballot_signed := Signed_new sk ballot in
  let peer_port := match peer_port args with Some port => port | None => 47474 end in
  Ok (send_to_swarm ballot_signed peer_port).

(** [generate_keys]: a fresh key ([drawn_key], from [OsRng]) written
    to the secret key file. *)
Definition generate_keys (fs : KeyStore) (drawn_key : Z) : KeyStore :=
  <[SecretKeyFile := drawn_key]> fs.

(** [generate_population]: one key is drawn before the loop and written
    to every file [6.der .. 19.der]. *)
Definition generate_population (fs : KeyStore) (drawn_key : Z) : KeyStore :=
  fold_left (fun fs index => <[IdentityFile index := drawn_key]> fs) (seqZ 6 14) fs.

(** [enum SubCommand]. *)
Inductive SubCommand := Cast (args : CastArgs) | InitKeys | Debugging.

(** What a run of the client leaves behind. *)
Inductive ClientEffect := Published (p : Publication) | WroteKey | NoEffect.

(** [main]: dispatch on the subcommand; [drawn_key] is the key
    [init-keys] draws. *)
Definition main (fs : KeyStore) (cmd : SubCommand) (drawn_key now r_for r_against : Z)
    : res (ClientEffect * KeyStore) Empty_set :=
  match cmd with
  | Cast cast_args => let? p := cast fs cast_args now r_for r_against in Ok (Published p, fs)
  | InitKeys => Ok (WroteKey, generate_keys fs drawn_key)
  | Debugging => Ok (NoEffect, fs)
  end.

(** ** Laws *)

(** [cast] on every branch. *)
Lemma cast_cases fs args now r_for r_against :
  cast fs args now r_for r_against =
    match fs !! key_file args with
    | Some sk => Ok (send_to_swarm (Signed_new sk (Ballot_new (verdict args) (issue args) now r_for r_against))
                                   (default 47474 (peer_port args)))
    | None => Panic
    end.
Proof. unfold cast, read_key. destruct (fs !! key_file args); [|done]. by destruct (peer_port args). Qed.

Lemma generate_population_lookup fs k f :
  generate_population fs k !! f =
    match f with
    | IdentityFile i => if decide (6 <= i < 20) then Some k else fs !! f
    | SecretKeyFile => fs !! f
    end.
Proof.
  unfold generate_population.
  assert (Hgen : forall l (fs0 : KeyStore), fold_left (fun fs index => <[IdentityFile index := k]> fs) l fs0 !! f =
            match f with IdentityFile i => if decide (i ∈ l) then Some k else fs0 !! f | SecretKeyFile => fs0 !! f end).
  { induction l as [|x l IH]; intros fs0; simpl.
    - destruct f as [|i]; [done|]. destruct (decide (i ∈ [])) as [Hin|]; [|done]. by apply not_elem_of_nil in Hin.
    - rewrite IH. destruct f as [|i]; [by rewrite lookup_insert_ne|].
      destruct (decide (i ∈ l)) as [Hin|Hin], (decide (i ∈ x :: l)) as [Hin'|Hin']; try done.
      + exfalso. apply Hin'. by apply elem_of_cons; right.
      + apply elem_of_cons in Hin' as [->|?]; [by rewrite lookup_insert_eq|done].
      + rewrite lookup_insert_ne; [done|]. intros [= ->]. apply Hin'. by apply elem_of_cons; left. }
  rewrite Hgen. destruct f as [|i]; [done|].
  destruct (decide (i ∈ seqZ 6 14)) as [Hin|Hin]; rewrite elem_of_seqZ in Hin;
    [rewrite decide_True by lia|rewrite decide_False by lia]; done.
Qed.

Section Delivery.
Context `{!SerdeRoundtrip (Signed Ballot)}.

(** The node's handling of a cast ballot. *)
Lemma cast_delivery fs args now r1 r2 p census n now' nonces draw rf ra :
  cast fs args now r1 r2 = Ok p ->
  exists sk, fs !! key_file args = Some sk /\
    let ballot := Signed_new sk (Ballot_new (verdict args) (issue args) now r1 r2) in
    deserialize (payload p) = Some ballot /\ topic p = "ballot-cast" /\
    on_ballot_message census n (payload p) now' nonces draw rf ra =
      if contains_voter census (verifying_key sk) then
        match Node.pool_ballot n ballot now' nonces with
        | Some n' => Some (Evaluated (try_resolve n' census draw rf ra), n')
        | None => None
        end
      else Some (InvalidSignature, n).
Proof.
  rewrite cast_cases. destruct (fs !! key_file args) as [sk|] eqn:Hk; [|done]. intros [= <-].
  exists sk. split; [done|]. cbn zeta. simpl. rewrite deserialize_serialize. split; [done|]. split; [done|].
  unfold on_ballot_message. rewrite deserialize_serialize.
  assert (Hs : signature_valid (Signed_new sk (Ballot_new (verdict args) (issue args) now r1 r2)) = true)
    by apply verify_sign.
  rewrite Hs. simpl. by destruct (contains_voter census (verifying_key sk)).
Qed.

(** C7: a ballot the client casts reaches the node's gossip
    handler intact (bincode decodes what it encoded), passes the
    signature check (the client signs with the key it names as
    signer), and is pooled and followed by a tally attempt exactly when
    the client's key is in the census; otherwise it is rejected and the
    node is left as it was. *)
Theorem cast_reaches_node fs args now r1 r2 p census n now' nonces draw rf ra :
  cast fs args now r1 r2 = Ok p ->
  exists sk, fs !! key_file args = Some sk /\
    let ballot := Signed_new sk (Ballot_new (verdict args) (issue args) now r1 r2) in
    deserialize (payload p) = Some ballot /\ topic p = "ballot-cast" /\
    on_ballot_message census n (payload p) now' nonces draw rf ra =
      if contains_voter census (verifying_key sk) then
        match Node.pool_ballot n ballot now' nonces with
        | Some n' => Some (Evaluated (try_resolve n' census draw rf ra), n')
        | None => None
        end
      else Some (InvalidSignature, n).
Proof. apply cast_delivery. Qed.

End Delivery.

(** The client panics when the key file of the chosen
    identity is missing; after [init-keys] with a drawn key [k], casting
    without [--id] succeeds and publishes a ballot signed by [k]. *)
Theorem init_keys_then_cast fs args k now r1 r2 :
  (cast fs args now r1 r2 = Panic <-> fs !! key_file args = None) /\
  (id args = None ->
   exists fs' p, main fs InitKeys k now r1 r2 = Ok (WroteKey, fs') /\
     main fs' (Cast args) k now r1 r2 = Ok (Published p, fs') /\
     payload p = serialize (Signed_new k (Ballot_new (verdict args) (issue args) now r1 r2))).
Proof.
  split.
  - rewrite cast_cases. destruct (fs !! key_file args); done.
  - intros Hid. exists (generate_keys fs k).
    eexists. split; [done|]. unfold main. rewrite cast_cases.
    unfold key_file, generate_keys. rewrite Hid, lookup_insert_eq. done.
Qed.

(** C32: [generate_population] writes the same key to all
    fourteen identity files, so ballots cast under any two of these
    identities carry the same signer and count as one voter. *)
Theorem population_shares_key fs k args1 args2 i j now r1 r2 now' r1' r2' :
  6 <= i < 20 -> 6 <= j < 20 -> id args1 = Some i -> id args2 = Some j ->
  exists p1 p2,
    cast (generate_population fs k) args1 now r1 r2 = Ok p1 /\
    cast (generate_population fs k) args2 now' r1' r2' = Ok p2 /\
    payload p1 = serialize (Signed_new k (Ballot_new (verdict args1) (issue args1) now r1 r2)) /\
    payload p2 = serialize (Signed_new k (Ballot_new (verdict args2) (issue args2) now' r1' r2')).
Proof.
  intros Hi Hj Hid1 Hid2. rewrite !cast_cases. unfold key_file. rewrite Hid1, Hid2.
  rewrite !generate_population_lookup, !decide_True by lia. by do 2 eexists.
Qed.

End ClientModel.

End Client.

(** ** Scenarios and witnesses *)

Module ClientExamples.
Import Toy BlockExamples Census Node NodeExamples Client.

Definition args_yes : CastArgs := mkCastArgs "issue" true None None.

Definition store_11 : KeyStore := {[SecretKeyFile := 11]}.

Definition published_11 : Publication :=
  send_to_swarm (Signed_new 11 (Ballot_new true "issue" 5 1 2)) 47474.

Lemma cast_reaches_node_witness :
  cast store_11 args_yes 5 1 2 = Ok published_11 /\
  exists sk, store_11 !! key_file args_yes = Some sk /\
    let ballot := Signed_new sk (Ballot_new (verdict args_yes) (issue args_yes) 5 1 2) in
    deserialize (payload published_11) = Some ballot /\ topic published_11 = "ballot-cast" /\
    on_ballot_message census_11 node0 (payload published_11) 20 [] (fun _ => (false, 0%nat)) 0 0 =
      if contains_voter census_11 (verifying_key sk) then
        match Node.pool_ballot node0 ballot 20 [] with
        | Some n' => Some (Evaluated (try_resolve n' census_11 (fun _ => (false, 0%nat)) 0 0), n')
        | None => None
        end
      else Some (InvalidSignature, node0).
Proof.
  assert (Hc : cast store_11 args_yes 5 1 2 = Ok published_11) by reflexivity.
  split; [exact Hc|]. apply (cast_reaches_node _ _ _ _ _ _ _ _ _ _ _ _ _ Hc).
Defined.

Definition args_7 : CastArgs := mkCastArgs "issue" true (Some 7) None.
Definition args_12 : CastArgs := mkCastArgs "issue" false (Some 12) None.
Definition empty_store : KeyStore := ∅.

Lemma population_shares_key_witness :
  6 <= 7 < 20 /\ 6 <= 12 < 20 /\ id args_7 = Some 7 /\ id args_12 = Some 12 /\
  exists p1 p2,
    cast (generate_population empty_store 42) args_7 5 1 2 = Ok p1 /\
    cast (generate_population empty_store 42) args_12 6 3 4 = Ok p2 /\
    payload p1 = serialize (Signed_new 42 (Ballot_new (verdict args_7) (issue args_7) 5 1 2)) /\
    payload p2 = serialize (Signed_new 42 (Ballot_new (verdict args_12) (issue args_12) 6 3 4)).
Proof.
  split; [lia|]. split; [lia|]. split; [reflexivity|]. split; [reflexivity|].
  apply (population_shares_key empty_store 42 args_7 args_12 7 12 5 1 2 6 3 4); [lia|lia|reflexivity|reflexivity].
Defined.

Lemma init_keys_then_cast_witness :
  id args_yes = None /\
  exists fs' p, main empty_store InitKeys 11 5 1 2 = Ok (WroteKey, fs') /\
    main fs' (Cast args_yes) 11 5 1 2 = Ok (Published p, fs') /\
    payload p = serialize (Signed_new 11 (Ballot_new (verdict args_yes) (issue args_yes) 5 1 2)).
Proof. split; [reflexivity|]. apply (init_keys_then_cast empty_store args_yes 11 5 1 2). reflexivity. Defined.

End ClientExamples.
