(* ===== verification/Startup.v ===== *)
(** * Startup: opening a node and restarting it (main.rs, census.rs, chain.rs)

    [Module Startup] models the start of the node's [main]: the signing
    key (a test identity file, read with [?], or a fresh key), the
    census read from the identity files ([DumbCensus::new]) and the
    chain opened from its store ([Blockchain::new], whose genesis block
    is signed with [default.der]).  The key files are the [KeyStore]
    of [Client].

    [Blockchain::new] sets the height of a reopened store to the number
    of stored blocks.  That is the head index exactly when the indices
    are contiguous [1..=height], the invariant of spec section 4.C.
    The theorems show that every transition of a running node keeps
    that invariant (sync included, when the peer's store satisfies it
    as well), that reopening a contiguous store gives back its blocks
    and height, with an empty pool, and that a reorganisation to a
    shorter chain would break it. *)

From S2P Require Import Prelude Crypto Block Chain ChainIter Delegations Resolve Sync Behaviour Node Client.

Module Startup.
Import Census Node Client.

Section StartupModel.
Context `{Blake3} `{Ed25519} `{Paillier} `{Serialize (Signed Ballot)} `{Serialize Ballot}
  `{Deserialize (Signed Ballot)}.

(** [DumbCensus::new]: the verifying keys of the files of
    [./temp/identities], which under the default configuration are all
    the key files (the identity files and [default.der]). *)
Definition census_new (fs : KeyStore) : DumbCensus :=
  mkCensus (list_to_set (map (fun kv => verifying_key kv.2) (map_to_list fs))).

(** The [?] of [main] on reading the test identity's key file. *)
Inductive StartupError := KeyFileMissing (identity : Z).

(** The start of [main]: the signing key, the census, and the chain
    opened on the stored blocks [db] ([Block::genesis], called on an
    empty store only, [unwrap]s the key of [default.der]); the sync
    behaviour starts empty.  [None]: the genesis proof of work does not
    stop within [genesis_nonces]. *)
Definition startup (fs : KeyStore) (test_identity : option Z) (generated_key : Z)
    (db : gmap Z Block.Block) (genesis_nonces : list (list Z))
    : option (res (Node * DumbCensus) StartupError) :=
  let signing_key :=
    match test_identity with
    | Some identity =>
        match fs !! IdentityFile identity with
        | Some sk => Ok sk
        | None => Err (KeyFileMissing identity)
        end
    | None => Ok generated_key
    end in
  match signing_key with
  | Err e => Some (Err e)
  | Panic => Some Panic
  | Ok sk =>
      let census := census_new fs in
      let open_chain genesis_key :=
        match Chain.new db sk genesis_key genesis_nonces with
        | Some c => Some (Ok (mkNode c SyncBehaviour.new, census))
        | None => None
        end in
      if decide (db = ∅) then
        match fs !! SecretKeyFile with
        | Some genesis_key => open_chain genesis_key
        | None => Some Panic
        end
      else open_chain 0
  end.

(** The spec's chain invariant: the stored indices are exactly
    [1..=height]. *)
Definition contiguous (c : Chain.Blockchain) : Prop :=
  1 <= Chain.height c /\ forall i, is_Some (Chain.chain_db c !! i) <-> 1 <= i <= Chain.height c.

(** A node and a peer it syncs with: its own transitions, and a
    completed sync with a peer whose store is contiguous. *)
Inductive run_step (census : DumbCensus) (signing_key test_append : Z) : Node -> Node -> Prop :=
| run_local n n' : local_step census signing_key test_append n n' -> run_step census signing_key test_append n n'
| run_sync n b : contiguous b -> run_step census signing_key test_append n (on_sync n b).

(** ** The invariant *)

Lemma contiguous_with_pool c pool : contiguous c -> contiguous (Chain.with_pool c pool).
Proof. done. Qed.

Lemma contiguous_with_appended c b : contiguous c -> contiguous (Chain.with_appended c b).
Proof.
  intros [Hh Hc]. split; simpl; [lia|]. intros i. destruct (decide (i = Chain.height c + 1)) as [->|Hne].
  - rewrite lookup_insert_eq. split; [lia|done].
  - rewrite lookup_insert_ne by done. rewrite Hc. lia.
Qed.

Lemma contiguous_append c b : contiguous c -> contiguous (Chain.append c b).2.
Proof.
  intros Hc. unfold Chain.append. destruct (Chain.get_block _ _); [|done|done].
  destruct (negb _); [done|]. by apply contiguous_with_appended.
Qed.

#[local] Hint Resolve contiguous_with_pool contiguous_with_appended contiguous_append : votechain.

Lemma contiguous_pool_ballot c ballot now nonces r c' :
  contiguous c -> Chain.pool_ballot c ballot now nonces = Some (r, c') -> contiguous c'.
Proof.
  intros Hc. unfold Chain.pool_ballot. destruct (decide _); [|intros [= _ <-]; auto with votechain].
  destruct (split_off _ _). destruct (Chain.get_block _ _); [|intros [= _ <-]; auto with votechain..].
  destruct (Block.new _ _ _ _ _) as [[| |]|]; intros; simplify_eq; auto with votechain.
Qed.

Lemma contiguous_test_append_loop sk c hs draw c' :
  contiguous c -> test_append_loop sk c hs draw = Some (Ok c') -> contiguous c'.
Proof.
  revert c. induction hs as [|h hs IH]; intros c Hc; simpl; [intros [= <-]; done|].
  destruct (test_append_step sk c h (draw h)) as [[c1| |]|] eqn:E; try done.
  apply IH. unfold test_append_step in E. destruct (Chain.get_block c h); [|done|done].
  destruct (Block.new _ _ _ _ _) as [[| |]|]; simplify_eq; auto with votechain.
Qed.

Lemma contiguous_local_step census sk ta n n' :
  contiguous (chain n) -> local_step census sk ta n n' -> contiguous (chain n').
Proof.
  intros Hc Hs. destruct Hs as [n msg now nonces draw r1 r2 o n' Hm|n peers|n peers draw n' Hd|n b' _];
    try done.
  - unfold on_ballot_message in Hm. destruct (deserialize msg); [|by simplify_eq].
    destruct (negb _ || negb _); [by simplify_eq|]. unfold pool_ballot in Hm.
    destruct (Chain.pool_ballot _ _ _ _) as [[r c']|] eqn:E; [|done]. simplify_eq.
    by apply (contiguous_pool_ballot _ _ _ _ _ _ Hc E).
  - unfold on_delay in Hd. destruct (ChainIter.debug_fmt (chain n)); [|done|done].
    case_decide; [by simplify_eq|]. case_decide; [done|].
    destruct (test_append_loop _ _ _ _) as [[c'| |]|] eqn:El; try done. simplify_eq.
    by apply (contiguous_test_append_loop _ _ _ _ _ Hc El).
Qed.

(** What a successful walk of the sync establishes: the peer stores a
    block at the starting height, and the streamed blocks are the
    peer's blocks from the fork index, which is at most that height. *)
Lemma walk_ok_inv fuel a b h f l :
  1 <= h -> Sync.walk fuel a b h = Ok (f, l) ->
  is_Some (Chain.chain_db b !! h) /\ 1 <= f <= h /\ Chain.blocks_from b f = Ok l.
Proof.
  revert h. induction fuel as [|fuel IH]; intros h Hh; simpl; [done|].
  destruct (Chain.get_hash_at a h); [|done|done].
  destruct (Chain.get_hash_at b h) as [hb| |] eqn:Eb; [|done|done].
  assert (Hb : is_Some (Chain.chain_db b !! h)).
  { unfold Chain.get_hash_at, Chain.get_block in Eb. destruct (Chain.chain_db b !! h); [done|inversion Eb]. }
  destruct (decide _).
  - destruct (Chain.blocks_from b h) as [[|b0 bs]| |] eqn:El; try done.
    case_decide; [intros [= <- <-]; done|done].
  - case_decide; [done|]. intros Hw. destruct (IH (h - 1) ltac:(lia) Hw) as (_ & Hf & Hl).
    split; [done|]. split; [lia|done].
Qed.

Lemma contiguous_sync a b : contiguous a -> contiguous b -> contiguous (Sync.sync_spec a b).2.
Proof.
  intros Hca [Hb1 Hb]. pose proof Hca as [Ha1 Ha]. unfold Sync.sync_spec.
  destruct (Sync.walk _ a b (Chain.height a)) as [[f l]| |] eqn:Ew; [|exact Hca|exact Hca].
  destruct (walk_ok_inv _ _ _ _ _ _ Ha1 Ew) as (Hbh & Hf & Hl).
  apply Hb in Hbh. pose proof (Sync.blocks_from_length _ _ _ Hl) as Hlen.
  unfold Sync.finish. destruct (Chain.try_update_longest a f l) as [r a'] eqn:Er.
  destruct r as [r| |]; simpl;
    [|pose proof (Chain.reorg_atomic a f l) as Hat; rewrite Er in Hat; simpl in Hat; by rewrite (Hat eq_refl)..].
  destruct (Chain.reorg_effect a f l r a' Er) as (_ & Hh & Hdb & _).
  split; [lia|]. intros j. rewrite Hdb, Hh. unfold Chain.reorged_db.
  destruct (decide (f <= j < f + Z.of_nat (length l))) as [Hj|Hj].
  - split; [lia|]. intros _. apply lookup_lt_is_Some. lia.
  - destruct (decide (f <= j < Chain.height a)); [split; [intros []; done|lia]|].
    rewrite Ha. lia.
Qed.

Lemma contiguous_run_step census sk ta n n' :
  contiguous (chain n) -> run_step census sk ta n n' -> contiguous (chain n').
Proof.
  intros Hc Hs. destruct Hs as [n n' Hl|n b Hb].
  - by apply (contiguous_local_step census sk ta n n').
  - by apply contiguous_sync.
Qed.

(** ** Reopening a store *)

Lemma contiguous_size c : contiguous c -> Z.of_nat (size (Chain.chain_db c)) = Chain.height c.
Proof.
  intros [Hh Hc]. rewrite <- size_dom.
  assert (Hd : dom (Chain.chain_db c) = list_to_set (seqZ 1 (Chain.height c))).
  { apply set_eq. intros i. rewrite elem_of_dom, elem_of_list_to_set, elem_of_seqZ, Hc. lia. }
  rewrite Hd, size_list_to_set by apply NoDup_seqZ. rewrite length_seqZ. lia.
Qed.

Lemma contiguous_nonempty c : contiguous c -> Chain.chain_db c <> ∅.
Proof.
  intros [Hh Hc] He. destruct (proj2 (Hc 1) ltac:(lia)) as [b Hb]. by rewrite He, lookup_empty in Hb.
Qed.

Lemma reopen c sk gk nonces :
  contiguous c ->
  exists c', Chain.new (Chain.chain_db c) sk gk nonces = Some c' /\
    Chain.chain_db c' = Chain.chain_db c /\ Chain.height c' = Chain.height c /\
    Chain.ballot_pool c' = [] /\ Chain.signing_key c' = sk.
Proof.
  intros Hc. unfold Chain.new. rewrite decide_False by (by apply contiguous_nonempty).
  eexists. split; [reflexivity|]. simpl. split; [done|]. split; [|done]. by apply contiguous_size.
Qed.

Lemma startup_open fs tid gen c nonces :
  contiguous c -> (forall identity, tid = Some identity -> is_Some (fs !! IdentityFile identity)) ->
  exists n', startup fs tid gen (Chain.chain_db c) nonces = Some (Ok (n', census_new fs)) /\
    Chain.chain_db (chain n') = Chain.chain_db c /\ Chain.height (chain n') = Chain.height c /\
    Chain.ballot_pool (chain n') = [] /\ sync n' = SyncBehaviour.new.
Proof.
  intros Hc Htid. unfold startup.
  assert (Hk : exists sk, (match tid with
                           | Some identity => match fs !! IdentityFile identity with
                                              | Some sk => Ok sk | None => Err (KeyFileMissing identity) end
                           | None => Ok gen end) = @Ok Z StartupError sk).
  { destruct tid as [identity|]; [|by eexists]. destruct (Htid identity eq_refl) as [sk ->]. by eexists. }
  destruct Hk as [sk ->]. rewrite decide_False by (by apply contiguous_nonempty).
  destruct (reopen c sk 0 nonces Hc) as (c' & -> & Hdb & Hh & Hp & _). by eexists.
Qed.

(** C17: along any run of a node (gossip ballots, discovery,
    delay ticks with test blocks, behaviour steps, and syncs with peers
    whose stores are contiguous) from a contiguous store, the store stays
    contiguous, so restarting the node ([main] with an existing test
    identity or a fresh key) reopens it with the same blocks and height;
    only the pending pool is lost. *)
Theorem restart_after_run census sk ta n0 n fs tid gen nonces :
  rtc (run_step census sk ta) n0 n -> contiguous (chain n0) ->
  (forall identity, tid = Some identity -> is_Some (fs !! IdentityFile identity)) ->
  contiguous (chain n) /\
  exists n', startup fs tid gen (Chain.chain_db (chain n)) nonces = Some (Ok (n', census_new fs)) /\
    Chain.chain_db (chain n') = Chain.chain_db (chain n) /\ Chain.height (chain n') = Chain.height (chain n) /\
    Chain.ballot_pool (chain n') = [] /\ sync n' = SyncBehaviour.new.
Proof.
  intros Hr Hc0 Htid.
  assert (Hc : contiguous (chain n)).
  { apply (rtc_preserve (run_step census sk ta) (fun n => contiguous (chain n)) n0); [|done|done].
    intros ??. apply contiguous_run_step. }
  split; [done|]. by apply startup_open.
Qed.

(** A decision procedure for [contiguous]. *)
Definition contiguous_b (c : Chain.Blockchain) : bool :=
  bool_decide (1 <= Chain.height c) &&
  bool_decide (dom (Chain.chain_db c) = list_to_set (seqZ 1 (Chain.height c))).

Lemma contiguous_b_spec c : contiguous_b c = true <-> contiguous c.
Proof.
  unfold contiguous_b, contiguous. rewrite andb_true_iff, !bool_decide_eq_true.
  apply and_iff_compat_l. split.
  - intros Hd i. rewrite <- elem_of_dom, Hd, elem_of_list_to_set, elem_of_seqZ. lia.
  - intros Hc. apply set_eq. intros i. rewrite elem_of_dom, Hc, elem_of_list_to_set, elem_of_seqZ. lia.
Qed.

End StartupModel.

End Startup.

(** ** Scenarios and witnesses *)

Module StartupExamples.
Import Toy BlockExamples Node NodeExamples Client Startup Sync.Examples.

(** [chain_A] is [G, A2, A3]; reorganising it at index 1 with the
    genesis block alone leaves [A3] stored at index 3. *)
Definition shortened := Chain.try_update_longest chain_A 1 [blk_G].

Lemma chain_A_contiguous : contiguous chain_A.
Proof. apply contiguous_b_spec. reflexivity. Qed.


Definition store_7 : KeyStore := {[IdentityFile 7 := 7; SecretKeyFile := 1]}.

Lemma restart_after_run_witness :
  rtc (run_step census_11 11 0) (mkNode chain_A SyncBehaviour.new) (mkNode chain_A SyncBehaviour.new) /\
  contiguous chain_A /\
  (forall identity, Some 7 = Some identity -> is_Some (store_7 !! IdentityFile identity)) /\
  contiguous chain_A /\
  exists n', startup store_7 (Some 7) 3 (Chain.chain_db chain_A) [] = Some (Ok (n', census_new store_7)) /\
    Chain.chain_db (chain n') = Chain.chain_db chain_A /\ Chain.height (chain n') = Chain.height chain_A /\
    Chain.ballot_pool (chain n') = [] /\ sync n' = SyncBehaviour.new.
Proof.
  assert (Htid : forall identity, Some 7 = Some identity -> is_Some (store_7 !! IdentityFile identity)).
  { intros identity [= <-]. by eexists. }
  split; [apply rtc_refl|]. split; [exact chain_A_contiguous|]. split; [exact Htid|].
  apply (restart_after_run census_11 11 0 (mkNode chain_A SyncBehaviour.new) (mkNode chain_A SyncBehaviour.new)
           store_7 (Some 7) 3 [] (rtc_refl _ _) chain_A_contiguous Htid).
Defined.

End StartupExamples.
