(* ===== verification/Cli.v ===== *)
(** * Cli: the node's command line and where it opens its store
      (cli.rs, votechain/config.rs, main.rs, chain.rs)

    [Module NodeCli] models the node's [Cli] arguments with their
    defaults, the [BlockchainConfig] that [main] loads (with no source,
    so its default path), the choice of the issue identifier (the
    [--chain-postfix] flag, or seven random alphanumeric characters
    drawn on every run), [Path::join] of the store directory, and the
    start of [main] on a disk holding one store per path.  The theorem
    shows that a node reopens its chain on restart only when it is given
    the same [--chain-postfix]: without it, each run opens a fresh store
    with a new genesis chain. *)

From S2P Require Import Prelude Crypto Block Chain ChainIter Delegations Resolve Sync Behaviour Node Client Startup.
From Stdlib Require Import Ascii.

Module NodeCli.
Import Census Node Client Startup.

(** [struct Cli]: [config] defaults to ["./config.toml"],
    [test_append] to [0]. *)
Record Cli := mkCli {
  config : option string;
  chain_postfix : option string;
  private_key : option string;
  test_append : Z;
  test_identity : option Z
}.

(** The arguments of a node started with no flag. *)
Definition cli_default : Cli := mkCli (Some "./config.toml") None None 0 None.

(** [struct BlockchainConfig] and its default, the value
    [BlockchainConfig::builder().load()] yields: [main] adds no source
    to the builder, so neither [--config] nor a file is read. *)
Record BlockchainConfig := mkBlockchainConfig { path : string }.

Definition blockchain_config_load : BlockchainConfig :=
  mkBlockchainConfig "./temp/blockchains/solochain".

(** The issue identifier of [main]: [random_id] is the string of seven
    alphanumeric characters drawn from [thread_rng]. *)
Definition issue_id (args : Cli) (random_id : string) : string :=
  match chain_postfix args with
  | Some postfix => postfix
  | None => random_id
  end.

Definition ends_with_slash (s : string) : bool :=
  match String.get (String.length s - 1) s with
  | Some "/"%char => true
  | _ => false
  end.

(** [Path::join] on Unix: an absolute path replaces the base; otherwise
    a separator is added unless the base is empty or already ends with
    one. *)
Definition path_join (base p : string) : string :=
  if String.prefix "/" p then p
  else if String.eqb base "" then p
  else if ends_with_slash base then String.append base p
  else String.append base (String.append "/" p).

(** The store directory of [Blockchain::new]. *)
Definition store_path (config : BlockchainConfig) (issue_id : string) : string :=
  path_join (path config) issue_id.

Section CliModel.
Context `{Blake3} `{Ed25519} `{Paillier} `{Serialize (Signed Ballot)} `{Serialize Ballot}
  `{Deserialize (Signed Ballot)}.

(** The start of [main] from its arguments: the issue identifier picks
    the store among those on disk ([stores], one block map per path; a
    missing directory is created empty), then [startup]. *)
Definition main_start (args : Cli) (random_id : string) (stores : gmap string (gmap Z Block.Block))
    (fs : KeyStore) (generated_key : Z) (genesis_nonces : list (list Z))
    : option (res (Node * DumbCensus) StartupError) :=
  let db := default ∅ (stores !! store_path blockchain_config_load (issue_id args random_id)) in
  startup fs (test_identity args) generated_key db genesis_nonces.

(** ** Laws *)

Lemma startup_fresh fs tid gen nonces gk g :
  (forall identity, tid = Some identity -> is_Some (fs !! IdentityFile identity)) ->
  fs !! SecretKeyFile = Some gk -> Block.genesis gk nonces = Some g ->
  exists n', startup fs tid gen ∅ nonces = Some (Ok (n', census_new fs)) /\
    Chain.chain_db (chain n') = {[1 := g]} /\ Chain.height (chain n') = 1.
Proof.
  intros Htid Hgk Hg. unfold startup.
  destruct tid as [identity|].
  - destruct (Htid identity eq_refl) as [sk Hsk]. rewrite Hsk. rewrite decide_True by done. rewrite Hgk.
    unfold Chain.new. rewrite decide_True by done. rewrite Hg. by eexists.
  - rewrite decide_True by done. rewrite Hgk. unfold Chain.new. rewrite decide_True by done. rewrite Hg.
    by eexists.
Qed.

(** C18: restarting a node reopens its chain only through a
    fixed [--chain-postfix]: with postfix [p], the store at
    [store_path p] is reopened with its blocks and height whenever it is
    contiguous; without a postfix, a run whose random identifier names
    no existing store starts from a fresh genesis chain of height 1,
    whatever was stored under earlier identifiers. *)
Theorem restart_needs_postfix args random_id stores fs gen nonces :
  (forall identity, test_identity args = Some identity -> is_Some (fs !! IdentityFile identity)) ->
  (forall p c, chain_postfix args = Some p ->
     stores !! store_path blockchain_config_load p = Some (Chain.chain_db c) -> contiguous c ->
     exists n', main_start args random_id stores fs gen nonces = Some (Ok (n', census_new fs)) /\
       Chain.chain_db (chain n') = Chain.chain_db c /\ Chain.height (chain n') = Chain.height c) /\
  (forall gk g, chain_postfix args = None ->
     stores !! store_path blockchain_config_load random_id = None ->
     fs !! SecretKeyFile = Some gk -> Block.genesis gk nonces = Some g ->
     exists n', main_start args random_id stores fs gen nonces = Some (Ok (n', census_new fs)) /\
       Chain.chain_db (chain n') = {[1 := g]} /\ Chain.height (chain n') = 1).
Proof.
  intros Htid. split.
  - intros p c Hp Hs Hc. unfold main_start, issue_id. rewrite Hp, Hs. simpl.
    destruct (startup_open fs (test_identity args) gen c nonces Hc Htid) as (n' & -> & Hdb & Hh & _).
    by eexists.
  - intros gk g Hp Hs Hgk Hg. unfold main_start, issue_id. rewrite Hp, Hs. simpl.
    by apply (startup_fresh fs (test_identity args) gen nonces gk g Htid Hgk Hg).
Qed.

End CliModel.

End NodeCli.

(** ** Scenarios and witnesses *)

Module CliExamples.
Import Toy BlockExamples Node NodeExamples Client Startup StartupExamples Sync.Examples NodeCli.

(** The store of issue ["poll"] under the default configuration. *)
Lemma store_path_poll : store_path blockchain_config_load "poll" = "./temp/blockchains/solochain/poll".
Proof. reflexivity. Qed.

(** An absolute postfix escapes the blockchain directory. *)
Lemma store_path_absolute : store_path blockchain_config_load "/tmp/poll" = "/tmp/poll".
Proof. reflexivity. Qed.

Definition args_poll : Cli := mkCli None (Some "poll") None 0 (Some 7).

Definition stores_poll : gmap string (gmap Z Block.Block) :=
  {[ "./temp/blockchains/solochain/poll" := Chain.chain_db chain_A ]}.

Lemma restart_needs_postfix_witness :
  (forall identity, test_identity args_poll = Some identity -> is_Some (store_7 !! IdentityFile identity)) /\
  (forall p c, chain_postfix args_poll = Some p ->
     stores_poll !! store_path blockchain_config_load p = Some (Chain.chain_db c) -> contiguous c ->
     exists n', main_start args_poll "aB3dE5f" stores_poll store_7 3 [] = Some (Ok (n', census_new store_7)) /\
       Chain.chain_db (chain n') = Chain.chain_db c /\ Chain.height (chain n') = Chain.height c) /\
  (forall gk g, chain_postfix args_poll = None ->
     stores_poll !! store_path blockchain_config_load "aB3dE5f" = None ->
     store_7 !! SecretKeyFile = Some gk -> Block.genesis gk [] = Some g ->
     exists n', main_start args_poll "aB3dE5f" stores_poll store_7 3 [] = Some (Ok (n', census_new store_7)) /\
       Chain.chain_db (chain n') = {[1 := g]} /\ Chain.height (chain n') = 1).
Proof.
  assert (Htid : forall identity, test_identity args_poll = Some identity -> is_Some (store_7 !! IdentityFile identity)).
  { intros identity [= <-]. by eexists. }
  split; [exact Htid|]. apply (restart_needs_postfix args_poll "aB3dE5f" stores_poll store_7 3 [] Htid).
Defined.

End CliExamples.
